(** * Windows CE backend of libusb: session-id table, clock service, lifecycle

    A shallow embedding of [libusb/os/wince_usb.c].  The hash table used to
    intern session identifiers ([isprime], [htab_create], [htab_hash]), the
    reference-counted initialisation ([wince_init]), the clock query
    ([wince_clock_gettime]) and the unsupported backend operations are
    translated function by function; loops take a fuel argument and calls to
    the operating system take their outcome from an explicit environment. *)

From Stdlib Require Import ZArith Zdivisibility Lia List Bool.
From Stdlib Require Strings.Byte.
From stdpp Require Import base list.
Import ListNotations.
Open Scope Z_scope.

(** ** Machine integers

    Windows CE is an ILP32 platform: [unsigned int], [unsigned long], [LONG]
    and [DWORD] are 32 bits wide, [uint64_t] is 64 bits wide.  Unsigned
    arithmetic wraps modulo the width. *)

Definition ULONG_MODULUS : Z := 2 ^ 32.
Definition UINT64_MODULUS : Z := 2 ^ 64.

Definition ulong (z : Z) : Z := z mod ULONG_MODULUS.
Definition uint (z : Z) : Z := z mod ULONG_MODULUS.
Definition uint64 (z : Z) : Z := z mod UINT64_MODULUS.

(** Conversion to the signed 32-bit [long] / [LONG] (two's complement). *)
Definition to_long (z : Z) : Z :=
  let u := z mod ULONG_MODULUS in
  if u <? 2 ^ 31 then u else u - ULONG_MODULUS.

(** ** Results of running a piece of code

    [Done a]: the code returned [a].  [OutOfFuel]: the loop bound given to the
    model was too small.  [Fault]: the C code has no defined behaviour there
    (null table, index outside the array, division by zero). *)

Inductive outcome (A : Type) : Type :=
| Done (a : A)
| OutOfFuel
| Fault.
Arguments Done {A} a.
Arguments OutOfFuel {A}.
Arguments Fault {A}.

Definition obind {A B} (m : outcome A) (k : A -> outcome B) : outcome B :=
  match m with
  | Done a => k a
  | OutOfFuel => OutOfFuel
  | Fault => Fault
  end.

Notation "'do' x <- m ; k" := (obind m (fun x => k))
  (at level 10, x name, m at level 100, k at level 200).
Notation "'do' ' p <- m ; k" := (obind m (fun x => let 'p := x in k))
  (at level 10, p pattern, m at level 100, k at level 200).

(** ** The hash table *)

(** [struct htab_entry]: [used] is 0 for a free slot and the table hash of the
    stored string otherwise; [str] is the owned copy ([None] is the null
    pointer). *)
Record htab_entry : Type := mk_entry {
  used : Z;
  str : option (list Byte.byte)
}.

(** The globals [htab_table], [htab_size], [htab_filled].  The write mutex is
    not part of the sequential model. *)
Record htab_state : Type := mk_htab {
  htab_table : option (list htab_entry);
  htab_size : Z;
  htab_filled : Z
}.

Definition free_entry : htab_entry := mk_entry 0 None.

(** *** [isprime] *)

(** The loop of [isprime]: [divider] is an [unsigned int], so the square and
    the increment wrap. Returns the value of [divider] when the loop is left. *)
Fixpoint isprime_loop (fuel : nat) (number divider : Z) : outcome Z :=
  match fuel with
  | O => OutOfFuel
  | S fuel' =>
      if divider =? 0 then Fault
      else if (uint (divider * divider) <? number) && negb (number mod divider =? 0)
      then isprime_loop fuel' number (uint (divider + 2))
      else Done divider
  end.

Definition isprime (fuel : nat) (number : Z) : outcome bool :=
  do divider <- isprime_loop fuel number 3;
  Done (negb (number mod divider =? 0)).

(** *** [htab_create] *)

(** The loop [while(!isprime(nel)) nel += 2;]. *)
Fixpoint next_prime_loop (fuel : nat) (nel : Z) : outcome Z :=
  match fuel with
  | O => OutOfFuel
  | S fuel' =>
      do p <- isprime fuel nel;
      if p then Done nel else next_prime_loop fuel' (ulong (nel + 2))
  end.

(** [htab_create], on the three globals of the table: [calloc_ok] tells
    whether the allocation of the array succeeds.  Returns the C result
    (1 or 0) and the new globals.  The first statement of the function,
    [usbi_mutex_init(&htab_write_mutex, NULL)], touches none of them: it is
    part of [htab_create_call] below, which is the call as [wince_init]
    makes it. *)
Definition htab_create (fuel : nat) (calloc_ok : bool) (nel : Z)
  : outcome (Z * htab_state) :=
  do nel' <- next_prime_loop fuel (Z.lor nel 1);
  let table :=
    if calloc_ok then Some (replicate (Z.to_nat (ulong (nel' + 1))) free_entry)
    else None in
  Done (if calloc_ok then 1 else 0, mk_htab table nel' 0).

(** *** [htab_hash]: the main hash value *)

(** [char] is a signed 8-bit type for the compilers that target Windows CE;
    [c = *sz++] widens it to [int]. *)
Definition char_to_int (b : Byte.byte) : Z :=
  let n := Z.of_N (Strings.Byte.to_N b) in
  if n <? 128 then n else n - 256.

(** A C string is given by the bytes at the pointer; it ends at the first
    NUL byte (or at the end of the list, where the terminator is implicit). *)
Fixpoint c_str (s : list Byte.byte) : list Byte.byte :=
  match s with
  | [] => []
  | b :: rest => if char_to_int b =? 0 then [] else b :: c_str rest
  end.

(** One round of [r = ((r << 5) + r) + c] on [unsigned long]. *)
Definition hash_round (r c : Z) : Z :=
  ulong (ulong (ulong (Z.shiftl r 5) + r) + c).

(** [while ((c = *sz++)) r = ((r << 5) + r) + c;] *)
Fixpoint hash_loop (sz : list Byte.byte) (r : Z) : Z :=
  match sz with
  | [] => r
  | b :: rest =>
      let c := char_to_int b in
      if c =? 0 then r else hash_loop rest (hash_round r c)
  end.

(** The main hash value: seed 5381, and [if (r == 0) ++r]. *)
Definition main_hash (s : list Byte.byte) : Z :=
  let r := hash_loop s 5381 in
  if r =? 0 then ulong (r + 1) else r.

(** *** [htab_hash]: lookup and insertion *)

(** Modelled from the spec: [safe_strcmp] is a macro of [wince_usb.h],
    which is not among the sources.  The specification has the probe test
    that "its stored string equals the query string"; as in the other
    backends of the library the macro is [strcmp] with a null pointer
    replaced by the literal ["<NULL>"], which only matters for an entry whose
    string could not be allocated.  Only the outcome [== 0] is used. *)
Definition NULL_literal : list Byte.byte :=
  [Byte.x3c; Byte.x4e; Byte.x55; Byte.x4c; Byte.x4c; Byte.x3e].

Fixpoint list_byte_eqb (a b : list Byte.byte) : bool :=
  match a, b with
  | [], [] => true
  | x :: a', y :: b' => Byte.eqb x y && list_byte_eqb a' b'
  | _, _ => false
  end.

Definition safe_strcmp_eq0 (s : list Byte.byte) (stored : option (list Byte.byte)) : bool :=
  list_byte_eqb (c_str s)
    (match stored with Some t => c_str t | None => NULL_literal end).

(** The test [(htab_table[idx].used == hval) && (safe_strcmp(str, htab_table[idx].str) == 0)]. *)
Definition entry_matches (hval : Z) (s : list Byte.byte) (e : htab_entry) : bool :=
  (used e =? hval) && safe_strcmp_eq0 s (str e).

(** [htab_table[idx]]; an index outside the allocated array is a fault. *)
Definition read_entry (tbl : list htab_entry) (idx : Z) : outcome htab_entry :=
  if idx <? 0 then Fault
  else match tbl !! Z.to_nat idx with
       | Some e => Done e
       | None => Fault
       end.

(** The step of the second hash: [if (idx <= hval2) idx = htab_size + idx - hval2; else idx -= hval2;] *)
Definition probe_step (size hval2 idx : Z) : Z :=
  if idx <=? hval2 then ulong (ulong (size + idx) - hval2)
  else ulong (idx - hval2).

(** How the search part of [htab_hash] ends: with the index of the entry
    found ([return idx] inside the search), or at the index where the new
    entry is to be written. *)
Inductive probe_result : Type :=
| ProbeHit (idx : Z)
| ProbeNew (idx : Z).

(** The [do ... while (htab_table[idx].used)] loop. *)
Fixpoint probe_loop (fuel : nat) (tbl : list htab_entry) (size hval hval2 : Z)
    (s : list Byte.byte) (idx : Z) : outcome probe_result :=
  match fuel with
  | O => OutOfFuel
  | S fuel' =>
      let idx := probe_step size hval2 idx in
      if idx =? hval then Done (ProbeNew idx)
      else
        do e <- read_entry tbl idx;
        if entry_matches hval s e then Done (ProbeHit idx)
        else if used e =? 0 then Done (ProbeNew idx)
        else probe_loop fuel' tbl size hval hval2 s idx
  end.

(** The table hash [hval = r % htab_size; if (hval == 0) ++hval;]. *)
Definition table_hash (size : Z) (s : list Byte.byte) : Z :=
  let hval := main_hash s mod size in
  if hval =? 0 then ulong (hval + 1) else hval.

(** The second hash [hval2 = 1 + hval % (htab_size - 2)]. *)
Definition second_hash (size hval : Z) : Z :=
  ulong (1 + hval mod ulong (size - 2)).

(** The search part of [htab_hash], from the computation of the hash to the
    comment [Not found => New entry]. *)
Definition htab_search (fuel : nat) (tbl : list htab_entry) (size : Z)
    (s : list Byte.byte) : outcome probe_result :=
  if size =? 0 then Fault
  else
    let hval := table_hash size s in
    let idx := hval in
    do e <- read_entry tbl idx;
    if negb (used e =? 0) then
      if entry_matches hval s e then Done (ProbeHit idx)
      else if ulong (size - 2) =? 0 then Fault
      else probe_loop fuel tbl size hval (second_hash size hval) s idx
    else Done (ProbeNew idx).

(** [htab_hash]: [malloc_ok] tells whether the copy of the string can be
    allocated.  Returns the index (0 on failure) and the new globals. *)
Definition htab_hash (fuel : nat) (malloc_ok : bool) (s : list Byte.byte)
    (st : htab_state) : outcome (Z * htab_state) :=
  match htab_table st with
  | None => Fault
  | Some tbl =>
      do r <- htab_search fuel tbl (htab_size st) s;
      match r with
      | ProbeHit idx => Done (idx, st)
      | ProbeNew idx =>
          if htab_size st <=? htab_filled st then Done (0, st)
          else
            do _ <- read_entry tbl idx;
            let hval := table_hash (htab_size st) s in
            if malloc_ok then
              let tbl' := <[Z.to_nat idx := mk_entry hval (Some (c_str s))]> tbl in
              Done (idx, mk_htab (Some tbl') (htab_size st) (ulong (htab_filled st + 1)))
            else
              let tbl' := <[Z.to_nat idx := mk_entry hval None]> tbl in
              Done (0, mk_htab (Some tbl') (htab_size st) (htab_filled st))
      end
  end.

(** A run of calls to [htab_hash], each with its own allocation outcome;
    returns the indices in call order. *)
Fixpoint htab_hash_all (fuel : nat) (calls : list (bool * list Byte.byte))
    (st : htab_state) : outcome (list Z * htab_state) :=
  match calls with
  | [] => Done ([], st)
  | (malloc_ok, s) :: rest =>
      do '(idx, st1) <- htab_hash fuel malloc_ok s st;
      do '(idxs, st2) <- htab_hash_all fuel rest st1;
      Done (idx :: idxs, st2)
  end.

(** *** The specification's wording of the main hash *)

(** The accumulator as the specification words it, [r = r*33 + r + byte]. *)
Definition spec_hash_round_as_worded (r c : Z) : Z := r * 33 + r + c.

(** The accumulator the code computes, [r = r*33 + byte] modulo [2^32]. *)
Definition spec_hash_round (r c : Z) : Z := (r * 33 + c) mod 2 ^ 32.

(** The bytes of a string as the [int] values the loop sees. *)
Definition string_chars (s : list Byte.byte) : list Z := map char_to_int (c_str s).

Definition spec_main_hash (round : Z -> Z -> Z) (s : list Byte.byte) : Z :=
  let r := fold_left round (string_chars s) 5381 in
  if r =? 0 then 1 else r.

(** *** Notions used to state the properties of the table *)

(** The table right after a successful [htab_create] that settled on the
    capacity [p]: [p + 1] zeroed entries. *)
Definition htab_empty (p : Z) : htab_state :=
  mk_htab (Some (replicate (Z.to_nat (p + 1)) free_entry)) p 0.

(** The [k]-th index visited by the probe sequence that starts at [hval]
    and steps by [hval2], in closed form. *)
Definition probe_idx (size hval hval2 k : Z) : Z :=
  (hval - k * hval2 - 1) mod size + 1.

(** Number of entries whose [used] field is not zero. *)
Fixpoint used_count (tbl : list htab_entry) : Z :=
  match tbl with
  | [] => 0
  | e :: rest => (if used e =? 0 then 0 else 1) + used_count rest
  end.

(** Shape of the globals of a created table: the array is allocated with
    [htab_size + 1] entries and the capacity fits an [unsigned long]. *)
Definition htab_wf (st : htab_state) : Prop :=
  exists tbl,
    htab_table st = Some tbl /\
    3 <= htab_size st < 4294967296 /\
    length tbl = Z.to_nat (htab_size st + 1) /\
    0 <= htab_filled st.

(** The invariant of the table: prime capacity, and [htab_filled] accounts
    for every occupied slot. *)
Definition htab_inv (st : htab_state) : Prop :=
  htab_wf st /\ Z.prime (htab_size st) /\
  forall tbl, htab_table st = Some tbl -> used_count tbl <= htab_filled st.

(** [tbl2] keeps every occupied entry of [tbl]. *)
Definition table_extends (tbl tbl2 : list htab_entry) : Prop :=
  length tbl2 = length tbl /\
  forall j e, tbl !! j = Some e -> used e <> 0 -> tbl2 !! j = Some e.

(** What the fill-up property keeps track of while the strings [done] have
    been inserted: capacity [p], one count per string, and nothing in the
    table but copies of these strings. *)
Definition filled_with (p : Z) (done : list (list Byte.byte)) (st : htab_state) : Prop :=
  htab_wf st /\ htab_size st = p /\
  htab_filled st = Z.of_nat (length done) /\
  forall tbl, htab_table st = Some tbl ->
    forall j e, tbl !! j = Some e -> used e <> 0 ->
      exists t, str e = Some t /\ In t (map c_str done).

(** Inputs of the examples: the one-character strings ["a"] to ["i"]. *)
Definition str_a : list Byte.byte := [Byte.x61].
Definition str_b : list Byte.byte := [Byte.x62].
Definition str_c : list Byte.byte := [Byte.x63].
Definition str_d : list Byte.byte := [Byte.x64].
Definition str_e : list Byte.byte := [Byte.x65].
Definition str_f : list Byte.byte := [Byte.x66].
Definition str_g : list Byte.byte := [Byte.x67].
Definition str_h : list Byte.byte := [Byte.x68].
Definition str_i : list Byte.byte := [Byte.x69].

(** ** Error codes and time values *)

(** Modelled from the spec: [enum libusb_error] is declared in the public
    header [libusb.h], which is not among the sources; the specification
    speaks of a fixed set of error codes.  The constants are pairwise
    distinct. *)
Inductive libusb_error : Type :=
| LIBUSB_SUCCESS
| LIBUSB_ERROR_IO
| LIBUSB_ERROR_INVALID_PARAM
| LIBUSB_ERROR_ACCESS
| LIBUSB_ERROR_NO_DEVICE
| LIBUSB_ERROR_NOT_FOUND
| LIBUSB_ERROR_BUSY
| LIBUSB_ERROR_TIMEOUT
| LIBUSB_ERROR_OVERFLOW
| LIBUSB_ERROR_PIPE
| LIBUSB_ERROR_INTERRUPTED
| LIBUSB_ERROR_NO_MEM
| LIBUSB_ERROR_NOT_SUPPORTED
| LIBUSB_ERROR_OTHER.

Definition is_success (r : libusb_error) : bool :=
  match r with LIBUSB_SUCCESS => true | _ => false end.

(** [struct timespec]; both fields are [long]. *)
Record timespec : Type := mk_timespec {
  tv_sec : Z;
  tv_nsec : Z
}.

(** ** Kernel objects and the calls made to the operating system *)

(** The objects the backend owns through a handle. *)
Inductive HANDLE : Type :=
| InitSemaphore        (* the named semaphore "libusb_init<pid>" *)
| DriverHandle         (* driver_handle *)
| RequestEvent (i : nat) (* timer_request[i] *)
| ResponseSemaphore    (* timer_response *)
| TimerMutex           (* timer_mutex *)
| TimerThread.         (* timer_thread *)

Definition HANDLE_eqb (a b : HANDLE) : bool :=
  match a, b with
  | InitSemaphore, InitSemaphore => true
  | DriverHandle, DriverHandle => true
  | RequestEvent i, RequestEvent j => Nat.eqb i j
  | ResponseSemaphore, ResponseSemaphore => true
  | TimerMutex, TimerMutex => true
  | TimerThread, TimerThread => true
  | _, _ => false
  end.

(** The calls with an effect outside the globals, in the order they are
    made. *)
Inductive os_call : Type :=
| OsCreate (h : HANDLE)          (* CreateSemaphore, UkwOpenDriver, CreateEvent, CreateMutex, CreateThread *)
| OsClose (h : HANDLE)           (* CloseHandle, UkwCloseDriver *)
| OsSetEvent (h : HANDLE)
| OsWait (h : HANDLE)            (* WaitForSingleObject *)
| OsReleaseMutex (h : HANDLE)
| OsReleaseSemaphore (h : HANDLE)
| OsTerminateThread (h : HANDLE)
| OsInitPolling
| OsGetSystemTime
| OsTableAllocated               (* calloc of the hash table *)
| OsTableFreed                   (* free of the hash table *)
| OsMutexInit                    (* usbi_mutex_init(&htab_write_mutex, NULL) *)
| OsMutexDestroy.                (* usbi_mutex_destroy(&htab_write_mutex) *)

(** The globals of the file. A null handle, and [INVALID_HANDLE_VALUE] for
    [driver_handle], is [None].  [os_trace] is not a variable of the program:
    it records the calls made so far. *)
Record globals : Type := mk_globals {
  hires_frequency : Z;
  hires_ticks_to_ps : Z;
  concurrent_usage : Z;
  timer_thread : option HANDLE;
  timer_mutex : option HANDLE;
  timer_tp : timespec;
  request_count : Z * Z;
  timer_request : option HANDLE * option HANDLE;
  timer_response : option HANDLE;
  driver_handle : option HANDLE;
  htab : htab_state;
  os_trace : list os_call
}.

Definition set_concurrent_usage (v : Z) (g : globals) : globals :=
  mk_globals (hires_frequency g) (hires_ticks_to_ps g) v (timer_thread g)
    (timer_mutex g) (timer_tp g) (request_count g) (timer_request g)
    (timer_response g) (driver_handle g) (htab g) (os_trace g).

Definition set_timer_thread (v : option HANDLE) (g : globals) : globals :=
  mk_globals (hires_frequency g) (hires_ticks_to_ps g) (concurrent_usage g) v
    (timer_mutex g) (timer_tp g) (request_count g) (timer_request g)
    (timer_response g) (driver_handle g) (htab g) (os_trace g).

Definition set_timer_mutex (v : option HANDLE) (g : globals) : globals :=
  mk_globals (hires_frequency g) (hires_ticks_to_ps g) (concurrent_usage g)
    (timer_thread g) v (timer_tp g) (request_count g) (timer_request g)
    (timer_response g) (driver_handle g) (htab g) (os_trace g).

Definition set_request_count (v : Z * Z) (g : globals) : globals :=
  mk_globals (hires_frequency g) (hires_ticks_to_ps g) (concurrent_usage g)
    (timer_thread g) (timer_mutex g) (timer_tp g) v (timer_request g)
    (timer_response g) (driver_handle g) (htab g) (os_trace g).

Definition set_timer_request (v : option HANDLE * option HANDLE) (g : globals) : globals :=
  mk_globals (hires_frequency g) (hires_ticks_to_ps g) (concurrent_usage g)
    (timer_thread g) (timer_mutex g) (timer_tp g) (request_count g) v
    (timer_response g) (driver_handle g) (htab g) (os_trace g).

Definition set_timer_response (v : option HANDLE) (g : globals) : globals :=
  mk_globals (hires_frequency g) (hires_ticks_to_ps g) (concurrent_usage g)
    (timer_thread g) (timer_mutex g) (timer_tp g) (request_count g)
    (timer_request g) v (driver_handle g) (htab g) (os_trace g).

Definition set_driver_handle (v : option HANDLE) (g : globals) : globals :=
  mk_globals (hires_frequency g) (hires_ticks_to_ps g) (concurrent_usage g)
    (timer_thread g) (timer_mutex g) (timer_tp g) (request_count g)
    (timer_request g) (timer_response g) v (htab g) (os_trace g).

Definition set_htab (v : htab_state) (g : globals) : globals :=
  mk_globals (hires_frequency g) (hires_ticks_to_ps g) (concurrent_usage g)
    (timer_thread g) (timer_mutex g) (timer_tp g) (request_count g)
    (timer_request g) (timer_response g) (driver_handle g) v (os_trace g).

(** Record one more call to the operating system. *)
Definition os (c : os_call) (g : globals) : globals :=
  mk_globals (hires_frequency g) (hires_ticks_to_ps g) (concurrent_usage g)
    (timer_thread g) (timer_mutex g) (timer_tp g) (request_count g)
    (timer_request g) (timer_response g) (driver_handle g) (htab g)
    (os_trace g ++ [c]).

Definition set_timer_tp (v : timespec) (g : globals) : globals :=
  mk_globals (hires_frequency g) (hires_ticks_to_ps g) (concurrent_usage g)
    (timer_thread g) (timer_mutex g) v (request_count g) (timer_request g)
    (timer_response g) (driver_handle g) (htab g) (os_trace g).

(** ** Initialisation: [wince_init] *)

(** What the operating system, the driver wrapper and the allocator answer
    during one call of [wince_init]. *)
Record init_env : Type := mk_init_env {
  init_semaphore_created : bool;    (* CreateSemaphore(NULL, 1, 1, sem_name) != NULL *)
  init_semaphore_acquired : bool;   (* WaitForSingleObject(semaphore, INFINITE) == WAIT_OBJECT_0 *)
  dllimports_resolved : bool;       (* init_dllimports() == LIBUSB_SUCCESS *)
  driver_opened : bool;             (* UkwOpenDriver() != INVALID_HANDLE_VALUE *)
  request_event_created : nat -> bool; (* CreateEvent for timer_request[i] *)
  response_semaphore_created : bool;
  timer_mutex_created : bool;
  timer_thread_created : bool;
  table_allocated : bool;           (* calloc in htab_create *)
  timer_thread_joined : bool        (* the wait for the timer thread at clean-up *)
}.

(** The call [htab_create(ctx, nel)] on the globals of the file:
    [usbi_mutex_init(&htab_write_mutex, NULL)] is the first statement, made
    whether or not the array can be allocated afterwards; then the table is
    set up as [htab_create] describes. *)
Definition htab_create_call (fuel : nat) (calloc_ok : bool) (nel : Z) (g : globals)
  : outcome (Z * globals) :=
  let g := os OsMutexInit g in
  do '(r, h) <- htab_create fuel calloc_ok nel;
  let g := set_htab h g in
  let g := if calloc_ok then os OsTableAllocated g else g in
  Done (r, g).

(** [htab_destroy]: nothing for a null table, not even for the mutex;
    otherwise the strings of the slots [0 .. htab_size - 1] are freed, the
    mutex is destroyed and the array is freed, and [safe_free] nulls
    [htab_table]. *)
Definition htab_destroy (g : globals) : globals :=
  match htab_table (htab g) with
  | None => g
  | Some _ =>
      let g := os OsMutexDestroy g in
      os OsTableFreed
         (set_htab (mk_htab None (htab_size (htab g)) (htab_filled (htab g))) g)
  end.

(** [if (timer_thread) { SetEvent(timer_request[1]); wait; CloseHandle; timer_thread = NULL; }] *)
Definition stop_timer_thread (env : init_env) (g : globals) : globals :=
  match timer_thread g with
  | None => g
  | Some h =>
      let g := os (OsSetEvent (RequestEvent 1)) g in
      let g := os (OsWait h) g in
      let g := if timer_thread_joined env then g else os (OsTerminateThread h) g in
      set_timer_thread None (os (OsClose h) g)
  end.

(** The body of [if (!concurrent_usage && r != LIBUSB_SUCCESS)] at the
    label [init_exit]. *)
Definition release_all (env : init_env) (g : globals) : globals :=
  let g := match driver_handle g with
           | None => g
           | Some h => set_driver_handle None (os (OsClose h) g)
           end in
  let g := stop_timer_thread env g in
  let g := match fst (timer_request g) with
           | None => g
           | Some h => set_timer_request (None, snd (timer_request g)) (os (OsClose h) g)
           end in
  let g := match snd (timer_request g) with
           | None => g
           | Some h => set_timer_request (fst (timer_request g), None) (os (OsClose h) g)
           end in
  let g := match timer_response g with
           | None => g
           | Some h => set_timer_response None (os (OsClose h) g)
           end in
  let g := match timer_mutex g with
           | None => g
           | Some h => set_timer_mutex None (os (OsClose h) g)
           end in
  htab_destroy g.

Section Lifecycle.
(** [HTAB_SIZE] is a constant of [wince_usb.h], which is not among the
    sources. *)
Variable HTAB_SIZE : Z.

(** The body of [if (++concurrent_usage == 0)]: returns the value of [r]
    with which [init_exit] is reached. *)
Definition acquire_all (fuel : nat) (env : init_env) (g : globals)
  : outcome (libusb_error * globals) :=
  let g := os OsInitPolling g in
  if negb (dllimports_resolved env) then Done (LIBUSB_ERROR_NOT_SUPPORTED, g)
  else if negb (driver_opened env)
  then Done (LIBUSB_ERROR_NOT_SUPPORTED, set_driver_handle None g)
  else
    let g := set_driver_handle (Some DriverHandle) (os (OsCreate DriverHandle) g) in
    (* for (i = 0; i < 2; i++), i = 0 *)
    if negb (request_event_created env 0)
    then Done (LIBUSB_ERROR_NO_MEM, set_timer_request (None, snd (timer_request g)) g)
    else
      let g := set_timer_request (Some (RequestEvent 0), snd (timer_request g))
                 (os (OsCreate (RequestEvent 0)) g) in
      (* i = 1 *)
      if negb (request_event_created env 1)
      then Done (LIBUSB_ERROR_NO_MEM, set_timer_request (fst (timer_request g), None) g)
      else
        let g := set_timer_request (fst (timer_request g), Some (RequestEvent 1))
                   (os (OsCreate (RequestEvent 1)) g) in
        if negb (response_semaphore_created env)
        then Done (LIBUSB_ERROR_NO_MEM, set_timer_response None g)
        else
          let g := set_timer_response (Some ResponseSemaphore)
                     (os (OsCreate ResponseSemaphore) g) in
          if negb (timer_mutex_created env)
          then Done (LIBUSB_ERROR_NO_MEM, set_timer_mutex None g)
          else
            let g := set_timer_mutex (Some TimerMutex) (os (OsCreate TimerMutex) g) in
            if negb (timer_thread_created env)
            then Done (LIBUSB_ERROR_NO_MEM, set_timer_thread None g)
            else
              let g := set_timer_thread (Some TimerThread)
                         (os (OsCreate TimerThread) g) in
              (* htab_create(ctx, HTAB_SIZE); the result is not looked at *)
              do '(_, g) <- htab_create_call fuel (table_allocated env) HTAB_SIZE g;
              Done (LIBUSB_SUCCESS, g).

(** [wince_init]. *)
Definition wince_init (fuel : nat) (env : init_env) (g : globals)
  : outcome (libusb_error * globals) :=
  if negb (init_semaphore_created env) then Done (LIBUSB_ERROR_NO_MEM, g)
  else
    let g := os (OsCreate InitSemaphore) g in
    let g := os (OsWait InitSemaphore) g in
    if negb (init_semaphore_acquired env)
    then Done (LIBUSB_ERROR_NO_MEM, os (OsClose InitSemaphore) g)
    else
      let g := set_concurrent_usage (concurrent_usage g + 1) g in
      do '(r, g) <- (if concurrent_usage g =? 0 then acquire_all fuel env g
                     else Done (LIBUSB_SUCCESS, g));
      (* init_exit: *)
      let g := if (concurrent_usage g =? 0) && negb (is_success r)
               then release_all env g else g in
      let g := if negb (is_success r)
               then set_concurrent_usage (concurrent_usage g - 1) g else g in
      let g := os (OsReleaseSemaphore InitSemaphore) g in
      let g := os (OsClose InitSemaphore) g in
      Done (r, g).
End Lifecycle.

(** The objects acquired, and released, by the calls of a trace, in call
    order; the named semaphore that guards the call is not one of them. *)
Fixpoint acquired (tr : list os_call) : list HANDLE :=
  match tr with
  | [] => []
  | OsCreate h :: rest =>
      if HANDLE_eqb h InitSemaphore then acquired rest else h :: acquired rest
  | _ :: rest => acquired rest
  end.

Fixpoint released (tr : list os_call) : list HANDLE :=
  match tr with
  | [] => []
  | OsClose h :: rest =>
      if HANDLE_eqb h InitSemaphore then released rest else h :: released rest
  | _ :: rest => released rest
  end.

(** The globals before any initialisation: the initialisers of the file. *)
Definition initial_globals : globals :=
  mk_globals 0 0 (-1) None None (mk_timespec 0 0) (0, 1) (None, None) None None
    (mk_htab None 0 0) [].

(** No handle is held and the table is null. *)
Definition nothing_held (g : globals) : Prop :=
  timer_thread g = None /\ timer_mutex g = None /\
  timer_request g = (None, None) /\ timer_response g = None /\
  driver_handle g = None /\ htab_table (htab g) = None.

(** Environments in which the creation of the timer mutex, respectively the
    allocation of the table, is the one step that fails. *)
Definition env_all_ok : init_env :=
  mk_init_env true true true true (fun _ => true) true true true true true.

Definition env_mutex_fails : init_env :=
  mk_init_env true true true true (fun _ => true) true false true true true.

Definition env_table_fails : init_env :=
  mk_init_env true true true true (fun _ => true) true true true false true.

(** One of the acquisitions before the table fails. *)
Definition acquisition_fails (env : init_env) : bool :=
  negb (dllimports_resolved env && driver_opened env &&
        request_event_created env 0 && request_event_created env 1 &&
        response_semaphore_created env && timer_mutex_created env &&
        timer_thread_created env).

(** ** The clock: [wince_clock_gettime] *)

(** Results of [WaitForSingleObject] (Windows API). *)
Definition WAIT_OBJECT_0 : Z := 0.
Definition WAIT_TIMEOUT : Z := 258.

(** [epoch_time]: 1970.01.01 00:00:000 in MS Filetime. *)
Definition epoch_time : Z := 116444736000000000.

(** What the rest of the system answers during one call of
    [wince_clock_gettime]. *)
Record clock_env : Type := mk_clock_env {
  (* result of the k-th WaitForSingleObject(timer_response, TIMER_REQUEST_RETRY_MS) *)
  response_wait : nat -> Z;
  (* timer_tp as the timer thread has left it when the k-th wait returns *)
  worker_sample : nat -> timespec;
  (* dwLowDateTime and dwHighDateTime of the system time *)
  system_filetime : Z * Z
}.

(** The real-time reading: the file time relative to [epoch_time], in units
    of 100 ns, split into seconds and nanoseconds. *)
Definition realtime_timespec (ft : Z * Z) : timespec :=
  let rtime := uint64 (ulong (fst ft) + ulong (snd ft) * 2 ^ 32) in
  let rtime := uint64 (rtime - epoch_time) in
  mk_timespec (to_long (rtime / 10000000))
              (to_long (uint64 ((rtime mod 10000000) * 100))).

(** The code under [case USBI_CLOCK_REALTIME]. *)
Definition realtime_query (env : clock_env) (tp : timespec) (g : globals)
  : outcome (libusb_error * timespec * globals) :=
  Done (LIBUSB_SUCCESS, realtime_timespec (system_filetime env), os OsGetSystemTime g).

(** The [while (1)] loop of the monotonic case; [k] counts the waits made
    so far. *)
Fixpoint monotonic_query (fuel : nat) (env : clock_env) (k : nat)
    (tp : timespec) (g : globals) : outcome (libusb_error * timespec * globals) :=
  match fuel with
  | O => OutOfFuel
  | S fuel' =>
      (* InterlockedIncrement on request_count[0], a 32-bit LONG *)
      let g := set_request_count
                 (to_long (fst (request_count g) + 1), snd (request_count g)) g in
      let g := os (OsSetEvent (RequestEvent 0)) g in
      let g := os (OsWait ResponseSemaphore) g in
      let r := response_wait env k in
      if r =? WAIT_OBJECT_0 then
        let g := os (OsWait TimerMutex) g in
        let g := set_timer_tp (worker_sample env k) g in
        let tp := timer_tp g in
        let g := os (OsReleaseMutex TimerMutex) g in
        Done (LIBUSB_SUCCESS, tp, g)
      else if r =? WAIT_TIMEOUT then monotonic_query fuel' env (S k) tp g
      else Done (LIBUSB_ERROR_OTHER, tp, g)
  end.

Section Clock.
(** The clock identifiers are constants of [libusbi.h], which is not among
    the sources. *)
Variables USBI_CLOCK_MONOTONIC USBI_CLOCK_REALTIME : Z.

(** [wince_clock_gettime]: [tp] is the value [*tp] holds at the call; the
    result carries the value it holds at the return. *)
Definition wince_clock_gettime (fuel : nat) (env : clock_env) (clk_id : Z)
    (tp : timespec) (g : globals) : outcome (libusb_error * timespec * globals) :=
  if clk_id =? USBI_CLOCK_MONOTONIC then
    if negb (hires_frequency g =? 0) then monotonic_query fuel env 0 tp g
    else (* fall through *) realtime_query env tp g
  else if clk_id =? USBI_CLOCK_REALTIME then realtime_query env tp g
  else Done (LIBUSB_ERROR_INVALID_PARAM, tp, g).
End Clock.

(** The first [n] waits time out. *)
Definition times_out_before (env : clock_env) (n : nat) : Prop :=
  forall j, (j < n)%nat -> response_wait env j = WAIT_TIMEOUT.

(** The wait primitive itself fails: neither success nor timeout. *)
Definition wait_failed (r : Z) : Prop := r <> WAIT_OBJECT_0 /\ r <> WAIT_TIMEOUT.

(** Example environments: two timeouts and then a released permit, with the
    sample 12 s, 500 ns; and only timeouts. *)
Definition env_two_timeouts : clock_env :=
  mk_clock_env (fun k => if (k <? 2)%nat then WAIT_TIMEOUT else WAIT_OBJECT_0)
               (fun _ => mk_timespec 12 500) (0, 0).

(** Globals in which the timer thread has found a 1 MHz counter. *)
Definition globals_with_counter : globals :=
  mk_globals 1000000 1000000 0 (Some TimerThread) (Some TimerMutex)
    (mk_timespec 0 0) (0, 1) (Some (RequestEvent 0), Some (RequestEvent 1))
    (Some ResponseSemaphore) (Some DriverHandle) (htab_empty 5) [].

(** ** The operations the backend does not support *)

(** Pointers and integers passed to these operations are plain numbers;
    none of them is looked at. *)
Definition wince_reset_device (handle : Z) (g : globals) : libusb_error * globals :=
  (LIBUSB_ERROR_NOT_SUPPORTED, g).

Definition wince_kernel_driver_active (handle interface_number : Z) (g : globals)
  : libusb_error * globals :=
  (LIBUSB_ERROR_NOT_SUPPORTED, g).

Definition wince_detach_kernel_driver (handle interface_number : Z) (g : globals)
  : libusb_error * globals :=
  (LIBUSB_ERROR_NOT_SUPPORTED, g).

Definition wince_attach_kernel_driver (handle interface_number : Z) (g : globals)
  : libusb_error * globals :=
  (LIBUSB_ERROR_NOT_SUPPORTED, g).

Definition wince_submit_transfer (itransfer : Z) (g : globals) : libusb_error * globals :=
  (LIBUSB_ERROR_NOT_SUPPORTED, g).

Definition wince_cancel_transfer (itransfer : Z) (g : globals) : libusb_error * globals :=
  (LIBUSB_ERROR_NOT_SUPPORTED, g).

Definition wince_clear_transfer_priv (itransfer : Z) (g : globals) : libusb_error * globals :=
  (LIBUSB_ERROR_NOT_SUPPORTED, g).

Definition wince_handle_events (ctx fds nfds num_ready : Z) (g : globals)
  : libusb_error * globals :=
  (LIBUSB_ERROR_NOT_SUPPORTED, g).

(** ** Tear-down: [wince_exit] *)

(** The body of [if (--concurrent_usage < 0)] in [wince_exit], after the
    call of [exit_polling]: the timer thread, the two events, the semaphore,
    the mutex, the table and, last, the driver handle. *)
Definition teardown (env : init_env) (g : globals) : globals :=
  let g := stop_timer_thread env g in
  let g := match fst (timer_request g) with
           | None => g
           | Some h => set_timer_request (None, snd (timer_request g)) (os (OsClose h) g)
           end in
  let g := match snd (timer_request g) with
           | None => g
           | Some h => set_timer_request (fst (timer_request g), None) (os (OsClose h) g)
           end in
  let g := match timer_response g with
           | None => g
           | Some h => set_timer_response None (os (OsClose h) g)
           end in
  let g := match timer_mutex g with
           | None => g
           | Some h => set_timer_mutex None (os (OsClose h) g)
           end in
  let g := htab_destroy g in
  match driver_handle g with
  | None => g
  | Some h => set_driver_handle None (os (OsClose h) g)
  end.

(** [wince_exit].  The answers about the named semaphore and about the wait
    for the timer thread are taken from the same kind of environment as for
    [wince_init].  The boolean tells whether the last-exit block was entered
    (and [exit_polling] called). *)
Definition wince_exit (env : init_env) (g : globals) : bool * globals :=
  if negb (init_semaphore_created env) then (false, g)
  else
    let g := os (OsCreate InitSemaphore) g in
    let g := os (OsWait InitSemaphore) g in
    if negb (init_semaphore_acquired env)
    then (false, os (OsClose InitSemaphore) g)
    else
      let g := set_concurrent_usage (concurrent_usage g - 1) g in
      let last := concurrent_usage g <? 0 in
      let g := if last then teardown env g else g in
      let g := os (OsReleaseSemaphore InitSemaphore) g in
      let g := os (OsClose InitSemaphore) g in
      (last, g).

(** Sequences of calls of [wince_init] and [wince_exit]. *)
Inductive lifecycle_call : Type :=
| CallInit
| CallExit.

Section LifecycleRuns.
Variable HTAB_SIZE : Z.

(** Runs the calls in order, all in the same environment; gives the return
    codes of the calls of [wince_init] and the final globals. *)
Fixpoint run_lifecycle (fuel : nat) (env : init_env) (calls : list lifecycle_call)
    (g : globals) : outcome (list libusb_error * globals) :=
  match calls with
  | [] => Done ([], g)
  | CallInit :: rest =>
      do '(r, g1) <- wince_init HTAB_SIZE fuel env g;
      do '(rs, g2) <- run_lifecycle fuel env rest g1;
      Done (r :: rs, g2)
  | CallExit :: rest =>
      run_lifecycle fuel env rest (snd (wince_exit env g))
  end.
End LifecycleRuns.

(** The number of initialisations not yet undone after the calls, starting
    from [depth] of them; [None] when some call of [wince_exit] has no
    initialisation to undo. *)
Fixpoint final_depth (depth : nat) (calls : list lifecycle_call) : option nat :=
  match calls with
  | [] => Some depth
  | CallInit :: rest => final_depth (S depth) rest
  | CallExit :: rest =>
      match depth with
      | O => None
      | S d => final_depth d rest
      end
  end.

Definition os_call_eqb (a b : os_call) : bool :=
  match a, b with
  | OsCreate h, OsCreate h' => HANDLE_eqb h h'
  | OsClose h, OsClose h' => HANDLE_eqb h h'
  | OsSetEvent h, OsSetEvent h' => HANDLE_eqb h h'
  | OsWait h, OsWait h' => HANDLE_eqb h h'
  | OsReleaseMutex h, OsReleaseMutex h' => HANDLE_eqb h h'
  | OsReleaseSemaphore h, OsReleaseSemaphore h' => HANDLE_eqb h h'
  | OsTerminateThread h, OsTerminateThread h' => HANDLE_eqb h h'
  | OsInitPolling, OsInitPolling => true
  | OsGetSystemTime, OsGetSystemTime => true
  | OsTableAllocated, OsTableAllocated => true
  | OsTableFreed, OsTableFreed => true
  | OsMutexInit, OsMutexInit => true
  | OsMutexDestroy, OsMutexDestroy => true
  | _, _ => false
  end.

(** How often the call [c] occurs in a trace. *)
Fixpoint count_call (c : os_call) (tr : list os_call) : nat :=
  match tr with
  | [] => 0
  | c' :: rest => (if os_call_eqb c c' then 1 else 0) + count_call c rest
  end.

(** Every object of a successful first initialisation is held. *)
Definition all_held (g : globals) : Prop :=
  timer_thread g = Some TimerThread /\ timer_mutex g = Some TimerMutex /\
  timer_request g = (Some (RequestEvent 0), Some (RequestEvent 1)) /\
  timer_response g = Some ResponseSemaphore /\
  driver_handle g = Some DriverHandle.

(** Every acquisition of [wince_init] succeeds. *)
Definition all_acquired (env : init_env) : bool :=
  init_semaphore_created env && init_semaphore_acquired env &&
  dllimports_resolved env && driver_opened env &&
  request_event_created env 0 && request_event_created env 1 &&
  response_semaphore_created env && timer_mutex_created env &&
  timer_thread_created env.

(** The objects that stay held between a successful first initialisation
    and the last tear-down: one of each, but for the guarding semaphore. *)
Definition held_after_init (h : HANDLE) : nat :=
  match h with
  | InitSemaphore => 0
  | RequestEvent (S (S _)) => 0
  | _ => 1
  end.

(** The write mutex of the table in a trace: it is initialised once per
    first initialisation (each of which calls [usbi_init_polling] once); it
    is destroyed with the table, so that [held] initialisations are still to
    be undone when the table can be allocated, and it is never destroyed
    when the table cannot be allocated. *)
Definition mutex_inv (table_ok : bool) (held : nat) (tr : list os_call) : Prop :=
  count_call OsMutexInit tr = count_call OsInitPolling tr /\
  if table_ok
  then count_call OsMutexInit tr = (count_call OsMutexDestroy tr + held)%nat
  else count_call OsMutexDestroy tr = 0%nat.

(** The state of the life cycle after calls that leave [depth]
    initialisations to undo, [tr] being the calls made to the system so far:
    at depth 0 the counter is at -1, nothing is held and everything created
    has been closed; above, the counter is [depth - 1], everything is held
    and exactly the objects of the first initialisation are still open. *)
Definition lifecycle_inv (table_ok : bool) (depth : nat) (g : globals)
    (tr : list os_call) : Prop :=
  match depth with
  | O =>
      concurrent_usage g = -1 /\ nothing_held g /\
      (forall h, count_call (OsCreate h) tr = count_call (OsClose h) tr) /\
      count_call OsTableAllocated tr = count_call OsTableFreed tr /\
      mutex_inv table_ok 0 tr
  | S d =>
      concurrent_usage g = Z.of_nat d /\ all_held g /\
      (if table_ok then exists tbl, htab_table (htab g) = Some tbl
       else htab_table (htab g) = None) /\
      (forall h, count_call (OsCreate h) tr
                 = (count_call (OsClose h) tr + held_after_init h)%nat) /\
      count_call OsTableAllocated tr
      = (count_call OsTableFreed tr + (if table_ok then 1 else 0))%nat /\
      mutex_inv table_ok 1 tr
  end.

(** ** [htab_destroy], slot by slot *)

(** The loop [for (i=0; i<htab_size; i++)] of [htab_destroy], with [count]
    passes left: the result lists the slots whose string is handed to
    [safe_free], which are those with a non-zero [used]. *)
Fixpoint htab_destroy_loop (tbl : list htab_entry) (i count : nat)
    : outcome (list nat) :=
  match count with
  | O => Done []
  | S count' =>
      match tbl !! i with
      | None => Fault
      | Some e =>
          do rest <- htab_destroy_loop tbl (S i) count';
          Done (if used e =? 0 then rest else i :: rest)
      end
  end.

(** The slots whose string [htab_destroy] frees; none for a null table. *)
Definition htab_destroy_frees (st : htab_state) : outcome (list nat) :=
  match htab_table st with
  | None => Done []
  | Some tbl => htab_destroy_loop tbl 0 (Z.to_nat (htab_size st))
  end.

(** ** The clock, continued *)

(** The calls of [n] rounds of the request loop of a monotonic query. *)
Fixpoint request_rounds (n : nat) : list os_call :=
  match n with
  | O => []
  | S n' => OsSetEvent (RequestEvent 0) :: OsWait ResponseSemaphore :: request_rounds n'
  end.

(** An example: a system time in 2009, and no answer from the timer thread. *)
Definition env_system_time : clock_env :=
  mk_clock_env (fun _ => WAIT_TIMEOUT) (fun _ => mk_timespec 0 0)
    (123456700, 30000000).

(** ** The timer thread: [wince_clock_gettime_threaded] *)

Definition set_hires (frequency ticks_to_ps : Z) (g : globals) : globals :=
  mk_globals frequency ticks_to_ps (concurrent_usage g) (timer_thread g)
    (timer_mutex g) (timer_tp g) (request_count g) (timer_request g)
    (timer_response g) (driver_handle g) (htab g) (os_trace g).

(** The start of the thread: [frequency] is what
    [QueryPerformanceFrequency] stores ([None] when it returns 0).
    [li_frequency.QuadPart] is converted to [uint64_t]; a frequency of 0
    makes the division undefined. *)
Definition timer_thread_start (frequency : option Z) (g : globals) : outcome globals :=
  match frequency with
  | None => Done (set_hires 0 0 g)
  | Some f =>
      let f := uint64 f in
      if f =? 0 then Fault
      else Done (set_hires f (uint64 (1000000000000 / f)) g)
  end.

(** The time stamp computed from the counter:
    [tv_sec = (long)(counter / hires_frequency)] and
    [tv_nsec = (long)(((counter % hires_frequency)/1000) * hires_ticks_to_ps)],
    in [uint64_t] arithmetic. *)
Definition hires_timespec (frequency ticks_to_ps counter : Z) : timespec :=
  let c := uint64 counter in
  mk_timespec (to_long (c / frequency))
              (to_long (uint64 ((c mod frequency) / 1000 * ticks_to_ps))).

(** The history of the thread: what it does that is seen outside the
    globals, and the requests the other threads count meanwhile. *)
Inductive timer_event : Type :=
| RequestsCounted (n : Z)
| TimerResetEvent (timer_index : Z)
| TimerReadCounter
| TimerReleasePermits (nb_responses : Z)   (* ReleaseSemaphore succeeded *)
| TimerReleaseFailed (nb_responses : Z).   (* ReleaseSemaphore returned 0 *)

(** What the rest of the system does around the [k]-th pass of the main loop
    of the thread. *)
Record timer_env : Type := mk_timer_env {
  (* WaitForMultipleObjects(2, timer_request, FALSE, INFINITE) - WAIT_OBJECT_0 *)
  timer_wait : nat -> Z;
  (* requests counted by other threads before the pass tests request_count, *)
  requests_before : nat -> Z;
  (* between that test and the test that follows ResetEvent, *)
  requests_during_reset : nat -> Z;
  (* and between the last test and the InterlockedExchange *)
  requests_during_read : nat -> Z;
  (* QueryPerformanceCounter: None when it returns 0 *)
  performance_counter : nat -> option Z;
  (* the system time, for the fall-back *)
  timer_filetime : nat -> Z * Z;
  (* ReleaseSemaphore(timer_response, nb_responses, NULL) != 0 *)
  semaphore_released : nat -> bool
}.

(** The state of the thread: the globals and the history so far. *)
Definition timer_state : Type := globals * list timer_event.

(** [InterlockedIncrement] on [request_count[0]], [n] times, by the threads
    that ask for the time. *)
Definition add_requests (n : Z) (s : timer_state) : timer_state :=
  (set_request_count
     (to_long (fst (request_count (fst s)) + n), snd (request_count (fst s))) (fst s),
   snd s ++ [RequestsCounted n]).

Definition timer_does (e : timer_event) (s : timer_state) : timer_state :=
  (fst s, snd s ++ [e]).

Definition request_count_at (timer_index : Z) (g : globals) : Z :=
  if timer_index =? 0 then fst (request_count g) else snd (request_count g).

(** How one pass of the loop ends. *)
Inductive timer_pass : Type :=
| PassContinue (s : timer_state)
| PassReturn (code : Z) (s : timer_state).

(** [case 0] of the switch. *)
Definition timer_serve (env : timer_env) (k : nat) (s : timer_state)
    : outcome timer_pass :=
  let g := os (OsWait TimerMutex) (fst s) in
  let s := timer_does TimerReadCounter (g, snd s) in
  do g <- match performance_counter env k with
          | Some counter =>
              if hires_frequency g =? 0 then Fault
              else Done (set_timer_tp
                           (hires_timespec (hires_frequency g) (hires_ticks_to_ps g) counter) g)
          | None =>
              (* the real-time case of wince_clock_gettime, on timer_tp *)
              Done (set_timer_tp (realtime_timespec (timer_filetime env k))
                      (os OsGetSystemTime g))
          end;
  let g := os (OsReleaseMutex TimerMutex) g in
  let s := add_requests (requests_during_read env k) (g, snd s) in
  (* nb_responses = InterlockedExchange(&request_count[0], 0) *)
  let nb_responses := fst (request_count (fst s)) in
  let s := (set_request_count (0, snd (request_count (fst s))) (fst s), snd s) in
  (* a failure of ReleaseSemaphore is only logged: the count is gone *)
  let s := if nb_responses =? 0 then s
           else if semaphore_released env k
                then timer_does (TimerReleasePermits nb_responses) s
                else timer_does (TimerReleaseFailed nb_responses) s in
  Done (PassContinue s).

(** One pass of [while (1)]. *)
Definition timer_pass_once (env : timer_env) (k : nat) (s : timer_state)
    : outcome timer_pass :=
  let s := add_requests (requests_before env k) s in
  let timer_index := timer_wait env k in
  if negb (timer_index =? 0) && negb (timer_index =? 1)
  then Done (PassContinue s)
  else
    let after_test :=
      if request_count_at timer_index (fst s) =? 0 then
        let s := timer_does (TimerResetEvent timer_index) s in
        let s := if timer_index =? 0
                 then add_requests (requests_during_reset env k) s else s in
        if request_count_at timer_index (fst s) =? 0 then inl s else inr s
      else inr s in
    match after_test with
    | inl s => Done (PassContinue s)
    | inr s =>
        if timer_index =? 0 then timer_serve env k s
        else Done (PassReturn 0 s)
    end.

(** The main loop of the thread, from its [k]-th pass on. *)
Fixpoint timer_loop (fuel : nat) (env : timer_env) (k : nat) (s : timer_state)
    : outcome (Z * timer_state) :=
  match fuel with
  | O => OutOfFuel
  | S fuel' =>
      do pass <- timer_pass_once env k s;
      match pass with
      | PassContinue s => timer_loop fuel' env (S k) s
      | PassReturn code s => Done (code, s)
      end
  end.

(** The thread: the result is its exit code, the globals and its history. *)
Definition wince_clock_gettime_threaded (fuel : nat) (frequency : option Z)
    (env : timer_env) (g : globals) : outcome (Z * timer_state) :=
  do g <- timer_thread_start frequency g;
  timer_loop fuel env 0 (g, []).

(** The requests counted, the permits handed out, the permits asked for in
    calls of [ReleaseSemaphore] that failed, the reads of the counter and
    the calls of [ReleaseSemaphore] in a history. *)
Fixpoint requests_counted (h : list timer_event) : Z :=
  match h with
  | [] => 0
  | RequestsCounted n :: rest => n + requests_counted rest
  | _ :: rest => requests_counted rest
  end.

Fixpoint permits_released (h : list timer_event) : Z :=
  match h with
  | [] => 0
  | TimerReleasePermits n :: rest => n + permits_released rest
  | _ :: rest => permits_released rest
  end.

Fixpoint permits_lost (h : list timer_event) : Z :=
  match h with
  | [] => 0
  | TimerReleaseFailed n :: rest => n + permits_lost rest
  | _ :: rest => permits_lost rest
  end.

Fixpoint counter_reads (h : list timer_event) : Z :=
  match h with
  | [] => 0
  | TimerReadCounter :: rest => 1 + counter_reads rest
  | _ :: rest => counter_reads rest
  end.

Fixpoint release_calls (h : list timer_event) : Z :=
  match h with
  | [] => 0
  | TimerReleasePermits _ :: rest => 1 + release_calls rest
  | TimerReleaseFailed _ :: rest => 1 + release_calls rest
  | _ :: rest => release_calls rest
  end.

(** The requests the other threads count during the passes
    [k .. k + n - 1], at most. *)
Fixpoint requests_offered (env : timer_env) (k n : nat) : Z :=
  match n with
  | O => 0
  | S n' =>
      requests_before env k + requests_during_reset env k
      + requests_during_read env k + requests_offered env (S k) n'
  end.

(** No call of [ReleaseSemaphore] fails. *)
Definition releases_succeed (env : timer_env) : Prop :=
  forall k, semaphore_released env k = true.

(** The other threads only add requests. *)
Definition requests_nonneg (env : timer_env) : Prop :=
  forall k, 0 <= requests_before env k /\ 0 <= requests_during_reset env k
            /\ 0 <= requests_during_read env k.

(** An example: two requests before the first pass, one more while the
    counter is read, a spurious wake-up, and then the request to quit. *)
Definition env_timer_example : timer_env :=
  mk_timer_env
    (fun k => match k with 0%nat => 0 | 1%nat => 0 | _ => 1 end)
    (fun k => match k with 0%nat => 2 | _ => 0 end)
    (fun _ => 0)
    (fun k => match k with 0%nat => 1 | _ => 0 end)
    (fun _ => Some 3500000)
    (fun _ => (0, 0))
    (fun _ => true).

(** The same, but [ReleaseSemaphore] fails. *)
Definition env_timer_release_fails : timer_env :=
  mk_timer_env (timer_wait env_timer_example) (requests_before env_timer_example)
    (requests_during_reset env_timer_example)
    (requests_during_read env_timer_example)
    (performance_counter env_timer_example) (timer_filetime env_timer_example)
    (fun _ => false).

(** What the passes of the loop keep, from the state [s] to the state [s']
    while at most [offered] requests come in: the frequency and the quit
    counter, the bounds of the request counter, the balance of requests and
    permits (released, or lost in a failed call), and one call of
    [ReleaseSemaphore], for at least one permit, per read of the counter;
    no permit is lost when [released] holds, which says that no call of
    [ReleaseSemaphore] fails. *)
Definition timer_keeps (released : Prop) (offered : Z) (s s' : timer_state) : Prop :=
  hires_frequency (fst s') = hires_frequency (fst s) /\
  snd (request_count (fst s')) = snd (request_count (fst s)) /\
  0 <= fst (request_count (fst s'))
    <= fst (request_count (fst s)) + offered /\
  fst (request_count (fst s')) + permits_released (snd s')
    + permits_lost (snd s') - requests_counted (snd s')
  = fst (request_count (fst s)) + permits_released (snd s)
    + permits_lost (snd s) - requests_counted (snd s) /\
  counter_reads (snd s') - release_calls (snd s')
  = counter_reads (snd s) - release_calls (snd s) /\
  permits_released (snd s) + permits_lost (snd s) - release_calls (snd s)
  <= permits_released (snd s') + permits_lost (snd s') - release_calls (snd s') /\
  (released -> permits_lost (snd s') = permits_lost (snd s)).

(** Where that example ends after a start with a counter of 1 MHz. *)
Definition timer_example_globals : globals :=
  mk_globals 1000000 1000000 (-1) None None (mk_timespec 3 500000000) (0, 1)
    (None, None) None None (mk_htab None 0 0)
    [OsWait TimerMutex; OsReleaseMutex TimerMutex].

Definition timer_example_history : list timer_event :=
  [RequestsCounted 2; TimerReadCounter; RequestsCounted 1;
   TimerReleasePermits 3; RequestsCounted 0; TimerResetEvent 0;
   RequestsCounted 0; RequestsCounted 0].

Definition timer_release_fails_history : list timer_event :=
  [RequestsCounted 2; TimerReadCounter; RequestsCounted 1;
   TimerReleaseFailed 3; RequestsCounted 0; TimerResetEvent 0;
   RequestsCounted 0; RequestsCounted 0].

(** ** Enumeration: [init_device] and [wince_get_device_list] *)

(** A device handle of the driver. *)
Definition UKW_DEVICE : Type := nat.

(** The fields of [struct libusb_device] and of its [wince_device_priv] that
    the file writes. *)
Record libusb_device : Type := mk_device {
  session_data : Z;
  bus_number : Z;
  device_address : Z;
  priv_dev : option UKW_DEVICE
}.

(** The calls made to the driver and to the core of the library. *)
Inductive enum_call : Type :=
| CallGetDeviceList
| CallGetDeviceAddress (d : UKW_DEVICE)
| CallGetDeviceBySessionId (session_id : Z)
| CallAllocDevice (session_id : Z)
| CallGetDeviceDescriptor (d : UKW_DEVICE)
| CallSanitizeDevice (dev : libusb_device)
| CallDevsAppend (dev : libusb_device)
| CallUnrefDevice (dev : libusb_device)
| CallReleaseDeviceList (count : nat).

(** What the driver and the core of the library answer.  The driver stores
    at most [MAX_DEVICE_COUNT] handles; [ukw_device_list] is what it has
    stored, and [None] when the call fails. *)
Record enum_env : Type := mk_enum_env {
  ukw_device_list : option (list UKW_DEVICE);
  (* UkwGetDeviceAddress: bus_addr, dev_addr and session_id, None when it fails *)
  ukw_device_address : UKW_DEVICE -> option (Z * Z * Z);
  (* usbi_get_device_by_session_id *)
  device_by_session_id : Z -> option libusb_device;
  (* usbi_alloc_device, None for NULL *)
  alloc_device : Z -> option libusb_device;
  (* the value UkwGetDeviceDescriptor returns *)
  ukw_device_descriptor : UKW_DEVICE -> Z;
  (* the value usbi_sanitize_device returns *)
  sanitize_device : libusb_device -> Z;
  (* discovered_devs_append, None for NULL *)
  devs_append : option (list libusb_device) -> libusb_device
                -> option (list libusb_device)
}.

(** [init_device]: the result, the device as it is left, and the call. *)
Definition init_device (env : enum_env) (dev : libusb_device)
    (drv_dev : UKW_DEVICE) (bus_addr dev_addr : Z)
    : Z * libusb_device * list enum_call :=
  let dev := mk_device (session_data dev) bus_addr dev_addr (Some drv_dev) in
  (ukw_device_descriptor env drv_dev, dev, [CallGetDeviceDescriptor drv_dev]).

(** The locals of [wince_get_device_list] that live across the loop. *)
Record enum_state : Type := mk_enum_state {
  new_devices : option (list libusb_device);
  enum_dev : option libusb_device;        (* dev, not initialised at first *)
  need_unref : bool;
  enum_r : Z;
  enum_calls : list enum_call
}.

Definition enum_did (cs : list enum_call) (s : enum_state) : enum_state :=
  mk_enum_state (new_devices s) (enum_dev s) (need_unref s) (enum_r s)
    (enum_calls s ++ cs).

Section Enumeration.
(** The numbers of the error codes are those of [libusb.h], which is not
    among the sources. *)
Variable error_code : libusb_error -> Z.

(** One pass of the loop, for the handle [d]: [inl] to go on, [inr] for
    [goto err_out].  [discdevs] is the pointer the function was given,
    [None] for a null pointer. *)
Definition enum_pass (env : enum_env)
    (discdevs : option (option (list libusb_device)))
    (d : UKW_DEVICE) (s : enum_state) : enum_state + enum_state :=
  let s := enum_did [CallGetDeviceAddress d] s in
  match ukw_device_address env d with
  | None =>
      inr (mk_enum_state (new_devices s) (enum_dev s) (need_unref s)
             (error_code LIBUSB_ERROR_OTHER) (enum_calls s))
  | Some (bus_addr, dev_addr, session_id) =>
      let s := enum_did [CallGetDeviceBySessionId session_id] s in
      let found :=
        match device_by_session_id env session_id with
        | Some dev =>
            inl (mk_enum_state (new_devices s) (Some dev) (need_unref s)
                   (enum_r s) (enum_calls s))
        | None =>
            let s := enum_did [CallAllocDevice session_id] s in
            match alloc_device env session_id with
            | None =>
                inr (mk_enum_state (new_devices s) None (need_unref s)
                       (error_code LIBUSB_ERROR_NO_MEM) (enum_calls s))
            | Some dev =>
                let '(r, dev, cs) := init_device env dev d bus_addr dev_addr in
                let s := mk_enum_state (new_devices s) (Some dev) true r
                           (enum_calls s ++ cs) in
                if r <? 0 then inr s
                else
                  let r := sanitize_device env dev in
                  let s := mk_enum_state (new_devices s) (Some dev) true r
                             (enum_calls s ++ [CallSanitizeDevice dev]) in
                  if r <? 0 then inr s else inl s
            end
        end in
      match found with
      | inr s => inr s
      | inl s =>
          match enum_dev s with
          | None => inr s   (* not reached: dev has been set *)
          | Some dev =>
              let s := mk_enum_state (devs_append env (new_devices s) dev)
                         (Some dev) (need_unref s) (enum_r s)
                         (enum_calls s ++ [CallDevsAppend dev]) in
              match discdevs with
              | None =>
                  inr (mk_enum_state (new_devices s) (enum_dev s) (need_unref s)
                         (error_code LIBUSB_ERROR_NO_MEM) (enum_calls s))
              | Some _ =>
                  inl (mk_enum_state (new_devices s) (enum_dev s) false
                         (enum_r s) (enum_calls s))
              end
          end
      end
  end.

(** The loop over the handles still to be looked at. *)
Fixpoint enum_loop (env : enum_env)
    (discdevs : option (option (list libusb_device)))
    (rest : list UKW_DEVICE) (s : enum_state) : enum_state + enum_state :=
  match rest with
  | [] => inl s
  | d :: rest' =>
      match enum_pass env discdevs d s with
      | inl s => enum_loop env discdevs rest' s
      | inr s => inr s
      end
  end.

(** [wince_get_device_list]: the result is the value returned, what
    [*discdevs] holds at the return, and the calls made.  A null [discdevs]
    is dereferenced at the entry. *)
Definition wince_get_device_list (env : enum_env)
    (discdevs : option (option (list libusb_device)))
    : outcome (Z * option (list libusb_device) * list enum_call) :=
  match discdevs with
  | None => Fault
  | Some old_devices =>
      let s := mk_enum_state old_devices None false
                 (error_code LIBUSB_SUCCESS) [CallGetDeviceList] in
      match ukw_device_list env with
      | None => Done (error_code LIBUSB_ERROR_OTHER, old_devices, enum_calls s)
      | Some devices =>
          match enum_loop env discdevs devices s with
          | inl s => Done (enum_r s, new_devices s, enum_calls s)
          | inr s =>
              (* err_out *)
              let s := if need_unref s
                       then match enum_dev s with
                            | Some dev => enum_did [CallUnrefDevice dev] s
                            | None => s
                            end
                       else s in
              let s := enum_did [CallReleaseDeviceList (length devices)] s in
              Done (enum_r s, new_devices s, enum_calls s)
          end
      end
  end.
End Enumeration.

(** Every call made for the handle [d] succeeds. *)
Definition handle_ok (env : enum_env) (d : UKW_DEVICE) : bool :=
  match ukw_device_address env d with
  | None => false
  | Some (bus_addr, dev_addr, session_id) =>
      match device_by_session_id env session_id with
      | Some _ => true
      | None =>
          match alloc_device env session_id with
          | None => false
          | Some dev =>
              let '(r, dev, _) := init_device env dev d bus_addr dev_addr in
              (0 <=? r) && (0 <=? sanitize_device env dev)
          end
      end
  end.

(** [dev] is the device that stands for the handle [d]: the one the library
    knows under the session id of [d], or else a new one that carries the
    handle and the addresses of [d]. *)
Definition enumerated (env : enum_env) (d : UKW_DEVICE) (dev : libusb_device) : Prop :=
  exists bus_addr dev_addr session_id,
    ukw_device_address env d = Some (bus_addr, dev_addr, session_id) /\
    (device_by_session_id env session_id = Some dev \/
     (device_by_session_id env session_id = None /\
      priv_dev dev = Some d /\ bus_number dev = bus_addr /\
      device_address dev = dev_addr)).

(** The calls of the clean-up at [err_out]. *)
Definition cleanup_call (c : enum_call) : bool :=
  match c with
  | CallUnrefDevice _ | CallReleaseDeviceList _ => true
  | _ => false
  end.

(** An example: three handles, the first of a device the library knows
    already; [discovered_devs_append] appends.  In the second environment
    the descriptor of the last handle cannot be read. *)
Definition env_enum_example (last_descriptor : Z) : enum_env :=
  mk_enum_env (Some [0; 1; 2]%nat)
    (fun d => Some (1, Z.of_nat d + 1, 100 + Z.of_nat d))
    (fun sid => if sid =? 100 then Some (mk_device 100 1 1 (Some 0%nat)) else None)
    (fun sid => Some (mk_device sid 0 0 None))
    (fun d => if (d =? 2)%nat then last_descriptor else 0)
    (fun _ => 0)
    (fun l dev => match l with Some l => Some (l ++ [dev]) | None => None end).

(** The numbers of the error codes in [libusb.h], for the examples. *)
Definition example_error_code (e : libusb_error) : Z :=
  match e with
  | LIBUSB_SUCCESS => 0
  | LIBUSB_ERROR_IO => -1
  | LIBUSB_ERROR_INVALID_PARAM => -2
  | LIBUSB_ERROR_ACCESS => -3
  | LIBUSB_ERROR_NO_DEVICE => -4
  | LIBUSB_ERROR_NOT_FOUND => -5
  | LIBUSB_ERROR_BUSY => -6
  | LIBUSB_ERROR_TIMEOUT => -7
  | LIBUSB_ERROR_OVERFLOW => -8
  | LIBUSB_ERROR_PIPE => -9
  | LIBUSB_ERROR_INTERRUPTED => -10
  | LIBUSB_ERROR_NO_MEM => -11
  | LIBUSB_ERROR_NOT_SUPPORTED => -12
  | LIBUSB_ERROR_OTHER => -99
  end.

(** * Properties *)

(** ** Machine arithmetic *)

(** Linear arithmetic with [mod] and [/] by constants. *)
Ltac mlia := Z.to_euclidean_division_equations; lia.

Lemma ULONG_MODULUS_eq : ULONG_MODULUS = 4294967296.
Proof. reflexivity. Qed.

Lemma ulong_small z : 0 <= z < 4294967296 -> ulong z = z.
Proof. intros H. unfold ulong. rewrite ULONG_MODULUS_eq. apply Z.mod_small; lia. Qed.

Lemma uint_small z : 0 <= z < 4294967296 -> uint z = z.
Proof. apply ulong_small. Qed.

Lemma ulong_range z : 0 <= ulong z < 4294967296.
Proof. unfold ulong. rewrite ULONG_MODULUS_eq. apply Z.mod_pos_bound; lia. Qed.

(** ** The main hash value *)

Lemma hash_round_poly r c : hash_round r c = spec_hash_round r c.
Proof.
  unfold hash_round, spec_hash_round, ulong.
  rewrite ULONG_MODULUS_eq, Z.shiftl_mul_pow2 by lia.
  change (2 ^ 5) with 32. change (2 ^ 32) with 4294967296.
  rewrite (Zplus_mod_idemp_l (r * 32) r), Zplus_mod_idemp_l.
  f_equal; lia.
Qed.

Lemma spec_hash_round_range r c : 0 <= spec_hash_round r c < 4294967296.
Proof. unfold spec_hash_round. apply Z.mod_pos_bound; lia. Qed.

Lemma hash_loop_fold s : forall r,
  hash_loop s r = fold_left spec_hash_round (string_chars s) r.
Proof.
  unfold string_chars.
  induction s as [|b rest IH]; intros r; simpl; [reflexivity|].
  destruct (char_to_int b =? 0) eqn:E; simpl; [reflexivity|].
  rewrite IH, hash_round_poly. reflexivity.
Qed.

Lemma fold_spec_hash_round_range cs : forall r,
  0 <= r < 4294967296 ->
  0 <= fold_left spec_hash_round cs r < 4294967296.
Proof.
  induction cs as [|c cs IH]; intros r Hr; simpl; [assumption|].
  apply IH, spec_hash_round_range.
Qed.

Lemma main_hash_range s : 1 <= main_hash s < 4294967296.
Proof.
  unfold main_hash. rewrite hash_loop_fold.
  pose proof (fold_spec_hash_round_range (string_chars s) 5381 ltac:(lia)) as H.
  destruct (_ =? 0) eqn:E.
  - apply Z.eqb_eq in E. rewrite E. vm_compute. split; [discriminate | reflexivity].
  - apply Z.eqb_neq in E. lia.
Qed.

(** C2, as amended: the main hash of [htab_hash] is the accumulator
    [r = r*33 + byte] taken modulo [2^32] (the code adds [r << 5] and [r],
    that is [32*r + r]), seeded with 5381, with a final 0 remapped to 1; it is
    never zero. *)
Theorem main_hash_is_times33 (s : list Byte.byte) :
  main_hash s = spec_main_hash spec_hash_round s /\ main_hash s <> 0.
Proof.
  split.
  - unfold main_hash, spec_main_hash. rewrite hash_loop_fold.
    destruct (_ =? 0) eqn:E; [|reflexivity].
    apply Z.eqb_eq in E. rewrite E. reflexivity.
  - pose proof (main_hash_range s). lia.
Qed.

(** C2, as worded: on the one-character string ["a"] the code gives
    [5381*33 + 97 = 177670], the accumulator [r*33 + r + byte] gives
    [183051]. *)
Lemma main_hash_not_as_worded :
  main_hash [Byte.x61] = 177670 /\
  spec_main_hash spec_hash_round_as_worded [Byte.x61] = 183051 /\
  main_hash [Byte.x61] <> spec_main_hash spec_hash_round_as_worded [Byte.x61].
Proof. repeat split. vm_compute. discriminate. Qed.

(** ** [isprime] and [htab_create] *)

(** C1 at the requests 0 and 1: [nel |= 1] gives 1, [isprime(1)] answers
    "prime" (the loop is not entered and [1 % 3 != 0]), and the table gets
    capacity 1, which is not a prime number. *)
Theorem htab_create_capacity_one (fuel : nat) (calloc_ok : bool) (nel : Z) :
  nel = 0 \/ nel = 1 ->
  exists r st,
    htab_create (S fuel) calloc_ok nel = Done (r, st) /\
    htab_size st = 1 /\ ~ Z.prime (htab_size st).
Proof.
  intros [-> | ->]; eexists _, _; (split; [reflexivity|]);
    (split; [reflexivity|]); exact Z.not_prime_1.
Qed.

Lemma htab_create_capacity_one_at_0 :
  (0 = 0 \/ 0 = 1) /\
  exists r st,
    htab_create 1 true 0 = Done (r, st) /\
    htab_size st = 1 /\ ~ Z.prime (htab_size st).
Proof.
  split; [left; reflexivity|].
  apply (htab_create_capacity_one 0 true 0). left; reflexivity.
Defined.

(** The same capacity comes out at the other end of the range: the request
    [2^32 - 1] is odd and divisible by 3, and [nel += 2] wraps to 1. *)
Lemma htab_create_wraps :
  exists st,
    htab_create 2 true 4294967295 = Done (1, st) /\ htab_size st = 1.
Proof. eexists. split; [vm_compute; reflexivity | reflexivity]. Qed.

(** *** [isprime] on odd numbers in the range where [divider * divider]
    does not wrap *)

Lemma odd_divisor_small n m :
  n mod 2 = 1 -> 1 < m < n -> (m | n) ->
  exists a, 3 <= a /\ a mod 2 = 1 /\ (a | n) /\ a * a <= n.
Proof.
  intros Hodd Hm [q Hq].
  assert (Hq1 : 1 < q) by nia.
  assert (Hmo : m mod 2 = 1).
  { destruct (Z.eq_dec (m mod 2) 1) as [|Hne]; [assumption|].
    exfalso. assert (m mod 2 = 0) by (pose proof (Z.mod_pos_bound m 2); lia).
    assert (Hn : n mod 2 = 0).
    { subst n. rewrite Z.mul_comm, Zmult_mod, H, Z.mul_0_l. reflexivity. }
    mlia. }
  assert (Hqo : q mod 2 = 1).
  { destruct (Z.eq_dec (q mod 2) 1) as [|Hne]; [assumption|].
    exfalso. assert (q mod 2 = 0) by (pose proof (Z.mod_pos_bound q 2); lia).
    assert (Hn : n mod 2 = 0).
    { subst n. rewrite Zmult_mod, H, Z.mul_0_l. reflexivity. }
    mlia. }
  destruct (Z_le_gt_dec m q).
  - exists m. split; [mlia|]. split; [assumption|]. split; [exists q; assumption | nia].
  - exists q. split; [mlia|]. split; [assumption|]. split; [exists m; lia | nia].
Qed.

Lemma isprime_loop_correct fuel : forall n d,
  n mod 2 = 1 -> 5 <= n <= 4294836225 ->
  d mod 2 = 1 -> 3 <= d <= 65535 ->
  (d = 3 \/ (d - 2) * (d - 2) < n) ->
  (forall k, 3 <= k < d -> k mod 2 = 1 -> ~ (k | n)) ->
  n <= (d + 2 * (Z.of_nat fuel - 1)) * (d + 2 * (Z.of_nat fuel - 1)) ->
  exists d', isprime_loop fuel n d = Done d' /\ (n mod d' <> 0 <-> Z.prime n).
Proof.
  induction fuel as [|f IH]; intros n d Hn Hnr Hd Hdr Hprev Hinv Hfuel.
  - exfalso. simpl in Hfuel. nia.
  - simpl. destruct (d =? 0) eqn:Ed0; [apply Z.eqb_eq in Ed0; lia|].
    rewrite uint_small by nia.
    destruct ((d * d <? n) && negb (n mod d =? 0)) eqn:Econt.
    + apply andb_true_iff in Econt. destruct Econt as [Hlt Hnd].
      apply Z.ltb_lt in Hlt. apply negb_true_iff, Z.eqb_neq in Hnd.
      assert (d <= 65533) by (assert (d < 65535) by nia; mlia).
      rewrite uint_small by mlia.
      assert (Hprev' : d + 2 = 3 \/ (d + 2 - 2) * (d + 2 - 2) < n).
      { right. replace (d + 2 - 2) with d by lia. assumption. }
      assert (Hinv' : forall k, 3 <= k < d + 2 -> k mod 2 = 1 -> ~ (k | n)).
      { intros k Hk Hko Hdiv.
        destruct (Z.eq_dec k d) as [->|Hne].
        - apply Hnd. apply Z.mod_divide; [lia | assumption].
        - apply (Hinv k); [mlia | assumption | assumption]. }
      assert (Hfuel' : n <= (d + 2 + 2 * (Z.of_nat f - 1)) * (d + 2 + 2 * (Z.of_nat f - 1))).
      { replace (d + 2 + 2 * (Z.of_nat f - 1)) with (d + 2 * (Z.of_nat (S f) - 1)) by lia.
        assumption. }
      apply (IH n (d + 2) Hn Hnr); [mlia | lia | assumption | assumption | assumption].
    + exists d. split; [reflexivity|].
      apply andb_false_iff in Econt.
      destruct (Z.eq_dec (n mod d) 0) as [Hz|Hnz].
      * split; [intros Hc; contradiction|].
        intros Hp. exfalso.
        assert (Hdiv : (d | n)) by (apply Z.mod_divide; [mlia | assumption]).
        assert (Hdn : d < n).
        { destruct Hprev as [->|Hprev]; [mlia|].
          destruct (Z_lt_ge_dec d n); [assumption|]. exfalso. nia. }
        destruct (Z.divide_prime_r d n Hp Hdiv) as [|[|[|]]]; mlia.
      * split; [|intros _; assumption]. intros _.
        destruct Econt as [Hge|Hc];
          [|apply negb_false_iff, Z.eqb_eq in Hc; contradiction].
        apply Z.ltb_ge in Hge.
        split; [lia|]. intros m Hm Hdiv.
        destruct (odd_divisor_small n m Hn Hm Hdiv) as (a & Ha3 & Hao & Hadiv & Hasq).
        assert (Had : a <= d) by nia.
        destruct (Z.eq_dec a d) as [->|Hne].
        -- apply Hnz. apply Z.mod_divide; [mlia | assumption].
        -- apply (Hinv a); [mlia | assumption | assumption].
Qed.

(** In that range [isprime] answers exactly the primality of an odd number
    from 5 on (3 is the one odd prime it rejects, 1 the one non-prime it
    accepts). *)
Lemma isprime_correct fuel n :
  n mod 2 = 1 -> 5 <= n <= 4294836225 ->
  n <= (2 * Z.of_nat fuel + 1) * (2 * Z.of_nat fuel + 1) ->
  exists b, isprime fuel n = Done b /\ (b = true <-> Z.prime n).
Proof.
  intros Hn Hnr Hfuel. unfold isprime.
  assert (Hsq : n <= (3 + 2 * (Z.of_nat fuel - 1)) * (3 + 2 * (Z.of_nat fuel - 1))).
  { replace (3 + 2 * (Z.of_nat fuel - 1)) with (2 * Z.of_nat fuel + 1) by lia.
    assumption. }
  destruct (isprime_loop_correct fuel n 3 Hn Hnr) as (d & Hd & Hiff);
    [reflexivity | lia | left; reflexivity | intros k Hk; lia | assumption |].
  rewrite Hd. simpl. eexists; split; [reflexivity|].
  rewrite negb_true_iff, Z.eqb_neq. assumption.
Qed.

Lemma isprime_1 fuel : isprime (S fuel) 1 = Done true.
Proof. reflexivity. Qed.

Lemma isprime_3 fuel : isprime (S fuel) 3 = Done false.
Proof. reflexivity. Qed.

Lemma lor_1_odd n : 0 <= n -> n mod 2 = 1 -> Z.lor n 1 = n.
Proof.
  intros H0 H. destruct n as [|p|p]; [discriminate H | | lia].
  destruct p; try reflexivity. exfalso.
  rewrite Pos2Z.inj_xO, Z.mul_comm, Z_mod_mult in H. discriminate.
Qed.

Lemma lor_1_even n : 0 <= n -> n mod 2 = 0 -> Z.lor n 1 = n + 1.
Proof.
  intros H0 H. destruct n as [|p|p]; [reflexivity | | lia].
  destruct p; try reflexivity; exfalso.
  - rewrite Pos2Z.inj_xI, Z.add_comm, Z.mul_comm, Z_mod_plus_full in H. discriminate.
  - discriminate.
Qed.

(** The search for the next prime, started at an odd number [n >= 5], stops
    at the least prime [p >= n]; [K] bounds the iterations of [isprime]. *)
Lemma next_prime_loop_correct fuel : forall n p K,
  n mod 2 = 1 -> 5 <= n <= p -> p <= 4294836225 -> Z.prime p ->
  (forall q, n <= q < p -> ~ Z.prime q) ->
  1 <= K -> p <= (2 * K + 1) * (2 * K + 1) -> p - n <= 2 * (Z.of_nat fuel - K) ->
  next_prime_loop fuel n = Done p.
Proof.
  induction fuel as [|f IH]; intros n p K Hn Hnp Hp Hprime Hleast HK HKp Hfuel.
  - exfalso. simpl in Hfuel. lia.
  - cbn [next_prime_loop].
    assert (Hin : n <= (2 * Z.of_nat (S f) + 1) * (2 * Z.of_nat (S f) + 1)).
    { assert (K <= Z.of_nat (S f)) by lia.
      assert ((2 * K + 1) * (2 * K + 1) <= (2 * Z.of_nat (S f) + 1) * (2 * Z.of_nat (S f) + 1))
        by nia.
      lia. }
    destruct (isprime_correct (S f) n Hn ltac:(lia) Hin) as (b & Hb & Hiff).
    rewrite Hb. cbn [obind]. destruct b.
    + destruct (Z.eq_dec n p) as [->|Hne]; [reflexivity|].
      exfalso. apply (Hleast n); [lia | apply Hiff; reflexivity].
    + assert (Hnp' : n <> p).
      { intros ->. assert (false = true) by (apply Hiff; assumption). discriminate. }
      assert (Hpo : p mod 2 = 1).
      { destruct (Z.eq_dec (p mod 2) 1) as [|Hpe]; [assumption|]. exfalso.
        assert (Hp0 : p mod 2 = 0) by (pose proof (Z.mod_pos_bound p 2); lia).
        apply Z.mod_divide in Hp0; [|lia].
        destruct (Z.divide_prime_r 2 p Hprime Hp0) as [|[|[|]]]; lia. }
      rewrite ulong_small by lia.
      apply (IH (n + 2) p K); [mlia | mlia | lia | assumption | | lia | lia | mlia].
      intros q Hq. apply Hleast. lia.
Qed.

(** From a request of at least 2, [htab_create] settles on the least prime
    [p >= 5] that is not smaller than the request (requests 2 and 3 give 5:
    [isprime] rejects 3), as long as [p] lies in the range where the square
    in [isprime] does not wrap. *)
Lemma htab_create_next_prime fuel calloc_ok c p :
  2 <= c <= p -> 5 <= p <= 4294836225 -> Z.prime p ->
  (forall q, c <= q < p -> 5 <= q -> ~ Z.prime q) ->
  2 * p <= Z.of_nat fuel ->
  htab_create fuel calloc_ok c =
    Done (if calloc_ok then 1 else 0,
          mk_htab (if calloc_ok
                   then Some (replicate (Z.to_nat (p + 1)) free_entry)
                   else None) p 0).
Proof.
  intros Hc Hp Hprime Hleast Hfuel.
  assert (Hpo : p mod 2 = 1).
  { destruct (Z.eq_dec (p mod 2) 1) as [|Hpe]; [assumption|]. exfalso.
    assert (Hp0 : p mod 2 = 0) by (pose proof (Z.mod_pos_bound p 2); lia).
    apply Z.mod_divide in Hp0; [|lia].
    destruct (Z.divide_prime_r 2 p Hprime Hp0) as [|[|[|]]]; lia. }
  assert (Hlor : exists n, Z.lor c 1 = n /\ n mod 2 = 1 /\ c <= n <= p).
  { destruct (Z.eq_dec (c mod 2) 1) as [Ho|He].
    - exists c. rewrite lor_1_odd by lia. repeat split; lia.
    - assert (c mod 2 = 0) by (pose proof (Z.mod_pos_bound c 2); lia).
      exists (c + 1). rewrite lor_1_even by lia. repeat split; mlia. }
  destruct Hlor as (n & Hn & Hno & Hnr).
  assert (Hsq : p <= (2 * p + 1) * (2 * p + 1)) by nia.
  assert (Hloop : next_prime_loop fuel n = Done p).
  { destruct (Z_lt_ge_dec n 5) as [Hsmall|Hbig].
    - assert (E3 : n = 3) by mlia. rewrite E3.
      destruct fuel as [|f]; [simpl in Hfuel; lia|].
      cbn [next_prime_loop]. rewrite isprime_3. cbn [obind].
      change (ulong (3 + 2)) with 5.
      assert (Hl5 : forall q, 5 <= q < p -> ~ Z.prime q)
        by (intros q Hq; apply Hleast; lia).
      apply (next_prime_loop_correct f 5 p p eq_refl ltac:(lia) ltac:(lia) Hprime Hl5
               ltac:(lia) Hsq). lia.
    - assert (Hln : forall q, n <= q < p -> ~ Z.prime q)
        by (intros q Hq; apply Hleast; lia).
      apply (next_prime_loop_correct fuel n p p Hno ltac:(lia) ltac:(lia) Hprime Hln
               ltac:(lia) Hsq). lia. }
  unfold htab_create. rewrite Hn, Hloop. cbn [obind].
  rewrite ulong_small by lia. reflexivity.
Qed.

(** ** The probe sequence of [htab_hash] *)

Lemma mod_shift_up a n : - n <= a < 0 -> a mod n = a + n.
Proof.
  intros H. rewrite <- (Z_mod_plus_full a 1 n).
  rewrite Z.mod_small; lia.
Qed.

Lemma probe_idx_range size hval hval2 k :
  0 < size -> 1 <= probe_idx size hval hval2 k <= size.
Proof.
  intros H. unfold probe_idx.
  pose proof (Z.mod_pos_bound (hval - k * hval2 - 1) size H). lia.
Qed.

Lemma probe_idx_0 size hval hval2 :
  1 <= hval <= size -> probe_idx size hval hval2 0 = hval.
Proof.
  intros H. unfold probe_idx.
  replace (hval - 0 * hval2 - 1) with (hval - 1) by lia.
  rewrite Z.mod_small; lia.
Qed.

Lemma probe_idx_size size hval hval2 :
  1 <= hval <= size -> probe_idx size hval hval2 size = hval.
Proof.
  intros H. unfold probe_idx.
  replace (hval - size * hval2 - 1) with (hval - 1 + (- hval2) * size) by lia.
  rewrite Z_mod_plus_full, Z.mod_small; lia.
Qed.

Lemma probe_step_idx size hval hval2 k :
  3 <= size < 4294967296 -> 1 <= hval2 <= size - 2 ->
  probe_step size hval2 (probe_idx size hval hval2 k) =
  probe_idx size hval hval2 (k + 1).
Proof.
  intros Hsize Hh2.
  pose proof (probe_idx_range size hval hval2 k ltac:(lia)) as Hr.
  assert (Hnext : probe_idx size hval hval2 (k + 1) =
                  (probe_idx size hval hval2 k - 1 - hval2) mod size + 1).
  { unfold probe_idx.
    replace (hval - k * hval2 - 1) with (hval - k * hval2 - 1) by lia.
    replace ((hval - k * hval2 - 1) mod size + 1 - 1 - hval2)
      with ((hval - k * hval2 - 1) mod size - hval2) by lia.
    rewrite Zminus_mod_idemp_l. f_equal. f_equal. lia. }
  rewrite Hnext. set (x := probe_idx size hval hval2 k) in *.
  unfold probe_step. destruct (x <=? hval2) eqn:E.
  - apply Z.leb_le in E.
    unfold ulong. rewrite Zminus_mod_idemp_l, ULONG_MODULUS_eq.
    rewrite Z.mod_small by lia.
    rewrite mod_shift_up by lia. lia.
  - apply Z.leb_gt in E.
    rewrite ulong_small by lia.
    rewrite Z.mod_small by lia. lia.
Qed.

Lemma mod_eq_divide a b n : 0 < n -> a mod n = b mod n -> (n | a - b).
Proof.
  intros Hn H. apply Z.mod_divide; [lia|].
  rewrite Zminus_mod, H, Z.sub_diag. apply Z.mod_0_l. lia.
Qed.

(** With a prime capacity the sequence comes back to its start only after
    [size] steps. *)
Lemma probe_idx_not_start size hval hval2 k :
  Z.prime size -> 1 <= hval <= size -> 1 <= hval2 < size -> 0 < k < size ->
  probe_idx size hval hval2 k <> hval.
Proof.
  intros Hp Hh Hh2 Hk Heq. unfold probe_idx in Heq.
  assert (Hm : (hval - k * hval2 - 1) mod size = (hval - 1) mod size).
  { rewrite (Z.mod_small (hval - 1)) by lia. lia. }
  apply mod_eq_divide in Hm; [|lia].
  replace (hval - k * hval2 - 1 - (hval - 1)) with (- (k * hval2)) in Hm by lia.
  apply (proj1 (Z.divide_opp_r _ _)) in Hm.
  apply (proj1 (Z.divide_prime_mul k hval2 size Hp)) in Hm.
  destruct Hm as [Hd|Hd]; apply Z.divide_pos_le in Hd; lia.
Qed.

(** ... and visits every slot [1..size] on the way. *)
Lemma probe_idx_surjective size hval hval2 j :
  Z.prime size -> 1 <= hval <= size -> 1 <= hval2 < size -> 1 <= j <= size ->
  exists k, 0 <= k < size /\ probe_idx size hval hval2 k = j.
Proof.
  intros Hp Hh Hh2 Hj.
  destruct (Z.Bezout_coprime size hval2 (Z.coprime_prime_small size hval2 Hp ltac:(lia)))
    as (u & v & Huv).
  assert (Hs : 0 < size) by lia.
  exists (((hval - j) * v) mod size). split.
  - apply Z.mod_pos_bound; assumption.
  - unfold probe_idx.
    rewrite <- (Zminus_mod_idemp_l (hval - _)), <- (Zminus_mod_idemp_r hval).
    rewrite Zmult_mod_idemp_l.
    rewrite Zminus_mod_idemp_r, Zminus_mod_idemp_l.
    replace (hval - (hval - j) * v * hval2 - 1)
      with (j - 1 + ((hval - j) * u) * size) by nia.
    rewrite Z_mod_plus_full, Z.mod_small; lia.
Qed.

(** ** The search loop *)

Lemma list_byte_eqb_eq a : forall b, list_byte_eqb a b = true <-> a = b.
Proof.
  induction a as [|x a IH]; intros [|y b]; simpl; split; intros H;
    try reflexivity; try discriminate.
  - apply andb_true_iff in H. destruct H as [Hxy Hab].
    apply Byte.byte_dec_bl in Hxy. apply IH in Hab. congruence.
  - injection H as -> ->. apply andb_true_iff. split.
    + apply Byte.byte_dec_lb. reflexivity.
    + apply IH. reflexivity.
Qed.

Lemma c_str_idempotent s : c_str (c_str s) = c_str s.
Proof.
  induction s as [|b s IH]; simpl; [reflexivity|].
  destruct (char_to_int b =? 0) eqn:E; simpl; [reflexivity|].
  rewrite E, IH. reflexivity.
Qed.

Lemma entry_matches_used hval s e :
  entry_matches hval s e = true -> used e = hval.
Proof.
  unfold entry_matches. intros H. apply andb_true_iff in H.
  destruct H as [H _]. apply Z.eqb_eq in H. assumption.
Qed.

Lemma entry_matches_stored hval s e t :
  entry_matches hval s e = true -> str e = Some t -> c_str t = c_str s.
Proof.
  unfold entry_matches, safe_strcmp_eq0. intros H Ht.
  apply andb_true_iff in H. destruct H as [_ H].
  rewrite Ht in H. apply list_byte_eqb_eq in H. congruence.
Qed.

Lemma entry_matches_new hval s :
  entry_matches hval s (mk_entry hval (Some (c_str s))) = true.
Proof.
  unfold entry_matches, safe_strcmp_eq0. simpl.
  rewrite Z.eqb_refl, c_str_idempotent. simpl.
  apply list_byte_eqb_eq. reflexivity.
Qed.

Lemma read_entry_done tbl idx e :
  read_entry tbl idx = Done e -> 0 <= idx /\ tbl !! Z.to_nat idx = Some e.
Proof.
  unfold read_entry. destruct (idx <? 0) eqn:E; [discriminate|].
  apply Z.ltb_ge in E.
  destruct (tbl !! Z.to_nat idx) as [e'|]; [|discriminate].
  intros H. injection H as ->. split; [assumption | reflexivity].
Qed.

Lemma read_entry_lookup tbl idx e :
  0 <= idx -> tbl !! Z.to_nat idx = Some e -> read_entry tbl idx = Done e.
Proof.
  intros H0 H. unfold read_entry.
  destruct (idx <? 0) eqn:E; [apply Z.ltb_lt in E; lia|].
  rewrite H. reflexivity.
Qed.

Lemma read_entry_in_range tbl size idx :
  length tbl = Z.to_nat (size + 1) -> 0 <= idx <= size ->
  exists e, read_entry tbl idx = Done e.
Proof.
  intros Hlen Hidx.
  destruct (lookup_lt_is_Some_2 tbl (Z.to_nat idx)) as [e He]; [lia|].
  exists e. apply read_entry_lookup; [lia | assumption].
Qed.

Section ProbeLoop.
Variables (tbl : list htab_entry) (size hval hval2 : Z) (s : list Byte.byte).

(** What the loop tells about the entry it stops at. *)
Lemma probe_loop_hit fuel : forall idx i,
  probe_loop fuel tbl size hval hval2 s idx = Done (ProbeHit i) ->
  exists e, read_entry tbl i = Done e /\ entry_matches hval s e = true.
Proof.
  induction fuel as [|f IH]; intros idx i H; [discriminate|].
  cbn [probe_loop] in H.
  destruct (probe_step size hval2 idx =? hval); [discriminate|].
  destruct (read_entry tbl (probe_step size hval2 idx)) as [e| |] eqn:Er;
    cbn [obind] in H; try discriminate.
  destruct (entry_matches hval s e) eqn:Em.
  - injection H as <-. exists e. split; assumption.
  - destruct (used e =? 0); [discriminate|]. apply (IH _ _ H).
Qed.

Lemma probe_loop_new fuel : forall idx i,
  probe_loop fuel tbl size hval hval2 s idx = Done (ProbeNew i) ->
  i = hval \/ exists e, read_entry tbl i = Done e /\ used e = 0.
Proof.
  induction fuel as [|f IH]; intros idx i H; [discriminate|].
  cbn [probe_loop] in H.
  destruct (probe_step size hval2 idx =? hval) eqn:Eh.
  - injection H as <-. left. apply Z.eqb_eq. assumption.
  - destruct (read_entry tbl (probe_step size hval2 idx)) as [e| |] eqn:Er;
      cbn [obind] in H; try discriminate.
    destruct (entry_matches hval s e) eqn:Em; [discriminate|].
    destruct (used e =? 0) eqn:Eu.
    + injection H as <-. right. exists e. split; [assumption|].
      apply Z.eqb_eq. assumption.
    + apply (IH _ _ H).
Qed.

(** A hit survives in every table that keeps the occupied entries. *)
Lemma probe_loop_hit_extends tbl2 fuel : forall idx i,
  hval <> 0 ->
  table_extends tbl tbl2 ->
  probe_loop fuel tbl size hval hval2 s idx = Done (ProbeHit i) ->
  probe_loop fuel tbl2 size hval hval2 s idx = Done (ProbeHit i).
Proof.
  induction fuel as [|f IH]; intros idx i Hh Hext H; [discriminate|].
  cbn [probe_loop] in *.
  destruct (probe_step size hval2 idx =? hval); [discriminate|].
  destruct (read_entry tbl (probe_step size hval2 idx)) as [e| |] eqn:Er;
    cbn [obind] in H; try discriminate.
  apply read_entry_done in Er. destruct Er as [H0 Hl].
  assert (Hu : entry_matches hval s e = true \/ (used e =? 0) = false -> used e <> 0).
  { intros [Hm|Hu].
    - apply entry_matches_used in Hm. lia.
    - apply Z.eqb_neq. assumption. }
  destruct (entry_matches hval s e) eqn:Em.
  - rewrite (read_entry_lookup tbl2 _ e H0); [|apply Hext; auto].
    cbn [obind]. rewrite Em. assumption.
  - destruct (used e =? 0) eqn:Eu; [discriminate|].
    rewrite (read_entry_lookup tbl2 _ e H0); [|apply Hext; auto].
    cbn [obind]. rewrite Em, Eu. apply IH; assumption.
Qed.

(** Once the new entry is written where the loop stopped on a free slot,
    the same loop finds it there. *)
Lemma probe_loop_after_insert new fuel : forall idx i,
  entry_matches hval s new = true ->
  i <> hval ->
  probe_loop fuel tbl size hval hval2 s idx = Done (ProbeNew i) ->
  probe_loop fuel (<[Z.to_nat i := new]> tbl) size hval hval2 s idx
    = Done (ProbeHit i).
Proof.
  induction fuel as [|f IH]; intros idx i Hnew Hi H; [discriminate|].
  cbn [probe_loop] in *.
  destruct (probe_step size hval2 idx =? hval) eqn:Eh.
  { injection H as <-. apply Z.eqb_eq in Eh. contradiction. }
  destruct (read_entry tbl (probe_step size hval2 idx)) as [e| |] eqn:Er;
    cbn [obind] in H; try discriminate.
  apply read_entry_done in Er. destruct Er as [H0 Hl].
  destruct (entry_matches hval s e) eqn:Em; [discriminate|].
  destruct (used e =? 0) eqn:Eu.
  - injection H as <-.
    rewrite (read_entry_lookup _ _ new H0).
    + cbn [obind]. rewrite Hnew. reflexivity.
    + apply list_lookup_insert_eq. apply lookup_lt_Some in Hl. assumption.
  - destruct (probe_loop_new _ _ _ H) as [->|(e' & He' & Hu')]; [contradiction|].
    apply read_entry_done in He'. destruct He' as [Hi0 Hli].
    assert (Hne : Z.to_nat i <> Z.to_nat (probe_step size hval2 idx)).
    { intros Heq. rewrite Heq, Hl in Hli. injection Hli as ->.
      apply Z.eqb_neq in Eu. contradiction. }
    rewrite (read_entry_lookup _ _ e H0).
    + cbn [obind]. rewrite Em, Eu. apply IH; assumption.
    + rewrite list_lookup_insert_ne by assumption. assumption.
Qed.

Hypothesis Hsize : 3 <= size < 4294967296.
Hypothesis Hlen : length tbl = Z.to_nat (size + 1).
Hypothesis Hhval : 1 <= hval <= size.
Hypothesis Hh2 : 1 <= hval2 <= size - 2.

(** The loop ends within [size] rounds, at an index in [1..size]. *)
Lemma probe_loop_done fuel : forall k,
  0 <= k < size -> size <= k + Z.of_nat fuel ->
  exists r,
    probe_loop fuel tbl size hval hval2 s (probe_idx size hval hval2 k) = Done r /\
    match r with ProbeHit i | ProbeNew i => 1 <= i <= size end.
Proof.
  induction fuel as [|f IH]; intros k Hk Hfuel; [simpl in Hfuel; lia|].
  cbn [probe_loop]. rewrite probe_step_idx by assumption.
  pose proof (probe_idx_range size hval hval2 (k + 1) ltac:(lia)) as Hr.
  destruct (probe_idx size hval hval2 (k + 1) =? hval) eqn:Eh.
  { eexists. split; [reflexivity|]. assumption. }
  destruct (read_entry_in_range tbl size (probe_idx size hval hval2 (k + 1)) Hlen
              ltac:(lia)) as [e He].
  rewrite He. cbn [obind].
  destruct (entry_matches hval s e).
  { eexists. split; [reflexivity|]. assumption. }
  destruct (used e =? 0).
  { eexists. split; [reflexivity|]. assumption. }
  assert (k + 1 < size).
  { destruct (Z.eq_dec (k + 1) size) as [E|]; [|lia].
    rewrite E, probe_idx_size in Eh by assumption.
    rewrite Z.eqb_refl in Eh. discriminate. }
  apply IH; lia.
Qed.

(** With a prime capacity, a loop that comes back to its start has seen
    every other slot occupied. *)
Lemma probe_loop_wrap fuel : forall k,
  Z.prime size ->
  0 <= k < size ->
  probe_loop fuel tbl size hval hval2 s (probe_idx size hval hval2 k)
    = Done (ProbeNew hval) ->
  forall m, k < m < size ->
    exists e, read_entry tbl (probe_idx size hval hval2 m) = Done e /\ used e <> 0.
Proof.
  induction fuel as [|f IH]; intros k Hp Hk H m Hm; [discriminate|].
  cbn [probe_loop] in H. rewrite probe_step_idx in H by assumption.
  destruct (probe_idx size hval hval2 (k + 1) =? hval) eqn:Eh.
  { apply Z.eqb_eq in Eh. exfalso.
    apply (probe_idx_not_start size hval hval2 (k + 1)); try assumption; lia. }
  destruct (read_entry tbl (probe_idx size hval hval2 (k + 1))) as [e| |] eqn:Er;
    cbn [obind] in H; try discriminate.
  destruct (entry_matches hval s e); [discriminate|].
  destruct (used e =? 0) eqn:Eu.
  { injection H as H. rewrite H, Z.eqb_refl in Eh. discriminate. }
  destruct (Z.eq_dec m (k + 1)) as [->|Hne].
  - exists e. split; [assumption|]. apply Z.eqb_neq. assumption.
  - apply (IH (k + 1)); try assumption; lia.
Qed.
End ProbeLoop.

(** ** The search part of [htab_hash] *)

Lemma table_hash_range size s : 3 <= size -> 1 <= table_hash size s <= size - 1.
Proof.
  intros Hs. unfold table_hash.
  pose proof (Z.mod_pos_bound (main_hash s) size ltac:(lia)) as Hm.
  destruct (_ =? 0) eqn:E.
  - apply Z.eqb_eq in E. rewrite E. change (ulong (0 + 1)) with 1. lia.
  - apply Z.eqb_neq in E. lia.
Qed.

Lemma second_hash_range size hval :
  3 <= size < 4294967296 ->
  ulong (size - 2) = size - 2 /\ 1 <= second_hash size hval <= size - 2.
Proof.
  intros Hs. assert (Hu : ulong (size - 2) = size - 2) by (apply ulong_small; lia).
  split; [assumption|]. unfold second_hash. rewrite Hu.
  pose proof (Z.mod_pos_bound hval (size - 2) ltac:(lia)) as Hm.
  rewrite ulong_small; lia.
Qed.

Section Search.
Variables (tbl : list htab_entry) (size : Z) (s : list Byte.byte).
Hypothesis Hsize : 3 <= size < 4294967296.
Hypothesis Hlen : length tbl = Z.to_nat (size + 1).

Let hval := table_hash size s.
Let hval2 := second_hash size hval.

Lemma search_hval_range : 1 <= hval <= size.
Proof. pose proof (table_hash_range size s ltac:(lia)). subst hval. lia. Qed.

Lemma search_hval2_range : 1 <= hval2 <= size - 2.
Proof. apply second_hash_range. assumption. Qed.

(** The search ends within [size] rounds of the loop, at an index in
    [1..size]. *)
Lemma htab_search_done fuel :
  size <= Z.of_nat fuel ->
  exists r, htab_search fuel tbl size s = Done r /\
    match r with ProbeHit i | ProbeNew i => 1 <= i <= size end.
Proof.
  intros Hfuel. unfold htab_search. fold hval. fold hval2.
  pose proof search_hval_range as Hh. pose proof search_hval2_range as Hh2.
  destruct (size =? 0) eqn:E0; [apply Z.eqb_eq in E0; lia|].
  destruct (read_entry_in_range tbl size hval Hlen ltac:(lia)) as [e He].
  rewrite He. cbn [obind].
  destruct (used e =? 0); cbn [negb].
  { eexists. split; [reflexivity|]. assumption. }
  destruct (entry_matches hval s e).
  { eexists. split; [reflexivity|]. assumption. }
  destruct (second_hash_range size hval Hsize) as [Hu _]. rewrite Hu.
  destruct (size - 2 =? 0) eqn:E2; [apply Z.eqb_eq in E2; lia|].
  assert (Hdone := probe_loop_done tbl size hval hval2 s Hsize Hlen Hh Hh2 fuel 0
                     ltac:(lia) ltac:(lia)).
  rewrite probe_idx_0 in Hdone by assumption. exact Hdone.
Qed.

Lemma htab_search_hit fuel i :
  htab_search fuel tbl size s = Done (ProbeHit i) ->
  exists e, read_entry tbl i = Done e /\ entry_matches hval s e = true.
Proof.
  unfold htab_search. fold hval. fold hval2. intros H.
  destruct (size =? 0); [discriminate|].
  destruct (read_entry tbl hval) as [e| |] eqn:Er; cbn [obind] in H; try discriminate.
  destruct (used e =? 0); cbn [negb] in H; [discriminate|].
  destruct (entry_matches hval s e) eqn:Em.
  - injection H as <-. exists e. split; assumption.
  - destruct (ulong (size - 2) =? 0); [discriminate|].
    apply (probe_loop_hit _ _ _ _ _ _ _ _ H).
Qed.

(** With a prime capacity, a search that does not find the string stops
    on a free slot unless every slot [1..size] is occupied. *)
Lemma htab_search_new fuel i :
  Z.prime size ->
  htab_search fuel tbl size s = Done (ProbeNew i) ->
  (exists e, read_entry tbl i = Done e /\ used e = 0) \/
  (forall j, 1 <= j <= size ->
     exists e, read_entry tbl j = Done e /\ used e <> 0).
Proof.
  unfold htab_search. fold hval. fold hval2. intros Hp H.
  pose proof search_hval_range as Hh. pose proof search_hval2_range as Hh2.
  destruct (size =? 0); [discriminate|].
  destruct (read_entry tbl hval) as [e| |] eqn:Er; cbn [obind] in H; try discriminate.
  destruct (used e =? 0) eqn:Eu; cbn [negb] in H.
  { injection H as <-. left. exists e. split; [assumption|].
    apply Z.eqb_eq. assumption. }
  destruct (entry_matches hval s e); [discriminate|].
  destruct (ulong (size - 2) =? 0); [discriminate|].
  destruct (probe_loop_new _ _ _ _ _ _ _ _ H) as [->|Hfree]; [|left; assumption].
  right. intros j Hj.
  destruct (probe_idx_surjective size hval hval2 j Hp Hh ltac:(lia) Hj)
    as (k & Hk & <-).
  destruct (Z.eq_dec k 0) as [->|Hk0].
  - rewrite probe_idx_0 by assumption. exists e. split; [assumption|].
    apply Z.eqb_neq. assumption.
  - apply probe_loop_wrap with (s := s) (fuel := fuel) (k := 0);
      try assumption; try lia.
    rewrite probe_idx_0 by assumption. exact H.
Qed.

(** A string that is found stays found, at the same index, in every table
    that keeps the occupied entries. *)
Lemma htab_search_hit_extends tbl2 fuel i :
  table_extends tbl tbl2 ->
  htab_search fuel tbl size s = Done (ProbeHit i) ->
  htab_search fuel tbl2 size s = Done (ProbeHit i).
Proof.
  unfold htab_search. fold hval. fold hval2. intros Hext H.
  pose proof search_hval_range as Hh.
  destruct (size =? 0); [discriminate|].
  destruct (read_entry tbl hval) as [e| |] eqn:Er; cbn [obind] in H; try discriminate.
  apply read_entry_done in Er. destruct Er as [H0 Hl].
  destruct (used e =? 0) eqn:Eu; cbn [negb] in H; [discriminate|].
  rewrite (read_entry_lookup tbl2 hval e H0).
  2:{ apply Hext; [assumption|]. apply Z.eqb_neq. assumption. }
  cbn [obind]. rewrite Eu. cbn [negb].
  destruct (entry_matches hval s e); [assumption|].
  destruct (ulong (size - 2) =? 0); [discriminate|].
  apply probe_loop_hit_extends with (tbl := tbl); [lia | assumption | assumption].
Qed.

(** After the string is written at the index where the search stopped, the
    search finds it there. *)
Lemma htab_search_after_insert fuel i :
  htab_search fuel tbl size s = Done (ProbeNew i) ->
  htab_search fuel (<[Z.to_nat i := mk_entry hval (Some (c_str s))]> tbl) size s
    = Done (ProbeHit i).
Proof.
  unfold htab_search. fold hval. fold hval2. intros H.
  pose proof search_hval_range as Hh.
  pose proof (entry_matches_new hval s) as Hnew.
  destruct (size =? 0); [discriminate|].
  destruct (read_entry tbl hval) as [e| |] eqn:Er; cbn [obind] in H; try discriminate.
  apply read_entry_done in Er. destruct Er as [H0 Hl].
  assert (Hat : forall x, read_entry (<[Z.to_nat hval := x]> tbl) hval = Done x).
  { intros x. apply read_entry_lookup; [assumption|].
    apply list_lookup_insert_eq. apply lookup_lt_Some in Hl. assumption. }
  assert (Hhit : (do e0 <- Done (mk_entry hval (Some (c_str s)));
                 if negb (used e0 =? 0)
                 then if entry_matches hval s e0 then Done (ProbeHit hval)
                      else if ulong (size - 2) =? 0 then Fault
                      else probe_loop fuel
                             (<[Z.to_nat hval := mk_entry hval (Some (c_str s))]> tbl)
                             size hval hval2 s hval
                 else Done (ProbeNew hval)) = Done (ProbeHit hval)).
  { cbn [obind used]. rewrite Hnew.
    destruct (hval =? 0) eqn:E; [apply Z.eqb_eq in E; lia|]. reflexivity. }
  destruct (used e =? 0) eqn:Eu; cbn [negb] in H.
  { injection H as <-. rewrite Hat. exact Hhit. }
  destruct (entry_matches hval s e) eqn:Em; [discriminate|].
  destruct (ulong (size - 2) =? 0) eqn:E2; [discriminate|].
  destruct (Z.eq_dec i hval) as [->|Hne].
  { rewrite Hat. exact Hhit. }
  destruct (probe_loop_new _ _ _ _ _ _ _ _ H) as [->|(e' & He' & Hu')]; [contradiction|].
  apply read_entry_done in He'. destruct He' as [Hi0 Hli].
  rewrite (read_entry_lookup _ hval e H0).
  2:{ rewrite list_lookup_insert_ne by lia. assumption. }
  cbn [obind]. rewrite Eu. cbn [negb]. rewrite Em.
  apply probe_loop_after_insert; assumption.
Qed.
End Search.

(** ** Occupied slots and [htab_filled] *)

Lemma used_count_nonneg tbl : 0 <= used_count tbl.
Proof.
  induction tbl as [|e tbl IH]; simpl; [lia|].
  destruct (used e =? 0); lia.
Qed.

Lemma used_count_insert tbl : forall (i : nat) new,
  used_count (<[i := new]> tbl) <= used_count tbl + 1.
Proof.
  induction tbl as [|e tbl IH]; intros i new; [simpl; lia|].
  destruct i as [|i]; simpl.
  - destruct (used new =? 0), (used e =? 0); lia.
  - specialize (IH i new). destruct (used e =? 0); lia.
Qed.

Lemma used_count_all tbl :
  (forall j : nat, (j < length tbl)%nat ->
     exists e, tbl !! j = Some e /\ used e <> 0) ->
  used_count tbl = Z.of_nat (length tbl).
Proof.
  induction tbl as [|e tbl IH]; intros H; [reflexivity|].
  cbn [used_count length].
  destruct (H 0%nat ltac:(simpl; lia)) as (e0 & He0 & Hu0).
  simpl in He0. injection He0 as <-.
  destruct (used e =? 0) eqn:E; [apply Z.eqb_eq in E; contradiction|].
  rewrite IH; [lia|].
  intros j Hj. apply (H (S j)). simpl. lia.
Qed.

(** When every slot [1..size] is occupied, at least [size] entries are. *)
Lemma used_count_full tbl size :
  0 <= size -> length tbl = Z.to_nat (size + 1) ->
  (forall j, 1 <= j <= size ->
     exists e, read_entry tbl j = Done e /\ used e <> 0) ->
  size <= used_count tbl.
Proof.
  intros Hs Hlen H. destruct tbl as [|e0 rest]; [simpl in Hlen; lia|].
  cbn [used_count]. simpl in Hlen.
  rewrite (used_count_all rest).
  - destruct (used e0 =? 0); lia.
  - intros j Hj.
    destruct (H (Z.of_nat (S j)) ltac:(lia)) as (e & He & Hu).
    apply read_entry_done in He. destruct He as [_ He].
    rewrite Nat2Z.id in He. simpl in He. exists e. split; assumption.
Qed.

(** ** One call of [htab_hash] *)

Lemma htab_inv_wf st : htab_inv st -> htab_wf st.
Proof. intros [H _]. exact H. Qed.

(** A call that returns a non-zero index keeps the invariant and every
    occupied entry, and leaves the string findable at that index. *)
Lemma htab_hash_success fuel malloc_ok s st i st' :
  htab_inv st -> htab_size st <= Z.of_nat fuel ->
  htab_hash fuel malloc_ok s st = Done (i, st') -> i <> 0 ->
  htab_inv st' /\ htab_size st' = htab_size st /\
  exists tbl tbl',
    htab_table st = Some tbl /\ htab_table st' = Some tbl' /\
    table_extends tbl tbl' /\
    htab_search fuel tbl' (htab_size st) s = Done (ProbeHit i).
Proof.
  intros Hinv Hfuel H Hi.
  destruct Hinv as ((tbl & Ht & Hsize & Hlen & Hfill) & Hp & Hcount).
  specialize (Hcount tbl Ht).
  unfold htab_hash in H. rewrite Ht in H.
  destruct (htab_search fuel tbl (htab_size st) s) as [r| |] eqn:Es;
    cbn [obind] in H; try discriminate.
  destruct r as [idx|idx].
  - injection H as <- <-.
    split; [|split; [reflexivity|]].
    + split; [exists tbl; auto|]. split; [assumption|].
      intros t Ht'. rewrite Ht in Ht'. injection Ht' as <-. assumption.
    + exists tbl, tbl. repeat split; auto.
  - destruct (htab_size st <=? htab_filled st) eqn:Efull.
    { injection H as <- _. contradiction. }
    apply Z.leb_gt in Efull.
    destruct (read_entry tbl idx) as [e| |] eqn:Er; cbn [obind] in H; try discriminate.
    destruct malloc_ok; [|injection H as <- _; contradiction].
    injection H as <- <-. cbn [htab_size htab_table htab_filled].
    apply read_entry_done in Er. destruct Er as [Hi0 Hl].
    assert (Hfree : used e = 0).
    { destruct (htab_search_new tbl (htab_size st) s Hsize Hlen fuel idx Hp Es)
        as [(e' & He' & Hu')|Hall].
      - apply read_entry_done in He'. destruct He' as [_ He'].
        rewrite Hl in He'. injection He' as <-. assumption.
      - exfalso. pose proof (used_count_full tbl (htab_size st) ltac:(lia) Hlen Hall).
        lia. }
    set (new := mk_entry (table_hash (htab_size st) s) (Some (c_str s))).
    assert (Hext : table_extends tbl (<[Z.to_nat idx := new]> tbl)).
    { split; [apply length_insert|].
      intros j e' Hj Hu. rewrite list_lookup_insert_ne; [assumption|].
      intros <-. rewrite Hl in Hj. injection Hj as <-. contradiction. }
    split; [|split; [reflexivity|]].
    + split; [|split; [assumption|]].
      * exists (<[Z.to_nat idx := new]> tbl). cbn [htab_size htab_table htab_filled].
        repeat split; try lia.
        -- rewrite length_insert. assumption.
        -- apply ulong_range.
      * cbn [htab_size htab_table htab_filled].
        intros t Ht'. injection Ht' as <-.
        pose proof (used_count_insert tbl (Z.to_nat idx) new).
        rewrite ulong_small by lia. lia.
    + exists tbl, (<[Z.to_nat idx := new]> tbl).
      repeat split; auto; try apply Hext.
      apply htab_search_after_insert; assumption.
Qed.

Lemma htab_hash_found fuel malloc_ok s st tbl i :
  htab_table st = Some tbl ->
  htab_search fuel tbl (htab_size st) s = Done (ProbeHit i) ->
  htab_hash fuel malloc_ok s st = Done (i, st).
Proof.
  intros Ht Hs. unfold htab_hash. rewrite Ht, Hs. reflexivity.
Qed.

Lemma used_count_replicate n : used_count (replicate n free_entry) = 0.
Proof. induction n as [|n IH]; simpl; [reflexivity | assumption]. Qed.

Lemma htab_wf_empty p : 3 <= p < 4294967296 -> htab_wf (htab_empty p).
Proof.
  intros Hp. eexists. split; [reflexivity|]. cbn [htab_size htab_filled htab_empty].
  repeat split; try lia. apply length_replicate.
Qed.

Lemma htab_inv_empty p :
  3 <= p < 4294967296 -> Z.prime p -> htab_inv (htab_empty p).
Proof.
  intros Hp Hprime. split; [apply htab_wf_empty; assumption|].
  split; [assumption|]. intros tbl Ht. injection Ht as <-.
  rewrite used_count_replicate. reflexivity.
Qed.

Lemma prime_5 : Z.prime 5.
Proof.
  split; [lia|]. intros n Hn [q Hq].
  assert (Hc : n = 2 \/ n = 3 \/ n = 4) by lia.
  destruct Hc as [->|[->| ->]]; lia.
Qed.

(** ** Stability of the index of a string *)

(** Successful calls keep a string findable at its index. *)
Lemma htab_hash_all_keeps fuel s i : forall calls st idxs stn,
  htab_inv st -> htab_size st <= Z.of_nat fuel ->
  (exists tbl, htab_table st = Some tbl /\
     htab_search fuel tbl (htab_size st) s = Done (ProbeHit i)) ->
  htab_hash_all fuel calls st = Done (idxs, stn) ->
  Forall (fun j => j <> 0) idxs ->
  exists tbl, htab_table stn = Some tbl /\
    htab_search fuel tbl (htab_size stn) s = Done (ProbeHit i).
Proof.
  induction calls as [|[m t] calls IH]; intros st idxs stn Hinv Hfuel Hfound Hrun Hnz.
  - simpl in Hrun. injection Hrun as <- <-. assumption.
  - cbn [htab_hash_all] in Hrun.
    destruct (htab_hash fuel m t st) as [[j st1]| |] eqn:Ecall;
      cbn [obind] in Hrun; try discriminate.
    destruct (htab_hash_all fuel calls st1) as [[js st2]| |] eqn:Erest;
      cbn [obind] in Hrun; try discriminate.
    injection Hrun as <- <-.
    apply Forall_cons in Hnz. destruct Hnz as [Hj Hjs].
    destruct (htab_hash_success fuel m t st j st1 Hinv Hfuel Ecall Hj)
      as (Hinv1 & Hsz & tbl & tbl1 & Ht & Ht1 & Hext & _).
    apply (IH st1 js st2); try assumption; [lia|].
    destruct Hfound as (tbl0 & Ht0 & Hs0).
    rewrite Ht in Ht0. injection Ht0 as <-.
    exists tbl1. split; [assumption|]. rewrite Hsz.
    destruct Hinv as ((tbl' & Ht' & Hsize & Hlen & _) & _).
    rewrite Ht in Ht'. injection Ht' as <-.
    apply (htab_search_hit_extends tbl (htab_size st) s Hsize Hlen tbl1 fuel i Hext Hs0).
Qed.

(** Where the index of a string is stable: in a table that satisfies the
    invariant (the state [htab_create] leaves, kept by every call whose
    allocation succeeds), once a call of
    [htab_hash] for [s] has returned the non-zero index [i], a later call for
    [s] returns [i] again, whatever successful calls (for any strings, each
    returning a non-zero index) were made in between; that later call leaves
    the table unchanged. *)
Theorem htab_hash_stable_index fuel st0 m0 s i st1 calls idxs stn m :
  htab_inv st0 -> htab_size st0 <= Z.of_nat fuel ->
  htab_hash fuel m0 s st0 = Done (i, st1) -> i <> 0 ->
  htab_hash_all fuel calls st1 = Done (idxs, stn) ->
  Forall (fun j => j <> 0) idxs ->
  htab_hash fuel m s stn = Done (i, stn).
Proof.
  intros Hinv Hfuel Hfirst Hi Hrun Hnz.
  destruct (htab_hash_success fuel m0 s st0 i st1 Hinv Hfuel Hfirst Hi)
    as (Hinv1 & Hsz & tbl & tbl1 & Ht & Ht1 & Hext & Hs).
  destruct (htab_hash_all_keeps fuel s i calls st1 idxs stn Hinv1 ltac:(lia))
    as (tbln & Htn & Hsn); try assumption.
  - exists tbl1. split; [assumption|]. rewrite Hsz. assumption.
  - apply (htab_hash_found fuel m s stn tbln i Htn Hsn).
Qed.

Lemma htab_hash_stable_index_example :
  htab_hash 5 true str_a (htab_empty 5) =
    Done (1, mk_htab (Some [free_entry; mk_entry 1 (Some str_a); free_entry;
                            free_entry; free_entry; free_entry]) 5 1) /\
  htab_hash 5 true str_a
    (mk_htab (Some [free_entry; mk_entry 1 (Some str_a);
                    mk_entry 1 (Some str_f); free_entry;
                    mk_entry 1 (Some str_b); free_entry]) 5 3) =
    Done (1, mk_htab (Some [free_entry; mk_entry 1 (Some str_a);
                            mk_entry 1 (Some str_f); free_entry;
                            mk_entry 1 (Some str_b); free_entry]) 5 3).
Proof.
  split; [reflexivity|].
  apply (htab_hash_stable_index 5 (htab_empty 5) true str_a 1
           (mk_htab (Some [free_entry; mk_entry 1 (Some str_a); free_entry;
                           free_entry; free_entry; free_entry]) 5 1)
           [(true, str_b); (true, str_f)] [4; 2]).
  - apply htab_inv_empty; [lia | exact prime_5].
  - simpl. lia.
  - reflexivity.
  - discriminate.
  - reflexivity.
  - repeat constructor; discriminate.
Defined.

(** C3: the index of a string is not stable after failed allocations.  A
    call whose [malloc] fails has already marked its slot as used, and
    [htab_filled] does not count it.  In the table [htab_create] makes for a
    request of 5, after two such calls (for ["c"] and ["d"]) and three
    insertions (["e"], ["h"], ["i"]) every slot is occupied while
    [htab_filled] is 3.  The search for ["a"] then comes back to its start,
    the table does not count as full, and the call overwrites slot 1 and
    returns 1; the successful call for another string, ["b"], overwrites the
    same slot and returns 1 as well; and the next call for ["a"] returns 0
    instead of 1. *)
Theorem htab_hash_index_lost :
  exists st0 st1 st2 st3,
    htab_create 10 true 5 = Done (1, htab_empty 5) /\
    htab_hash_all 5
      [(false, str_c); (false, str_d); (true, str_e); (true, str_h); (true, str_i)]
      (htab_empty 5)
    = Done ([0; 0; 4; 1; 5], st0) /\
    htab_filled st0 = 3 /\
    htab_hash 5 true str_a st0 = Done (1, st1) /\
    htab_hash_all 5 [(true, str_b)] st1 = Done ([1], st2) /\
    htab_hash 5 true str_a st2 = Done (0, st3).
Proof.
  eexists. eexists. eexists. eexists.
  split; [vm_compute; reflexivity|].
  split; [vm_compute; reflexivity|].
  split; [reflexivity|].
  split; [vm_compute; reflexivity|].
  split; [vm_compute; reflexivity|].
  vm_compute. reflexivity.
Qed.

(** The invariant of the stable case is what [htab_create] establishes ... *)
Lemma htab_create_inv fuel c p :
  2 <= c <= p -> 5 <= p <= 4294836225 -> Z.prime p ->
  (forall q, c <= q < p -> 5 <= q -> ~ Z.prime q) ->
  2 * p <= Z.of_nat fuel ->
  exists st, htab_create fuel true c = Done (1, st) /\ htab_inv st /\ htab_size st = p.
Proof.
  intros Hc Hp Hprime Hleast Hfuel. exists (htab_empty p).
  rewrite (htab_create_next_prime fuel true c p Hc Hp Hprime Hleast Hfuel).
  split; [reflexivity|]. split; [|reflexivity].
  apply htab_inv_empty; [lia | assumption].
Qed.

(** ... and what every call keeps, as long as its allocation does not fail. *)
Lemma htab_hash_keeps_inv fuel s st i st' :
  htab_inv st -> htab_size st <= Z.of_nat fuel ->
  htab_hash fuel true s st = Done (i, st') -> htab_inv st'.
Proof.
  intros Hinv Hfuel H.
  destruct (Z.eq_dec i 0) as [->|Hi].
  - pose proof Hinv as ((tbl & Ht & Hsize & Hlen & Hfill) & _).
    unfold htab_hash in H. rewrite Ht in H.
    destruct (htab_search_done tbl (htab_size st) s Hsize Hlen fuel Hfuel)
      as (r & Hr & Hrange).
    rewrite Hr in H. cbn [obind] in H. destruct r as [idx|idx].
    + injection H as _ <-. assumption.
    + destruct (htab_size st <=? htab_filled st).
      * injection H as <-. assumption.
      * destruct (read_entry tbl idx); cbn [obind] in H; try discriminate.
        injection H as Hidx _. lia.
  - apply (htab_hash_success fuel true s st i st' Hinv Hfuel H Hi).
Qed.

(** With enough fuel every call on a well-formed table returns, with an
    index in [0..htab_size] and the capacity unchanged. *)
Lemma htab_hash_done fuel malloc_ok s st :
  htab_wf st -> htab_size st <= Z.of_nat fuel ->
  exists i st', htab_hash fuel malloc_ok s st = Done (i, st') /\
    0 <= i <= htab_size st /\ htab_size st' = htab_size st.
Proof.
  intros (tbl & Ht & Hsize & Hlen & Hfill) Hfuel.
  unfold htab_hash. rewrite Ht.
  destruct (htab_search_done tbl (htab_size st) s Hsize Hlen fuel Hfuel)
    as (r & Hr & Hrange).
  rewrite Hr. cbn [obind]. destruct r as [idx|idx].
  - eexists _, _. split; [reflexivity|]. split; [lia | reflexivity].
  - destruct (htab_size st <=? htab_filled st).
    + eexists _, _. split; [reflexivity|]. split; [lia | reflexivity].
    + destruct (read_entry_in_range tbl (htab_size st) idx Hlen ltac:(lia)) as [e He].
      rewrite He. cbn [obind].
      destruct malloc_ok; eexists _, _; (split; [reflexivity|]);
        (split; [lia | reflexivity]).
Qed.

(** The invariant after a whole history of calls without a failed
    allocation, and hence in every table that went from [htab_create]
    through such calls only. *)
Lemma htab_inv_after_history fuel : forall calls st idxs st',
  htab_inv st -> htab_size st <= Z.of_nat fuel ->
  Forall (fun c => fst c = true) calls ->
  htab_hash_all fuel calls st = Done (idxs, st') ->
  htab_inv st' /\ htab_size st' = htab_size st.
Proof.
  induction calls as [|[m t] calls IH]; intros st idxs st' Hinv Hfuel Hok Hrun.
  - simpl in Hrun. injection Hrun as _ <-. split; [assumption | reflexivity].
  - cbn [htab_hash_all] in Hrun.
    apply Forall_cons in Hok. destruct Hok as [Hm Hok]. simpl in Hm. subst m.
    destruct (htab_hash_done fuel true t st (htab_inv_wf st Hinv) Hfuel)
      as (i & st1 & Hcall & _ & Hsz).
    rewrite Hcall in Hrun. cbn [obind] in Hrun.
    destruct (htab_hash_all fuel calls st1) as [[js st2]| |] eqn:Erest;
      cbn [obind] in Hrun; try discriminate.
    injection Hrun as _ <-.
    destruct (IH st1 js st2) as [Hinv2 Hsz2]; try assumption.
    + apply (htab_hash_keeps_inv fuel t st i st1 Hinv Hfuel Hcall).
    + lia.
    + split; [assumption | lia].
Qed.

(** ** Strings found at their indices *)

Lemma entry_matches_same_string h1 h2 s t e :
  entry_matches h1 s e = true -> entry_matches h2 t e = true -> c_str s = c_str t.
Proof.
  unfold entry_matches, safe_strcmp_eq0. intros H1 H2.
  apply andb_true_iff in H1, H2. destruct H1 as [_ H1]. destruct H2 as [_ H2].
  apply list_byte_eqb_eq in H1, H2. congruence.
Qed.

Lemma probe_step_range size hval2 idx :
  3 <= size < 4294967296 -> 1 <= hval2 <= size - 2 -> 1 <= idx <= size ->
  1 <= probe_step size hval2 idx <= size.
Proof.
  intros Hs Hh2 Hi.
  rewrite <- (probe_idx_0 size idx hval2 Hi).
  rewrite probe_step_idx by assumption.
  apply probe_idx_range. lia.
Qed.

Lemma probe_loop_index_range tbl size hval hval2 s fuel : forall idx r,
  3 <= size < 4294967296 -> 1 <= hval2 <= size - 2 -> 1 <= idx <= size ->
  probe_loop fuel tbl size hval hval2 s idx = Done r ->
  match r with ProbeHit k | ProbeNew k => 1 <= k <= size end.
Proof.
  induction fuel as [|f IH]; intros idx r Hs Hh2 Hi H; [discriminate|].
  cbn [probe_loop] in H.
  pose proof (probe_step_range size hval2 idx Hs Hh2 Hi) as Hstep.
  destruct (probe_step size hval2 idx =? hval).
  { injection H as <-. assumption. }
  destruct (read_entry tbl (probe_step size hval2 idx)) as [e| |];
    cbn [obind] in H; try discriminate.
  destruct (entry_matches hval s e).
  { injection H as <-. assumption. }
  destruct (used e =? 0).
  { injection H as <-. assumption. }
  apply (IH _ _ Hs Hh2 Hstep H).
Qed.

Lemma htab_search_index_range tbl size s fuel r :
  3 <= size < 4294967296 ->
  htab_search fuel tbl size s = Done r ->
  match r with ProbeHit k | ProbeNew k => 1 <= k <= size end.
Proof.
  intros Hs. unfold htab_search.
  pose proof (table_hash_range size s ltac:(lia)) as Hh.
  destruct (size =? 0); [discriminate|].
  destruct (read_entry tbl (table_hash size s)) as [e| |];
    cbn [obind]; try discriminate.
  destruct (used e =? 0); cbn [negb].
  { intros Hd. injection Hd as <-. lia. }
  destruct (entry_matches _ s e).
  { intros Hd. injection Hd as <-. lia. }
  destruct (ulong (size - 2) =? 0); [discriminate|].
  apply probe_loop_index_range; [assumption | | lia].
  apply second_hash_range. assumption.
Qed.

(** Every string of a run of successful calls is found at its index in the
    final table. *)
Lemma htab_hash_all_found fuel : forall calls st idxs stn,
  htab_inv st -> htab_size st <= Z.of_nat fuel ->
  htab_hash_all fuel calls st = Done (idxs, stn) ->
  Forall (fun j => j <> 0) idxs ->
  htab_inv stn /\ htab_size stn = htab_size st /\
  exists tbl, htab_table stn = Some tbl /\
    Forall2 (fun c i => htab_search fuel tbl (htab_size stn) (snd c) = Done (ProbeHit i))
            calls idxs.
Proof.
  induction calls as [|[m s] calls IH]; intros st idxs stn Hinv Hfuel Hrun Hnz.
  - simpl in Hrun. injection Hrun as <- <-.
    split; [assumption|]. split; [reflexivity|].
    destruct Hinv as ((tbl & Ht & _) & _). exists tbl. split; [assumption | constructor].
  - cbn [htab_hash_all] in Hrun.
    destruct (htab_hash fuel m s st) as [[i st1]| |] eqn:Ecall;
      cbn [obind] in Hrun; try discriminate.
    destruct (htab_hash_all fuel calls st1) as [[js st2]| |] eqn:Erest;
      cbn [obind] in Hrun; try discriminate.
    injection Hrun as <- <-.
    apply Forall_cons in Hnz. destruct Hnz as [Hi Hjs].
    destruct (htab_hash_success fuel m s st i st1 Hinv Hfuel Ecall Hi)
      as (Hinv1 & Hsz & tbl & tbl1 & Ht & Ht1 & Hext & Hs).
    destruct (IH st1 js st2 Hinv1 ltac:(lia) Erest Hjs)
      as (Hinv2 & Hsz2 & tbl2 & Ht2 & Hall).
    split; [assumption|]. split; [lia|].
    exists tbl2. split; [assumption|]. constructor; [|assumption].
    destruct (htab_hash_all_keeps fuel s i calls st1 js st2 Hinv1 ltac:(lia))
      as (tbl2' & Ht2' & Hs2); try assumption.
    + exists tbl1. split; [assumption|]. rewrite Hsz. assumption.
    + rewrite Ht2 in Ht2'. injection Ht2' as <-. assumption.
Qed.

(** Strings found at their indices in one table have different indices
    when they are different. *)
Lemma probe_hits_distinct fuel tbl size : forall calls idxs,
  Forall2 (fun (c : bool * list Byte.byte) i =>
             htab_search fuel tbl size (snd c) = Done (ProbeHit i)) calls idxs ->
  List.NoDup (map (fun c => c_str (snd c)) calls) ->
  List.NoDup idxs.
Proof.
  intros calls idxs Hall Hnd.
  induction Hall as [|c i calls idxs Hc Hall IH].
  - constructor.
  - simpl in Hnd. apply List.NoDup_cons_iff in Hnd. destruct Hnd as [Hnotin Hnd].
    constructor; [|apply IH; assumption].
    intros Hin. apply Hnotin. clear IH Hnd Hnotin.
    induction Hall as [|c' i' calls idxs Hc' Hall IH]; [destruct Hin|].
    destruct Hin as [->|Hin]; [|right; apply IH; assumption].
    left. simpl.
    destruct (htab_search_hit _ _ _ _ _ Hc) as (e & He & Hm).
    destruct (htab_search_hit _ _ _ _ _ Hc') as (e' & He' & Hm').
    rewrite He in He'. injection He' as <-.
    symmetry. apply (entry_matches_same_string _ _ _ _ _ Hm Hm').
Qed.

(** ** Filling the table *)

Lemma filled_with_empty p : 3 <= p < 4294967296 -> filled_with p [] (htab_empty p).
Proof.
  intros Hp. split; [apply htab_wf_empty; assumption|].
  split; [reflexivity|]. split; [reflexivity|].
  intros tbl Ht j e Hj Hu. injection Ht as <-.
  apply lookup_replicate in Hj. destruct Hj as [-> _]. contradiction.
Qed.

(** A string that is not in the table is not found. *)
Lemma filled_with_search_new fuel p inserted st tbl s :
  filled_with p inserted st -> htab_table st = Some tbl ->
  ~ In (c_str s) (map c_str inserted) ->
  p <= Z.of_nat fuel ->
  exists idx, htab_search fuel tbl p s = Done (ProbeNew idx) /\ 1 <= idx <= p.
Proof.
  intros ((tbl' & Ht' & Hsize & Hlen & Hfill) & Hp & Hcnt & Hstored) Ht Hnew Hfuel.
  rewrite Ht in Ht'. injection Ht' as <-. subst p.
  destruct (htab_search_done tbl (htab_size st) s Hsize Hlen fuel Hfuel)
    as (r & Hr & Hrange).
  destruct r as [idx|idx]; [exfalso | exists idx; split; assumption].
  destruct (htab_search_hit tbl (htab_size st) s fuel idx Hr) as (e & He & Hm).
  apply read_entry_done in He. destruct He as [_ He].
  pose proof (entry_matches_used _ _ _ Hm) as Hu.
  pose proof (table_hash_range (htab_size st) s ltac:(lia)) as Hh.
  destruct (Hstored tbl Ht _ e He ltac:(lia)) as (t & Hstr & Hin).
  apply Hnew. pose proof (entry_matches_stored _ _ _ _ Hm Hstr) as Heq.
  apply in_map_iff in Hin. destruct Hin as (t0 & <- & Hin0).
  rewrite c_str_idempotent in Heq. rewrite <- Heq.
  apply in_map. assumption.
Qed.

(** Inserting a new string below the capacity succeeds. *)
Lemma filled_with_insert fuel p inserted st s :
  filled_with p inserted st ->
  ~ In (c_str s) (map c_str inserted) ->
  Z.of_nat (length inserted) < p ->
  p <= Z.of_nat fuel ->
  exists i st', htab_hash fuel true s st = Done (i, st') /\ i <> 0 /\
    filled_with p (inserted ++ [s]) st'.
Proof.
  intros Hfw Hnew Hroom Hfuel.
  pose proof Hfw as ((tbl & Ht & Hsize & Hlen & Hfill) & Hp & Hcnt & Hstored).
  destruct (filled_with_search_new fuel p inserted st tbl s Hfw Ht Hnew Hfuel)
    as (idx & Hs & Hidx).
  unfold htab_hash. rewrite Ht, Hp, Hs. cbn [obind].
  destruct (p <=? htab_filled st) eqn:Efull; [apply Z.leb_le in Efull; lia|].
  destruct (read_entry_in_range tbl p idx ltac:(rewrite Hlen, Hp; reflexivity)
              ltac:(lia)) as [e He].
  rewrite He. cbn [obind]. eexists _, _. split; [reflexivity|]. split; [lia|].
  apply read_entry_done in He. destruct He as [_ He].
  split; [|split; [reflexivity|split]].
  - eexists. cbn [htab_table htab_size htab_filled].
    split; [reflexivity|]. repeat split; try lia.
    + rewrite length_insert. rewrite Hlen, Hp. reflexivity.
    + apply ulong_range.
  - cbn [htab_filled]. rewrite length_app. simpl.
    rewrite ulong_small by lia. lia.
  - cbn [htab_table]. intros tbl2 Ht2 j e' Hj Hu. injection Ht2 as <-.
    destruct (Nat.eq_dec (Z.to_nat idx) j) as [<-|Hne].
    + rewrite list_lookup_insert_eq in Hj by (apply lookup_lt_Some in He; assumption).
      injection Hj as <-. exists (c_str s). split; [reflexivity|].
      rewrite map_app. apply in_or_app. right. simpl. left. reflexivity.
    + rewrite list_lookup_insert_ne in Hj by assumption.
      destruct (Hstored tbl Ht j e' Hj Hu) as (t & Hstr & Hin).
      exists t. split; [assumption|].
      rewrite map_app. apply in_or_app. left. assumption.
Qed.

Lemma filled_with_insert_all fuel p : forall strs inserted st,
  filled_with p inserted st ->
  List.NoDup (map c_str (inserted ++ strs)) ->
  Z.of_nat (length (inserted ++ strs)) <= p ->
  p <= Z.of_nat fuel ->
  exists idxs stn,
    htab_hash_all fuel (map (pair true) strs) st = Done (idxs, stn) /\
    length idxs = length strs /\
    Forall (fun i => i <> 0) idxs /\
    filled_with p (inserted ++ strs) stn.
Proof.
  induction strs as [|s strs IH]; intros inserted st Hfw Hnd Hlen Hfuel.
  - exists [], st. rewrite app_nil_r.
    split; [reflexivity|]. split; [reflexivity|]. split; [constructor | assumption].
  - assert (Hnew : ~ In (c_str s) (map c_str inserted)).
    { rewrite map_app in Hnd. simpl in Hnd. apply NoDup_remove_2 in Hnd.
      intros Hin. apply Hnd. apply in_or_app. left. assumption. }
    rewrite length_app in Hlen. simpl in Hlen.
    destruct (filled_with_insert fuel p inserted st s Hfw Hnew ltac:(lia) Hfuel)
      as (i & st1 & Hcall & Hi & Hfw1).
    destruct (IH (inserted ++ [s]) st1 Hfw1) as (idxs & stn & Hrun & Hl & Hnz & Hfwn).
    + rewrite <- app_assoc. exact Hnd.
    + rewrite <- app_assoc, length_app. simpl. lia.
    + assumption.
    + exists (i :: idxs), stn. cbn [map htab_hash_all].
      rewrite Hcall. cbn [obind]. rewrite Hrun. cbn [obind].
      rewrite <- app_assoc in Hfwn.
      split; [reflexivity|]. split; [simpl; rewrite Hl; reflexivity|].
      split; [constructor; assumption | assumption].
Qed.

Lemma Forall2_map_pair_true (P : bool * list Byte.byte -> Z -> Prop) :
  forall strs idxs,
    Forall2 P (map (pair true) strs) idxs ->
    Forall2 (fun t i => P (true, t) i) strs idxs.
Proof.
  induction strs as [|t strs IH]; intros idxs H; inversion H; subst;
    constructor; [assumption | apply IH; assumption].
Qed.

(** C4: in the table [htab_create] leaves with a prime capacity [p], [p]
    calls of [htab_hash] with pairwise distinct strings, each with a
    successful allocation, all succeed: they return pairwise different
    indices in [1..p], each string is stored in the slot of its index, with
    its hash in [used], and is found there again by a later call; the table
    then counts [p] entries.  A call for one more string that is not among
    them returns 0 (the table is full) and leaves the globals, [htab_filled]
    and the slots, unchanged. *)
Theorem htab_fill_then_full fuel p strs s malloc_ok :
  3 <= p < 4294967296 -> Z.prime p ->
  Z.of_nat (length strs) = p ->
  List.NoDup (map c_str strs) ->
  ~ In (c_str s) (map c_str strs) ->
  p <= Z.of_nat fuel ->
  exists idxs tbl stn,
    htab_hash_all fuel (map (pair true) strs) (htab_empty p) = Done (idxs, stn) /\
    length idxs = length strs /\
    Forall (fun i => i <> 0) idxs /\
    htab_filled stn = p /\
    htab_size stn = p /\
    htab_table stn = Some tbl /\
    length tbl = Z.to_nat (p + 1) /\
    List.NoDup idxs /\
    Forall2 (fun t i =>
               1 <= i <= p /\
               tbl !! Z.to_nat i
                 = Some (mk_entry (table_hash p t) (Some (c_str t))) /\
               forall m, htab_hash fuel m t stn = Done (i, stn))
            strs idxs /\
    htab_hash fuel malloc_ok s stn = Done (0, stn).
Proof.
  intros Hp Hprime Hlen Hnd Hnew Hfuel.
  destruct (filled_with_insert_all fuel p strs [] (htab_empty p)
              (filled_with_empty p Hp) Hnd ltac:(simpl; lia) Hfuel)
    as (idxs & stn & Hrun & Hl & Hnz & Hfw).
  simpl in Hfw.
  destruct (htab_hash_all_found fuel (map (pair true) strs) (htab_empty p) idxs stn
              (htab_inv_empty p Hp Hprime) Hfuel Hrun Hnz)
    as (_ & Hsz0 & tbl & Ht & Hall).
  pose proof Hfw as ((tbl' & Ht' & Hsize & Hlen' & Hfill) & Hsz & Hcnt & Hstored).
  rewrite Ht in Ht'. injection Ht' as <-.
  rewrite Hsz in *.
  exists idxs, tbl, stn.
  split; [assumption|]. split; [assumption|]. split; [assumption|].
  split; [lia|]. split; [assumption|]. split; [assumption|].
  split; [assumption|]. split; [|split].
  - apply (probe_hits_distinct fuel tbl p (map (pair true) strs) idxs Hall).
    rewrite map_map. exact Hnd.
  - apply Forall2_map_pair_true in Hall.
    eapply Forall2_impl; [exact Hall|].
    cbn [snd]. intros t i Hs.
    pose proof (htab_search_index_range tbl p t fuel (ProbeHit i) Hp Hs) as Hrange.
    destruct (htab_search_hit tbl p t fuel i Hs) as (e & Hread & Hm).
    apply read_entry_done in Hread. destruct Hread as (_ & Hlook).
    pose proof (entry_matches_used _ _ _ Hm) as Hused.
    pose proof (table_hash_range p t ltac:(lia)) as Hhval.
    destruct (Hstored tbl Ht (Z.to_nat i) e Hlook ltac:(lia)) as (t0 & Hstr & Hin).
    pose proof (entry_matches_stored _ _ _ t0 Hm Hstr) as Heq.
    apply in_map_iff in Hin. destruct Hin as (x & Hx & _).
    rewrite <- Hx, c_str_idempotent in Heq.
    split; [exact Hrange|]. split.
    + rewrite Hlook. destruct e as [u st]. cbn [used str] in *.
      rewrite Hused, Hstr, <- Hx, Heq. reflexivity.
    + intros m. apply (htab_hash_found fuel m t stn tbl i Ht).
      rewrite Hsz. exact Hs.
  - destruct (filled_with_search_new fuel p strs stn tbl s Hfw Ht Hnew Hfuel)
      as (idx & Hs & Hidx).
    unfold htab_hash. rewrite Ht, Hsz, Hs. cbn [obind].
    destruct (p <=? htab_filled stn) eqn:Efull; [reflexivity|].
    apply Z.leb_gt in Efull. lia.
Qed.

Lemma htab_fill_then_full_example :
  exists idxs tbl stn,
    htab_hash_all 5 (map (pair true) [str_a; str_b; str_f; str_g; str_h])
      (htab_empty 5) = Done (idxs, stn) /\
    length idxs = 5%nat /\
    Forall (fun i => i <> 0) idxs /\
    htab_filled stn = 5 /\
    htab_size stn = 5 /\
    htab_table stn = Some tbl /\
    length tbl = Z.to_nat (5 + 1) /\
    List.NoDup idxs /\
    Forall2 (fun t i =>
               1 <= i <= 5 /\
               tbl !! Z.to_nat i
                 = Some (mk_entry (table_hash 5 t) (Some (c_str t))) /\
               forall m, htab_hash 5 m t stn = Done (i, stn))
            [str_a; str_b; str_f; str_g; str_h] idxs /\
    htab_hash 5 true str_i stn = Done (0, stn).
Proof.
  apply (htab_fill_then_full 5 5 [str_a; str_b; str_f; str_g; str_h] str_i true).
  - lia.
  - exact prime_5.
  - reflexivity.
  - repeat constructor; simpl; intuition discriminate.
  - simpl; intuition discriminate.
  - simpl; lia.
Defined.

(** ** Initialisation *)

(** C5, as amended: when a first initialisation (counter at -1, nothing
    held) fails at the resolution of the imports, at the opening of the
    driver, at the creation of one of the two events, of the response
    semaphore, of the mutex or of the thread, [wince_init] returns a failure
    code, every object acquired in the attempt is released once, in the order
    of acquisition (the driver handle first), no handle is left in the globals
    and the counter is back at -1. *)
Theorem wince_init_rolls_back HTAB_SIZE fuel env g :
  concurrent_usage g = -1 -> nothing_held g ->
  init_semaphore_created env = true -> init_semaphore_acquired env = true ->
  acquisition_fails env = true ->
  exists r g' tr,
    wince_init HTAB_SIZE fuel env g = Done (r, g') /\
    r <> LIBUSB_SUCCESS /\
    concurrent_usage g' = -1 /\ nothing_held g' /\
    os_trace g' = os_trace g ++ tr /\
    released tr = acquired tr /\ List.NoDup (released tr).
Proof.
  intros Hu Hheld Hc Ha Hfail.
  destruct g as [hf ht cu th mu tp rc rq rs dh [tbl sz fl] tr0].
  destruct Hheld as (Hth & Hmu & Hrq & Hrs & Hdh & Hhs).
  cbn [concurrent_usage timer_thread timer_mutex timer_request timer_response
       driver_handle htab htab_table] in *.
  subst cu th mu rq rs dh tbl.
  destruct env as [sc sa dl dr ev rs mu th ta tj].
  unfold acquisition_fails in Hfail.
  cbn [init_semaphore_created init_semaphore_acquired dllimports_resolved
       driver_opened request_event_created response_semaphore_created
       timer_mutex_created timer_thread_created] in *.
  subst sc sa.
  unfold wince_init, acquire_all.
  cbn [init_semaphore_created init_semaphore_acquired dllimports_resolved
       driver_opened request_event_created response_semaphore_created
       timer_mutex_created timer_thread_created negb].
  destruct dl; [destruct dr; [destruct (ev 0%nat); [destruct (ev 1%nat);
    [destruct rs; [destruct mu; [destruct th; [discriminate Hfail|]|]|]|]|]|]|];
    eexists _, _, _;
    (split; [lazy -[app]; reflexivity|]);
    (split; [discriminate|]); (split; [reflexivity|]);
    (split; [repeat split; reflexivity|]);
    cbn [os_trace]; rewrite <- !app_assoc;
    (split; [reflexivity|]); (split; [reflexivity|]);
    repeat constructor; cbn; intuition discriminate.
Qed.

Lemma wince_init_rolls_back_example :
  exists r g' tr,
    wince_init 1021 32 env_mutex_fails initial_globals = Done (r, g') /\
    r <> LIBUSB_SUCCESS /\
    concurrent_usage g' = -1 /\ nothing_held g' /\
    os_trace g' = os_trace initial_globals ++ tr /\
    released tr = acquired tr /\ List.NoDup (released tr).
Proof.
  apply (wince_init_rolls_back 1021 32 env_mutex_fails initial_globals).
  - reflexivity.
  - repeat split; reflexivity.
  - reflexivity.
  - reflexivity.
  - reflexivity.
Defined.

(** C5, as worded, fails twice.  When the creation of the mutex fails, the
    driver handle, the two events and the semaphore are released in the order
    they were acquired, not in the reverse order.  When the allocation of the
    table fails, [wince_init] does not look at the result of [htab_create]:
    it returns [LIBUSB_SUCCESS], releases nothing and leaves the counter
    at 0. *)
Lemma wince_init_not_as_worded :
  (exists g',
     wince_init 1021 32 env_mutex_fails initial_globals
       = Done (LIBUSB_ERROR_NO_MEM, g') /\
     acquired (os_trace g')
       = [DriverHandle; RequestEvent 0; RequestEvent 1; ResponseSemaphore] /\
     released (os_trace g')
       = [DriverHandle; RequestEvent 0; RequestEvent 1; ResponseSemaphore] /\
     released (os_trace g') <> rev (acquired (os_trace g'))) /\
  (exists g',
     wince_init 1021 32 env_table_fails initial_globals
       = Done (LIBUSB_SUCCESS, g') /\
     concurrent_usage g' = 0 /\
     htab_table (htab g') = None /\
     released (os_trace g') = [] /\
     acquired (os_trace g') <> []).
Proof.
  split.
  - eexists. split; [vm_compute; reflexivity|].
    split; [reflexivity|]. split; [reflexivity|]. discriminate.
  - eexists. split; [vm_compute; reflexivity|].
    split; [reflexivity|]. split; [reflexivity|]. split; [reflexivity|]. discriminate.
Qed.

(** ** The clock *)

Lemma monotonic_query_timeouts fuel env : forall k tp g,
  (forall j, (j < fuel)%nat -> response_wait env (k + j) = WAIT_TIMEOUT) ->
  monotonic_query fuel env k tp g = OutOfFuel.
Proof.
  induction fuel as [|f IH]; intros k tp g H; [reflexivity|].
  cbn [monotonic_query].
  pose proof (H 0%nat ltac:(lia)) as H0. rewrite Nat.add_0_r in H0.
  rewrite H0. change (WAIT_TIMEOUT =? WAIT_OBJECT_0) with false.
  change (WAIT_TIMEOUT =? WAIT_TIMEOUT) with true. cbv iota.
  apply IH. intros j Hj.
  replace (S k + j)%nat with (k + S j)%nat by lia. apply H. lia.
Qed.

Lemma monotonic_query_result fuel env : forall k tp g r tp' g',
  monotonic_query fuel env k tp g = Done (r, tp', g') ->
  exists n, (n < fuel)%nat /\
    (forall j, (j < n)%nat -> response_wait env (k + j) = WAIT_TIMEOUT) /\
    ((response_wait env (k + n) = WAIT_OBJECT_0 /\ r = LIBUSB_SUCCESS /\
      tp' = worker_sample env (k + n)) \/
     (wait_failed (response_wait env (k + n)) /\ r = LIBUSB_ERROR_OTHER /\ tp' = tp)).
Proof.
  induction fuel as [|f IH]; intros k tp g r tp' g' H; [discriminate|].
  cbn [monotonic_query] in H.
  destruct (response_wait env k =? WAIT_OBJECT_0) eqn:E0.
  - apply Z.eqb_eq in E0. injection H as <- <- _.
    exists 0%nat. rewrite Nat.add_0_r. split; [lia|]. split; [intros j Hj; lia|].
    left. repeat split; assumption.
  - apply Z.eqb_neq in E0.
    destruct (response_wait env k =? WAIT_TIMEOUT) eqn:E1.
    + apply Z.eqb_eq in E1.
      destruct (IH _ _ _ _ _ _ H) as (n & Hn & Hbefore & Hat).
      exists (S n). split; [lia|].
      replace (S k + n)%nat with (k + S n)%nat in Hat by lia. split; [|exact Hat].
      intros j Hj. destruct j as [|j]; [rewrite Nat.add_0_r; assumption|].
      replace (k + S j)%nat with (S k + j)%nat by lia. apply Hbefore. lia.
    + apply Z.eqb_neq in E1. injection H as <- <- _.
      exists 0%nat. rewrite Nat.add_0_r. split; [lia|]. split; [intros j Hj; lia|].
      right. repeat split; assumption.
Qed.

Lemma monotonic_query_done fuel env : forall k tp g n,
  (n < fuel)%nat ->
  (forall j, (j < n)%nat -> response_wait env (k + j) = WAIT_TIMEOUT) ->
  response_wait env (k + n) <> WAIT_TIMEOUT ->
  exists x, monotonic_query fuel env k tp g = Done x.
Proof.
  induction fuel as [|f IH]; intros k tp g n Hn Hbefore Hat; [lia|].
  cbn [monotonic_query].
  destruct n as [|n].
  - rewrite Nat.add_0_r in Hat.
    destruct (response_wait env k =? WAIT_OBJECT_0); [eexists; reflexivity|].
    destruct (response_wait env k =? WAIT_TIMEOUT) eqn:E1;
      [apply Z.eqb_eq in E1; contradiction | eexists; reflexivity].
  - pose proof (Hbefore 0%nat ltac:(lia)) as H0. rewrite Nat.add_0_r in H0.
    rewrite H0. change (WAIT_TIMEOUT =? WAIT_OBJECT_0) with false.
    change (WAIT_TIMEOUT =? WAIT_TIMEOUT) with true. cbv iota.
    apply (IH (S k) _ _ n); [lia | |].
    + intros j Hj. replace (S k + j)%nat with (k + S j)%nat by lia.
      apply Hbefore. lia.
    + replace (S k + n)%nat with (k + S n)%nat by lia. assumption.
Qed.

Lemma first_answer_unique env n m :
  times_out_before env n -> response_wait env n <> WAIT_TIMEOUT ->
  times_out_before env m -> response_wait env m <> WAIT_TIMEOUT ->
  n = m.
Proof.
  intros Hn Hn' Hm Hm'.
  destruct (Nat.lt_trichotomy n m) as [Hlt|[Heq|Hgt]]; [|assumption|].
  - exfalso. apply Hn'. apply Hm. assumption.
  - exfalso. apply Hm'. apply Hn. assumption.
Qed.

(** C6: with a counter frequency, a monotonic query whose waits on the
    response semaphore time out asks again and waits again: as long as the
    waits time out the call has not returned, whatever the number of rounds;
    it returns as soon as a wait ends otherwise; and what it returns is
    [LIBUSB_ERROR_OTHER] exactly when that wait failed (neither
    [WAIT_OBJECT_0] nor [WAIT_TIMEOUT]), and [LIBUSB_SUCCESS] exactly when it
    succeeded. *)
Theorem clock_timeout_is_retried MONO REAL fuel env tp g :
  hires_frequency g <> 0 ->
  (times_out_before env fuel ->
     wince_clock_gettime MONO REAL fuel env MONO tp g = OutOfFuel) /\
  (forall n, (n < fuel)%nat -> times_out_before env n ->
     response_wait env n <> WAIT_TIMEOUT ->
     exists x, wince_clock_gettime MONO REAL fuel env MONO tp g = Done x) /\
  (forall r tp' g',
     wince_clock_gettime MONO REAL fuel env MONO tp g = Done (r, tp', g') ->
     (r = LIBUSB_ERROR_OTHER <->
        exists n, times_out_before env n /\ wait_failed (response_wait env n)) /\
     (r = LIBUSB_SUCCESS <->
        exists n, times_out_before env n /\ response_wait env n = WAIT_OBJECT_0)).
Proof.
  intros Hf. unfold wince_clock_gettime. rewrite Z.eqb_refl.
  destruct (hires_frequency g =? 0) eqn:E; [apply Z.eqb_eq in E; contradiction|].
  cbn [negb]. split; [|split].
  - intros H. apply monotonic_query_timeouts. exact H.
  - intros n Hn Hbefore Hat. apply (monotonic_query_done fuel env 0 tp g n Hn Hbefore Hat).
  - intros r tp' g' H.
    destruct (monotonic_query_result fuel env 0 tp g r tp' g' H)
      as (n & Hn & Hbefore & Hat).
    cbn [Nat.add] in Hbefore, Hat.
    assert (Hto : WAIT_OBJECT_0 <> WAIT_TIMEOUT) by discriminate.
    split; split.
    + intros ->. destruct Hat as [(_ & Hr & _)|(Hfail & _)]; [discriminate|].
      exists n. split; assumption.
    + intros (m & Hm & Hfail).
      destruct Hat as [(Hok & _)|(_ & -> & _)]; [|reflexivity].
      exfalso. assert (n = m).
      { apply (first_answer_unique env); try assumption.
        - rewrite Hok. assumption.
        - apply Hfail. }
      subst m. destruct Hfail as [Hfail _]. contradiction.
    + intros ->. destruct Hat as [(Hok & _)|(_ & Hr & _)]; [|discriminate].
      exists n. split; assumption.
    + intros (m & Hm & Hok).
      destruct Hat as [(_ & -> & _)|(Hfail & _)]; [reflexivity|].
      exfalso. assert (n = m).
      { apply (first_answer_unique env); try assumption.
        - apply Hfail.
        - rewrite Hok. assumption. }
      subst m. destruct Hfail as [Hfail _]. contradiction.
Qed.

Lemma clock_timeout_is_retried_example :
  hires_frequency globals_with_counter <> 0 /\
  wince_clock_gettime 0 1 2 env_two_timeouts 0 (mk_timespec 0 0) globals_with_counter
    = OutOfFuel /\
  exists g',
    wince_clock_gettime 0 1 5 env_two_timeouts 0 (mk_timespec 0 0) globals_with_counter
      = Done (LIBUSB_SUCCESS, mk_timespec 12 500, g') /\
    request_count g' = (3, 1).
Proof.
  split; [discriminate|]. split.
  - apply (clock_timeout_is_retried 0 1 2 env_two_timeouts (mk_timespec 0 0)
             globals_with_counter); [discriminate|].
    intros j Hj. unfold env_two_timeouts. cbn [response_wait].
    destruct (Nat.ltb_spec j 2); [reflexivity | lia].
  - eexists. split; reflexivity.
Defined.

(** The real-time reading while the [long] fields do not wrap (until 2038):
    whole seconds since 1970, and the rest in nanoseconds. *)
Lemma realtime_timespec_in_range lo hi :
  0 <= lo < 2 ^ 32 -> 0 <= hi < 2 ^ 32 ->
  epoch_time <= lo + hi * 2 ^ 32 < epoch_time + 2 ^ 31 * 10000000 ->
  realtime_timespec (lo, hi) =
    mk_timespec ((lo + hi * 2 ^ 32 - epoch_time) / 10000000)
                (((lo + hi * 2 ^ 32 - epoch_time) mod 10000000) * 100).
Proof.
  intros Hlo Hhi Hr. unfold realtime_timespec, uint64, ulong, to_long,
    UINT64_MODULUS, ULONG_MODULUS, epoch_time in *. cbn [fst snd].
  rewrite (Z.mod_small lo), (Z.mod_small hi) by lia.
  set (t := lo + hi * 2 ^ 32) in *.
  rewrite (Z.mod_small t) by lia.
  rewrite (Z.mod_small (t - 116444736000000000)) by lia.
  set (d := t - 116444736000000000) in *.
  assert (Hd : 0 <= d < 2 ^ 31 * 10000000) by lia.
  assert (Hq : 0 <= d / 10000000 < 2 ^ 31).
  { split; [apply Z.div_pos; lia | apply Z.div_lt_upper_bound; lia]. }
  pose proof (Z.mod_pos_bound d 10000000 ltac:(lia)) as Hm.
  rewrite (Z.mod_small (d mod 10000000 * 100)) by lia.
  rewrite (Z.mod_small (d / 10000000)) by lia.
  rewrite (Z.mod_small (d mod 10000000 * 100)) by lia.
  destruct (d / 10000000 <? 2 ^ 31) eqn:E1; [|apply Z.ltb_ge in E1; lia].
  destruct (d mod 10000000 * 100 <? 2 ^ 31) eqn:E2; [|apply Z.ltb_ge in E2; lia].
  reflexivity.
Qed.

(** C7: without a counter frequency a monotonic query is the real-time
    query: it succeeds with the reading derived from the system time, and it
    neither increments [request_count], nor signals the request event, nor
    waits on the response semaphore: the one call it makes is the read of the
    system time.  The reading counts from 1970: for a system time [ft] (in
    units of 100 ns since 1601) from 1970 on and before the seconds leave
    the range of a [long], the seconds are [(ft - epoch_time) / 10^7] and the
    nanoseconds are the remainder times 100. *)
Theorem clock_monotonic_falls_back MONO REAL fuel env tp g :
  hires_frequency g = 0 ->
  wince_clock_gettime MONO REAL fuel env MONO tp g
    = Done (LIBUSB_SUCCESS, realtime_timespec (system_filetime env),
            os OsGetSystemTime g) /\
  wince_clock_gettime MONO REAL fuel env MONO tp g
    = wince_clock_gettime MONO REAL fuel env REAL tp g /\
  request_count (os OsGetSystemTime g) = request_count g /\
  os_trace (os OsGetSystemTime g) = os_trace g ++ [OsGetSystemTime] /\
  (forall lo hi,
     system_filetime env = (lo, hi) ->
     0 <= lo < 2 ^ 32 -> 0 <= hi < 2 ^ 32 ->
     epoch_time <= lo + hi * 2 ^ 32 < epoch_time + 2 ^ 31 * 10000000 ->
     tv_sec (realtime_timespec (system_filetime env))
       = (lo + hi * 2 ^ 32 - epoch_time) / 10000000 /\
     tv_nsec (realtime_timespec (system_filetime env))
       = ((lo + hi * 2 ^ 32 - epoch_time) mod 10000000) * 100).
Proof.
  intros Hf. unfold wince_clock_gettime. rewrite Z.eqb_refl, Hf. cbn [Z.eqb negb].
  split; [reflexivity|]. split; [|split; [reflexivity|split; [reflexivity|]]].
  - destruct (REAL =? MONO); [reflexivity|]. rewrite Z.eqb_refl. reflexivity.
  - intros lo hi Hft Hlo Hhi Hr. rewrite Hft.
    rewrite (realtime_timespec_in_range lo hi Hlo Hhi Hr).
    split; reflexivity.
Qed.

Lemma clock_monotonic_falls_back_example :
  wince_clock_gettime 0 1 0 env_system_time 0 (mk_timespec 7 7) initial_globals
    = Done (LIBUSB_SUCCESS, realtime_timespec (123456700, 30000000),
            os OsGetSystemTime initial_globals) /\
  wince_clock_gettime 0 1 0 env_system_time 0 (mk_timespec 7 7) initial_globals
    = wince_clock_gettime 0 1 0 env_system_time 1 (mk_timespec 7 7) initial_globals /\
  request_count (os OsGetSystemTime initial_globals) = request_count initial_globals /\
  os_trace (os OsGetSystemTime initial_globals)
    = os_trace initial_globals ++ [OsGetSystemTime] /\
  tv_sec (realtime_timespec (123456700, 30000000)) = 1240428300 /\
  tv_nsec (realtime_timespec (123456700, 30000000)) = 345670000.
Proof.
  destruct (clock_monotonic_falls_back 0 1 0 env_system_time (mk_timespec 7 7)
              initial_globals eq_refl) as (H1 & H2 & H3 & H4 & H5).
  split; [exact H1|]. split; [exact H2|]. split; [exact H3|]. split; [exact H4|].
  apply (H5 123456700 30000000); [reflexivity | lia | lia | unfold epoch_time; lia].
Defined.

(** C10: for a clock identifier that is neither the monotonic nor the
    real-time one, [wince_clock_gettime] returns
    [LIBUSB_ERROR_INVALID_PARAM]; [*tp] and the globals are as before, and no
    call is made. *)
Theorem clock_invalid_id MONO REAL fuel env clk_id tp g :
  clk_id <> MONO -> clk_id <> REAL ->
  wince_clock_gettime MONO REAL fuel env clk_id tp g
    = Done (LIBUSB_ERROR_INVALID_PARAM, tp, g).
Proof.
  intros H1 H2. unfold wince_clock_gettime.
  apply Z.eqb_neq in H1, H2. rewrite H1, H2. reflexivity.
Qed.

Lemma clock_invalid_id_example :
  wince_clock_gettime 0 1 0 env_two_timeouts 2 (mk_timespec 7 7) globals_with_counter
    = Done (LIBUSB_ERROR_INVALID_PARAM, mk_timespec 7 7, globals_with_counter).
Proof.
  apply (clock_invalid_id 0 1 0 env_two_timeouts 2 (mk_timespec 7 7)
           globals_with_counter); discriminate.
Defined.

(** ** Unsupported operations *)

(** C8: each of the eight operations returns
    [LIBUSB_ERROR_NOT_SUPPORTED] for every argument and leaves the globals,
    the trace of calls included, as they were. *)
Theorem unsupported_operations
    (handle interface_number itransfer ctx fds nfds num_ready : Z) (g : globals) :
  wince_reset_device handle g = (LIBUSB_ERROR_NOT_SUPPORTED, g) /\
  wince_kernel_driver_active handle interface_number g = (LIBUSB_ERROR_NOT_SUPPORTED, g) /\
  wince_detach_kernel_driver handle interface_number g = (LIBUSB_ERROR_NOT_SUPPORTED, g) /\
  wince_attach_kernel_driver handle interface_number g = (LIBUSB_ERROR_NOT_SUPPORTED, g) /\
  wince_submit_transfer itransfer g = (LIBUSB_ERROR_NOT_SUPPORTED, g) /\
  wince_cancel_transfer itransfer g = (LIBUSB_ERROR_NOT_SUPPORTED, g) /\
  wince_clear_transfer_priv itransfer g = (LIBUSB_ERROR_NOT_SUPPORTED, g) /\
  wince_handle_events ctx fds nfds num_ready g = (LIBUSB_ERROR_NOT_SUPPORTED, g).
Proof. repeat split. Qed.

(** * Further properties of the code *)

(** ** [isprime] and [htab_create] in their working range *)

(** X1: on an odd number from 5 up to [65535^2] (where the square of the
    divider cannot wrap), and with fuel for the loop up to the square root,
    [isprime] returns, and returns 1 exactly when the number is prime. *)
Theorem isprime_exact fuel n :
  n mod 2 = 1 -> 5 <= n <= 4294836225 ->
  n <= (2 * Z.of_nat fuel + 1) * (2 * Z.of_nat fuel + 1) ->
  (Z.prime n -> isprime fuel n = Done true) /\
  (~ Z.prime n -> isprime fuel n = Done false).
Proof.
  intros Hn Hr Hf.
  destruct (isprime_correct fuel n Hn Hr Hf) as (b & Hb & Hiff).
  rewrite Hb. split.
  - intros Hp. f_equal. apply Hiff. assumption.
  - intros Hnp. f_equal. destruct b; [|reflexivity].
    exfalso. apply Hnp. apply Hiff. reflexivity.
Qed.

Lemma isprime_exact_example :
  (Z.prime 1021 -> isprime 16 1021 = Done true) /\
  (~ Z.prime 1021 -> isprime 16 1021 = Done false).
Proof.
  apply (isprime_exact 16 1021); [reflexivity | lia | vm_compute; discriminate].
Defined.

Lemma prime_11 : Z.prime 11.
Proof.
  destruct (isprime_correct 2 11 eq_refl ltac:(lia) ltac:(vm_compute; discriminate))
    as (b & Hb & Hiff).
  apply Hiff. vm_compute in Hb. injection Hb as <-. reflexivity.
Qed.

Lemma not_prime_8_to_10 q : 8 <= q < 11 -> ~ Z.prime q.
Proof.
  intros Hq [_ H].
  assert (Hc : q = 8 \/ q = 9 \/ q = 10) by lia.
  destruct Hc as [->|[->| ->]].
  - apply (H 2); [lia | exists 4; reflexivity].
  - apply (H 3); [lia | exists 3; reflexivity].
  - apply (H 2); [lia | exists 5; reflexivity].
Qed.

(** X2: for a request [c >= 2], [htab_create] sets [htab_size] to the least
    prime [p] with [p >= c] and [p >= 5] (as long as [p <= 65535^2]), resets
    [htab_filled] to 0 and, when [calloc] succeeds, returns 1 with [p + 1]
    zeroed entries; when [calloc] fails it returns 0 with a null table, and
    [htab_size] is set all the same. *)
Theorem htab_create_least_prime fuel calloc_ok c p :
  2 <= c <= p -> 5 <= p <= 4294836225 -> Z.prime p ->
  (forall q, c <= q < p -> 5 <= q -> ~ Z.prime q) ->
  2 * p <= Z.of_nat fuel ->
  htab_create fuel calloc_ok c =
    Done (if calloc_ok then 1 else 0,
          mk_htab (if calloc_ok
                   then Some (replicate (Z.to_nat (p + 1)) free_entry)
                   else None) p 0).
Proof. apply htab_create_next_prime. Qed.

Lemma htab_create_least_prime_example :
  htab_create 22 true 8 =
    Done (1, mk_htab (Some (replicate 12 free_entry)) 11 0).
Proof.
  apply (htab_create_least_prime 22 true 8 11).
  - lia.
  - lia.
  - exact prime_11.
  - intros q Hq _. apply not_prime_8_to_10. exact Hq.
  - simpl. lia.
Defined.

(** ** More on [htab_hash] *)

Lemma list_lookup_insert_0 (tbl : list htab_entry) (i : Z) (e : htab_entry) :
  1 <= i -> <[Z.to_nat i := e]> tbl !! 0%nat = tbl !! 0%nat.
Proof. intros Hi. apply list_lookup_insert_ne. lia. Qed.

(** What one call does to the globals, whatever the outcome of [malloc]. *)
Lemma htab_hash_step fuel malloc_ok s st i st' :
  htab_wf st -> htab_filled st <= htab_size st ->
  htab_hash fuel malloc_ok s st = Done (i, st') ->
  htab_wf st' /\ htab_size st' = htab_size st /\
  htab_filled st <= htab_filled st' <= htab_size st /\
  0 <= i <= htab_size st /\
  exists tbl tbl', htab_table st = Some tbl /\ htab_table st' = Some tbl' /\
    tbl' !! 0%nat = tbl !! 0%nat.
Proof.
  intros Hwf Hle H. pose proof Hwf as (tbl & Ht & Hsize & Hlen & Hfill).
  unfold htab_hash in H. rewrite Ht in H.
  destruct (htab_search fuel tbl (htab_size st) s) as [r| |] eqn:Es;
    cbn [obind] in H; try discriminate.
  pose proof (htab_search_index_range tbl (htab_size st) s fuel r Hsize Es) as Hrange.
  destruct r as [idx|idx].
  - injection H as <- <-. split; [assumption|]. split; [reflexivity|].
    split; [lia|]. split; [lia|]. exists tbl, tbl. auto.
  - destruct (htab_size st <=? htab_filled st) eqn:Efull.
    + injection H as <- <-. split; [assumption|]. split; [reflexivity|].
      split; [lia|]. split; [lia|]. exists tbl, tbl. auto.
    + apply Z.leb_gt in Efull.
      destruct (read_entry tbl idx) as [e| |]; cbn [obind] in H; try discriminate.
      destruct malloc_ok; injection H as <- <-;
        cbn [htab_size htab_filled htab_table].
      * rewrite ulong_small by lia.
        split; [eexists; cbn [htab_size htab_filled htab_table];
                split; [reflexivity|]; rewrite length_insert; repeat split; lia|].
        split; [reflexivity|]. split; [lia|]. split; [lia|].
        exists tbl. eexists. split; [exact Ht|]. split; [reflexivity|].
        apply list_lookup_insert_0. lia.
      * split; [eexists; cbn [htab_size htab_filled htab_table];
                split; [reflexivity|]; rewrite length_insert; repeat split; lia|].
        split; [reflexivity|]. split; [lia|]. split; [lia|].
        exists tbl. eexists. split; [exact Ht|]. split; [reflexivity|].
        apply list_lookup_insert_0. lia.
Qed.

Lemma htab_hash_all_bounds_from fuel p : forall calls st0 idxs st,
  htab_wf st0 -> htab_size st0 = p -> htab_filled st0 <= p ->
  (exists tbl, htab_table st0 = Some tbl /\ tbl !! 0%nat = Some free_entry) ->
  htab_hash_all fuel calls st0 = Done (idxs, st) ->
  Forall (fun i => 0 <= i <= p) idxs /\
  htab_size st = p /\ 0 <= htab_filled st <= p /\
  exists tbl, htab_table st = Some tbl /\
    length tbl = Z.to_nat (p + 1) /\ tbl !! 0%nat = Some free_entry.
Proof.
  induction calls as [|[m s] calls IH]; intros st0 idxs st Hwf Hsz Hle Hz Hrun.
  - simpl in Hrun. injection Hrun as <- <-.
    split; [constructor|]. split; [assumption|].
    destruct Hwf as (tbl & Ht & _ & Hlen & Hfill). split; [lia|].
    destruct Hz as (tbl0 & Ht0 & Hz). rewrite Ht in Ht0. injection Ht0 as <-.
    exists tbl. rewrite <- Hsz. auto.
  - cbn [htab_hash_all] in Hrun.
    destruct (htab_hash fuel m s st0) as [[i st1]| |] eqn:Ecall;
      cbn [obind] in Hrun; try discriminate.
    destruct (htab_hash_all fuel calls st1) as [[js st2]| |] eqn:Erest;
      cbn [obind] in Hrun; try discriminate.
    injection Hrun as <- <-.
    destruct (htab_hash_step fuel m s st0 i st1 Hwf ltac:(lia) Ecall)
      as (Hwf1 & Hsz1 & Hfl1 & Hi & tbl & tbl1 & Ht & Ht1 & Hz1).
    destruct (IH st1 js st2 Hwf1 ltac:(lia) ltac:(lia)) as (Hjs & Hrest);
      [|exact Erest|].
    + exists tbl1. split; [assumption|]. rewrite Hz1.
      destruct Hz as (tbl0 & Ht0 & Hz). rewrite Ht in Ht0. injection Ht0 as <-.
      assumption.
    + split; [|exact Hrest]. constructor; [lia | assumption].
Qed.

(** X3: on the table [htab_create] has made (capacity [p >= 3]) and after
    any sequence of calls of [htab_hash], whatever the outcomes of [malloc]:
    every call has returned an index in [0..p], [htab_size] is still [p],
    [htab_filled] is at most [p], and entry 0 of the array is still the zeroed
    entry: slot 0 is never written. *)
Theorem htab_hash_all_bounds fuel p calls idxs st :
  3 <= p < 4294967296 ->
  htab_hash_all fuel calls (htab_empty p) = Done (idxs, st) ->
  Forall (fun i => 0 <= i <= p) idxs /\
  htab_size st = p /\ 0 <= htab_filled st <= p /\
  exists tbl, htab_table st = Some tbl /\
    length tbl = Z.to_nat (p + 1) /\ tbl !! 0%nat = Some free_entry.
Proof.
  intros Hp. apply htab_hash_all_bounds_from.
  - apply htab_wf_empty. assumption.
  - reflexivity.
  - simpl. lia.
  - eexists. split; [reflexivity|].
    apply lookup_replicate. split; [reflexivity | lia].
Qed.

Lemma htab_hash_all_bounds_example :
  exists st,
    htab_hash_all 5 [(true, str_a); (false, str_b); (true, str_f)] (htab_empty 5)
      = Done ([1; 0; 2], st) /\
    Forall (fun i => 0 <= i <= 5) [1; 0; 2] /\
    htab_size st = 5 /\ 0 <= htab_filled st <= 5 /\
    exists tbl, htab_table st = Some tbl /\
      length tbl = Z.to_nat (5 + 1) /\ tbl !! 0%nat = Some free_entry.
Proof.
  eexists. split; [vm_compute; reflexivity|].
  apply (htab_hash_all_bounds 5 5 [(true, str_a); (false, str_b); (true, str_f)]).
  - lia.
  - vm_compute. reflexivity.
Defined.





(** X5: insert, then look up.  On any such table (the capacity need not be
    prime, and allocations may have failed before), when a call for [s]
    returns a non-zero index [i], calling again for [s] at once returns [i]
    whatever [malloc] would answer, and changes nothing. *)
Theorem htab_hash_found_again fuel m s st i st' m' :
  htab_wf st ->
  htab_hash fuel m s st = Done (i, st') -> i <> 0 ->
  htab_hash fuel m' s st' = Done (i, st').
Proof.
  intros (tbl & Ht & Hsize & Hlen & Hfill) H Hi.
  unfold htab_hash in H. rewrite Ht in H.
  destruct (htab_search fuel tbl (htab_size st) s) as [r| |] eqn:Es;
    cbn [obind] in H; try discriminate.
  destruct r as [idx|idx].
  - injection H as <- <-. apply (htab_hash_found fuel m' s st tbl idx Ht Es).
  - destruct (htab_size st <=? htab_filled st).
    { injection H as <- _. contradiction. }
    destruct (read_entry tbl idx) as [e| |]; cbn [obind] in H; try discriminate.
    destruct m; [|injection H as <- _; contradiction].
    injection H as <- <-.
    eapply htab_hash_found; [reflexivity|]. cbn [htab_size].
    apply htab_search_after_insert; assumption.
Qed.

Lemma htab_hash_found_again_example :
  htab_hash 6 false str_a
    (mk_htab (Some [free_entry; free_entry; free_entry; free_entry;
                    mk_entry 4 (Some str_a); free_entry; free_entry]) 6 1)
  = Done (4, mk_htab (Some [free_entry; free_entry; free_entry; free_entry;
                            mk_entry 4 (Some str_a); free_entry; free_entry]) 6 1).
Proof.
  apply (htab_hash_found_again 6 true str_a
           (mk_htab (Some (replicate 7 free_entry)) 6 0) 4 _ false).
  - eexists. split; [reflexivity|]. cbn. repeat split; lia.
  - vm_compute. reflexivity.
  - discriminate.
Defined.

(** ** One slot per string *)

Lemma used_count_insert_free tbl : forall (i : nat) e new,
  tbl !! i = Some e -> used e = 0 -> used new <> 0 ->
  used_count (<[i := new]> tbl) = used_count tbl + 1.
Proof.
  induction tbl as [|x tbl IH]; intros i e new Hl He Hnew; [discriminate|].
  destruct i as [|i]; simpl in *.
  - injection Hl as ->. rewrite He. simpl.
    destruct (used new =? 0) eqn:E; [apply Z.eqb_eq in E; contradiction | lia].
  - rewrite (IH i e new Hl He Hnew). lia.
Qed.

(** X6: one slot per string.  In a table that satisfies the invariant,
    successful calls for pairwise different strings return pairwise different
    indices. *)
Theorem htab_hash_distinct_indices fuel calls st idxs stn :
  htab_inv st -> htab_size st <= Z.of_nat fuel ->
  htab_hash_all fuel calls st = Done (idxs, stn) ->
  Forall (fun j => j <> 0) idxs ->
  List.NoDup (map (fun c => c_str (snd c)) calls) ->
  List.NoDup idxs.
Proof.
  intros Hinv Hfuel Hrun Hnz Hnd.
  destruct (htab_hash_all_found fuel calls st idxs stn Hinv Hfuel Hrun Hnz)
    as (_ & _ & tbl & _ & Hall).
  exact (probe_hits_distinct fuel tbl (htab_size stn) calls idxs Hall Hnd).
Qed.

Lemma htab_hash_distinct_indices_example :
  List.NoDup [1; 4; 2].
Proof.
  apply (htab_hash_distinct_indices 5 [(true, str_a); (true, str_b); (true, str_f)]
           (htab_empty 5) [1; 4; 2]
           (mk_htab (Some [free_entry; mk_entry 1 (Some str_a);
                           mk_entry 1 (Some str_f); free_entry;
                           mk_entry 1 (Some str_b); free_entry]) 5 3)).
  - apply htab_inv_empty; [lia | exact prime_5].
  - simpl. lia.
  - vm_compute. reflexivity.
  - repeat constructor; discriminate.
  - repeat constructor; simpl; intuition discriminate.
Defined.

(** ** [htab_filled] counts the occupied slots *)

Lemma htab_hash_count_step fuel s st i st' tbl :
  htab_inv st -> htab_size st <= Z.of_nat fuel ->
  htab_table st = Some tbl -> used_count tbl = htab_filled st ->
  htab_hash fuel true s st = Done (i, st') ->
  exists tbl', htab_table st' = Some tbl' /\ used_count tbl' = htab_filled st'.
Proof.
  intros Hinv Hfuel Ht Hcnt H.
  pose proof Hinv as ((tbl0 & Ht0 & Hsize & Hlen & Hfill) & Hp & _).
  rewrite Ht in Ht0. injection Ht0 as <-.
  unfold htab_hash in H. rewrite Ht in H.
  destruct (htab_search fuel tbl (htab_size st) s) as [r| |] eqn:Es;
    cbn [obind] in H; try discriminate.
  destruct r as [idx|idx].
  - injection H as _ <-. exists tbl. split; assumption.
  - destruct (htab_size st <=? htab_filled st) eqn:Efull.
    { injection H as _ <-. exists tbl. split; assumption. }
    apply Z.leb_gt in Efull.
    destruct (read_entry tbl idx) as [e| |] eqn:Er; cbn [obind] in H; try discriminate.
    injection H as _ <-. cbn [htab_table htab_filled].
    eexists. split; [reflexivity|].
    apply read_entry_done in Er. destruct Er as [Hi0 Hl].
    assert (Hfree : used e = 0).
    { destruct (htab_search_new tbl (htab_size st) s Hsize Hlen fuel idx Hp Es)
        as [(e' & He' & Hu')|Hall].
      - apply read_entry_done in He'. destruct He' as [_ He'].
        rewrite Hl in He'. injection He' as <-. assumption.
      - exfalso. pose proof (used_count_full tbl (htab_size st) ltac:(lia) Hlen Hall).
        lia. }
    rewrite (used_count_insert_free tbl (Z.to_nat idx) e _ Hl Hfree).
    + rewrite ulong_small by lia. lia.
    + cbn [used]. pose proof (table_hash_range (htab_size st) s ltac:(lia)). lia.
Qed.

(** While no [malloc] fails, [htab_filled] stays the number of occupied
    slots. *)
Lemma htab_hash_all_counts fuel p :
  p <= Z.of_nat fuel ->
  forall calls st0 idxs st,
    htab_inv st0 -> htab_size st0 = p ->
    (exists tbl, htab_table st0 = Some tbl /\ used_count tbl = htab_filled st0) ->
    Forall (fun c => fst c = true) calls ->
    htab_hash_all fuel calls st0 = Done (idxs, st) ->
    exists tbl, htab_table st = Some tbl /\ used_count tbl = htab_filled st.
Proof.
  intros Hfuel.
  induction calls as [|[m s] calls IH]; intros st0 idxs st Hinv Hsz Hcnt Hok Hrun.
  - simpl in Hrun. injection Hrun as _ <-. assumption.
  - cbn [htab_hash_all] in Hrun.
    apply Forall_cons in Hok. destruct Hok as [Hm Hok]. simpl in Hm. subst m.
    destruct (htab_hash fuel true s st0) as [[i st1]| |] eqn:Ecall;
      cbn [obind] in Hrun; try discriminate.
    destruct (htab_hash_all fuel calls st1) as [[js st2]| |] eqn:Erest;
      cbn [obind] in Hrun; try discriminate.
    injection Hrun as _ <-.
    destruct Hcnt as (tbl & Ht & Hcnt).
    apply (IH st1 js st2); try assumption.
    + apply (htab_hash_keeps_inv fuel s st0 i st1 Hinv ltac:(lia) Ecall).
    + destruct (htab_hash_done fuel true s st0 (htab_inv_wf st0 Hinv) ltac:(lia))
        as (i' & st1' & Hcall' & _ & Hsz').
      rewrite Ecall in Hcall'. injection Hcall' as _ <-. lia.
    + apply (htab_hash_count_step fuel s st0 i st1 tbl Hinv ltac:(lia) Ht Hcnt Ecall).
Qed.

(** X7: in the table [htab_create] has made with a prime capacity [p], and
    as long as no [malloc] fails, [htab_filled] is exactly the number of
    occupied slots after any sequence of calls of [htab_hash], and never
    exceeds the capacity. *)
Theorem htab_filled_counts fuel p calls idxs st :
  3 <= p < 4294967296 -> Z.prime p -> p <= Z.of_nat fuel ->
  Forall (fun c => fst c = true) calls ->
  htab_hash_all fuel calls (htab_empty p) = Done (idxs, st) ->
  exists tbl, htab_table st = Some tbl /\
    used_count tbl = htab_filled st /\ htab_filled st <= p.
Proof.
  intros Hp Hprime Hfuel Hok Hrun.
  pose proof (htab_hash_all_counts fuel p Hfuel) as Hgen.
  destruct (Hgen calls (htab_empty p) idxs st) as (tbl & Ht & Hcnt); try assumption.
  - apply htab_inv_empty; assumption.
  - reflexivity.
  - eexists. split; [reflexivity|]. rewrite used_count_replicate. reflexivity.
  - exists tbl. split; [assumption|]. split; [assumption|].
    destruct (htab_hash_all_bounds_from fuel p calls (htab_empty p) idxs st)
      as (_ & _ & Hfl & _); try assumption; try reflexivity.
    + apply htab_wf_empty. assumption.
    + simpl. lia.
    + eexists. split; [reflexivity|].
      apply lookup_replicate. split; [reflexivity | lia].
    + lia.
Qed.

Lemma htab_filled_counts_example :
  exists tbl,
    htab_table (mk_htab (Some [free_entry; mk_entry 1 (Some str_a);
                               mk_entry 1 (Some str_f); free_entry;
                               mk_entry 1 (Some str_b); free_entry]) 5 3) = Some tbl /\
    used_count tbl = 3 /\ 3 <= 5.
Proof.
  apply (htab_filled_counts 5 5
           [(true, str_a); (true, str_b); (true, str_a); (true, str_f)] [1; 4; 1; 2]).
  - lia.
  - exact prime_5.
  - simpl. lia.
  - repeat constructor.
  - vm_compute. reflexivity.
Defined.

(** ** What [htab_destroy] frees *)

Lemma htab_destroy_loop_slots tbl : forall count i,
  (i + count <= length tbl)%nat ->
  exists slots, htab_destroy_loop tbl i count = Done slots /\
    forall j, In j slots <->
      (i <= j < i + count)%nat /\ exists e, tbl !! j = Some e /\ used e <> 0.
Proof.
  induction count as [|count IH]; intros i Hlen; cbn [htab_destroy_loop].
  - exists []. split; [reflexivity|]. intros j. split; [intros []|].
    intros (Hj & _). lia.
  - destruct (lookup_lt_is_Some_2 tbl i ltac:(lia)) as (e & He). rewrite He.
    destruct (IH (S i) ltac:(lia)) as (rest & Hrest & Hin). rewrite Hrest.
    cbn [obind]. eexists. split; [reflexivity|]. intros j.
    destruct (used e =? 0) eqn:Eu.
    + apply Z.eqb_eq in Eu. rewrite Hin. split.
      * intros (Hj & Hx). split; [lia | exact Hx].
      * intros (Hj & e' & He' & Hu). split; [|exists e'; split; assumption].
        destruct (Nat.eq_dec j i) as [->|Hne]; [|lia].
        rewrite He in He'. injection He' as <-. contradiction.
    + apply Z.eqb_neq in Eu. cbn [In]. rewrite Hin. split.
      * intros [<-|(Hj & Hx)]; [|split; [lia | exact Hx]].
        split; [lia|]. exists e. split; assumption.
      * intros (Hj & Hx).
        destruct (Nat.eq_dec j i) as [->|Hne]; [left; reflexivity|].
        right. split; [lia | exact Hx].
Qed.

(** After a successful call the slot of the result is in use. *)
Lemma htab_hash_slot_used fuel malloc_ok s st i st' :
  htab_wf st ->
  htab_hash fuel malloc_ok s st = Done (i, st') -> i <> 0 ->
  htab_size st' = htab_size st /\ 1 <= i <= htab_size st /\
  exists tbl' e, htab_table st' = Some tbl' /\
    length tbl' = Z.to_nat (htab_size st + 1) /\
    tbl' !! Z.to_nat i = Some e /\ used e <> 0.
Proof.
  intros (tbl & Ht & Hsz & Hlen & Hfl) Hrun Hi.
  unfold htab_hash in Hrun. rewrite Ht in Hrun.
  destruct (htab_search fuel tbl (htab_size st) s) as [r| |] eqn:Es;
    cbn [obind] in Hrun; try discriminate.
  pose proof (htab_search_index_range tbl (htab_size st) s fuel r Hsz Es) as Hrange.
  pose proof (table_hash_range (htab_size st) s ltac:(lia)) as Hhval.
  destruct r as [idx|idx].
  - injection Hrun as <- <-.
    destruct (htab_search_hit tbl (htab_size st) s fuel idx Es) as (e & Hread & Hm).
    apply read_entry_done in Hread. destruct Hread as (_ & Hl).
    apply entry_matches_used in Hm.
    split; [reflexivity|]. split; [exact Hrange|].
    exists tbl, e. repeat split; try assumption. lia.
  - destruct (htab_size st <=? htab_filled st).
    + injection Hrun as <- _. contradiction.
    + destruct (read_entry tbl idx) as [e0| |]; cbn [obind] in Hrun;
        try discriminate.
      destruct malloc_ok.
      * injection Hrun as <- <-. cbn [htab_size htab_table].
        split; [reflexivity|]. split; [exact Hrange|].
        eexists. eexists. split; [reflexivity|].
        split; [rewrite length_insert; exact Hlen|]. split.
        -- apply list_lookup_insert_eq. lia.
        -- cbn [used]. lia.
      * injection Hrun as <- _. contradiction.
Qed.

(** X19: [htab_destroy] stops one slot short of the array: the string
    stored by a successful call of [htab_hash] is handed to [safe_free] by a
    later [htab_destroy] exactly when its index is below [htab_size]; the
    string of the slot [htab_size] is not freed. *)
Theorem htab_destroy_misses_last_slot fuel malloc_ok s st i st' :
  htab_wf st ->
  htab_hash fuel malloc_ok s st = Done (i, st') -> i <> 0 ->
  exists slots,
    htab_destroy_frees st' = Done slots /\
    (In (Z.to_nat i) slots <-> i < htab_size st').
Proof.
  intros Hwf Hrun Hi.
  destruct (htab_hash_slot_used fuel malloc_ok s st i st' Hwf Hrun Hi)
    as (Hsz & Hrange & tbl' & e & Ht' & Hlen & Hl & Hu).
  unfold htab_destroy_frees. rewrite Ht', Hsz.
  destruct (htab_destroy_loop_slots tbl' (Z.to_nat (htab_size st)) 0%nat)
    as (slots & Hslots & Hin); [lia|].
  exists slots. split; [exact Hslots|]. rewrite Hin. split.
  - intros (Hj & _). lia.
  - intros Hlt. split; [lia|]. exists e. split; assumption.
Qed.

Lemma htab_destroy_misses_last_slot_example :
  exists slots,
    htab_destroy_frees
      (mk_htab (Some [free_entry; mk_entry 1 (Some str_a); mk_entry 2 (Some str_c);
                      mk_entry 3 (Some str_d); mk_entry 1 (Some str_b);
                      mk_entry 4 (Some str_e)]) 5 5) = Done slots /\
    (In (Z.to_nat 5) slots <-> 5 < 5).
Proof.
  apply (htab_destroy_misses_last_slot 5 true str_e
           (mk_htab (Some [free_entry; mk_entry 1 (Some str_a); mk_entry 2 (Some str_c);
                           mk_entry 3 (Some str_d); mk_entry 1 (Some str_b);
                           free_entry]) 5 4) 5).
  - eexists. split; [reflexivity|]. cbn. repeat split; lia.
  - vm_compute. reflexivity.
  - lia.
Defined.

Lemma used_count_app l1 l2 :
  used_count (l1 ++ l2) = used_count l1 + used_count l2.
Proof.
  induction l1 as [|e l1 IH]; cbn [app used_count]; [lia|].
  destruct (used e =? 0); lia.
Qed.

Lemma used_count_le_length l : used_count l <= Z.of_nat (length l).
Proof.
  induction l as [|e l IH]; cbn [used_count length]; [lia|].
  destruct (used e =? 0); lia.
Qed.

Lemma htab_destroy_loop_length tbl : forall count i slots,
  htab_destroy_loop tbl i count = Done slots ->
  Z.of_nat (length slots) = used_count (take count (drop i tbl)).
Proof.
  induction count as [|count IH]; intros i slots H; cbn [htab_destroy_loop] in H.
  - injection H as <-. reflexivity.
  - destruct (tbl !! i) as [e|] eqn:He; [|discriminate].
    destruct (htab_destroy_loop tbl (S i) count) as [rest| |] eqn:Hrest;
      cbn [obind] in H; try discriminate.
    injection H as <-.
    rewrite (drop_S tbl e i He). cbn [take used_count].
    rewrite <- (IH (S i) rest Hrest).
    destruct (used e =? 0); cbn [length]; lia.
Qed.

(** X20: a table that has been filled to its capacity [p] leaks one string:
    [htab_destroy] frees the strings of [p - 1] slots, and not the one of
    the slot [p], which is in use. *)
Theorem htab_destroy_full_table_leaks fuel p calls idxs st :
  3 <= p < 4294967296 -> Z.prime p -> p <= Z.of_nat fuel ->
  Forall (fun c => fst c = true) calls ->
  htab_hash_all fuel calls (htab_empty p) = Done (idxs, st) ->
  htab_filled st = p ->
  exists slots tbl e,
    htab_destroy_frees st = Done slots /\
    Z.of_nat (length slots) = p - 1 /\
    ~ In (Z.to_nat p) slots /\
    htab_table st = Some tbl /\ tbl !! Z.to_nat p = Some e /\ used e <> 0.
Proof.
  intros Hp Hprime Hfuel Hok Hrun Hfull.
  destruct (htab_hash_all_counts fuel p Hfuel calls (htab_empty p) idxs st)
    as (tbl & Ht & Hcnt); try assumption.
  { apply htab_inv_empty; assumption. }
  { reflexivity. }
  { eexists. split; [reflexivity|]. rewrite used_count_replicate. reflexivity. }
  destruct (htab_hash_all_bounds_from fuel p calls (htab_empty p) idxs st)
    as (_ & Hsz & _ & tbl2 & Ht2 & Hlen & H0); try assumption; try reflexivity.
  { apply htab_wf_empty. assumption. }
  { simpl. lia. }
  { eexists. split; [reflexivity|].
    apply lookup_replicate. split; [reflexivity | lia]. }
  rewrite Ht in Ht2. injection Ht2 as <-.
  destruct (htab_destroy_loop_slots tbl (Z.to_nat p) 0%nat ltac:(lia))
    as (slots & Hslots & Hin).
  pose proof (htab_destroy_loop_length tbl _ _ _ Hslots) as Hcount.
  rewrite drop_0 in Hcount.
  (* the occupied slots, split at the slot p *)
  pose proof (take_drop (Z.to_nat p) tbl) as Hsplit.
  assert (Hsum : used_count (take (Z.to_nat p) tbl)
                 + used_count (drop (Z.to_nat p) tbl) = p).
  { rewrite <- used_count_app, Hsplit, Hcnt. exact Hfull. }
  assert (Hlast : used_count (drop (Z.to_nat p) tbl) <= 1).
  { pose proof (used_count_le_length (drop (Z.to_nat p) tbl)) as Hle.
    rewrite length_drop in Hle. lia. }
  assert (Hfirst : used_count (take (Z.to_nat p) tbl) <= p - 1).
  { destruct tbl as [|e0 rest]; [discriminate|].
    cbn [lookup list_lookup] in H0. injection H0 as ->.
    destruct (Z.to_nat p) as [|n] eqn:En; [lia|].
    cbn [take used_count free_entry used].
    pose proof (used_count_le_length (take n rest)) as Hle.
    rewrite length_take in Hle. change (0 =? 0) with true. cbv iota. lia. }
  destruct (lookup_lt_is_Some_2 tbl (Z.to_nat p) ltac:(lia)) as (e & He).
  exists slots, tbl, e.
  split; [unfold htab_destroy_frees; rewrite Ht, Hsz; exact Hslots|].
  split; [lia|]. split; [rewrite Hin; lia|].
  split; [exact Ht|]. split; [exact He|].
  rewrite (drop_S tbl e (Z.to_nat p) He) in Hlast, Hsum.
  cbn [used_count] in Hsum. intros Hu. rewrite Hu in Hsum.
  change (0 =? 0) with true in Hsum. cbv iota in Hsum.
  pose proof (used_count_le_length (drop (S (Z.to_nat p)) tbl)) as Hle.
  rewrite length_drop in Hle. lia.
Qed.

Lemma htab_destroy_full_table_leaks_example :
  exists slots tbl e,
    htab_destroy_frees
      (mk_htab (Some [free_entry; mk_entry 1 (Some str_a); mk_entry 2 (Some str_c);
                      mk_entry 3 (Some str_d); mk_entry 1 (Some str_b);
                      mk_entry 4 (Some str_e)]) 5 5) = Done slots /\
    Z.of_nat (length slots) = 5 - 1 /\
    ~ In (Z.to_nat 5) slots /\
    htab_table
      (mk_htab (Some [free_entry; mk_entry 1 (Some str_a); mk_entry 2 (Some str_c);
                      mk_entry 3 (Some str_d); mk_entry 1 (Some str_b);
                      mk_entry 4 (Some str_e)]) 5 5) = Some tbl /\
    tbl !! Z.to_nat 5 = Some e /\ used e <> 0.
Proof.
  apply (htab_destroy_full_table_leaks 5 5
           [(true, str_a); (true, str_b); (true, str_c); (true, str_d); (true, str_e)]
           [1; 4; 2; 3; 5]).
  - lia.
  - exact prime_5.
  - simpl. lia.
  - repeat constructor.
  - vm_compute. reflexivity.
  - reflexivity.
Defined.

(** ** Initialisation and tear-down *)

Lemma count_call_app c tr tr' :
  count_call c (tr ++ tr') = (count_call c tr + count_call c tr')%nat.
Proof.
  induction tr as [|x tr IH]; simpl; [reflexivity|]. rewrite IH. lia.
Qed.

Lemma htab_create_table fuel calloc_ok nel r h :
  htab_create fuel calloc_ok nel = Done (r, h) ->
  (calloc_ok = true -> exists tbl, htab_table h = Some tbl) /\
  (calloc_ok = false -> htab_table h = None).
Proof.
  unfold htab_create.
  destruct (next_prime_loop fuel (Z.lor nel 1)) as [p| |]; cbn [obind]; try discriminate.
  intros H. injection H as _ <-. cbn [htab_table].
  split; intros ->; [eexists; reflexivity | reflexivity].
Qed.

(** A first initialisation in which every object is created. *)
Lemma wince_init_first HTAB_SIZE fuel env g r h :
  concurrent_usage g = -1 -> nothing_held g ->
  all_acquired env = true ->
  htab_create fuel (table_allocated env) HTAB_SIZE = Done (r, h) ->
  exists g',
    wince_init HTAB_SIZE fuel env g = Done (LIBUSB_SUCCESS, g') /\
    concurrent_usage g' = 0 /\ all_held g' /\ htab g' = h /\
    os_trace g' = os_trace g ++
      [OsCreate InitSemaphore; OsWait InitSemaphore; OsInitPolling;
       OsCreate DriverHandle; OsCreate (RequestEvent 0); OsCreate (RequestEvent 1);
       OsCreate ResponseSemaphore; OsCreate TimerMutex; OsCreate TimerThread;
       OsMutexInit] ++
      (if table_allocated env then [OsTableAllocated] else []) ++
      [OsReleaseSemaphore InitSemaphore; OsClose InitSemaphore].
Proof.
  intros Hu Hheld Hall Hc.
  destruct g as [hf ht cu th mu tp rc rq rs dh [tbl sz fl] tr0].
  destruct Hheld as (Hth & Hmu & Hrq & Hrs & Hdh & Hhs).
  cbn [concurrent_usage timer_thread timer_mutex timer_request timer_response
       driver_handle htab htab_table] in *.
  subst cu th mu rq rs dh tbl.
  destruct env as [sc sa dl dr ev rs mu th ta tj].
  unfold all_acquired in Hall.
  cbn [init_semaphore_created init_semaphore_acquired dllimports_resolved
       driver_opened request_event_created response_semaphore_created
       timer_mutex_created timer_thread_created table_allocated] in *.
  repeat (apply andb_true_iff in Hall; destruct Hall as [Hall ?]).
  subst sc sa dl dr rs mu th.
  unfold wince_init, acquire_all, htab_create_call.
  cbn [init_semaphore_created init_semaphore_acquired dllimports_resolved
       driver_opened request_event_created response_semaphore_created
       timer_mutex_created timer_thread_created table_allocated negb].
  rewrite Hc.
  replace (ev 0%nat) with true by congruence.
  replace (ev 1%nat) with true by congruence.
  destruct ta; eexists; (split; [lazy -[app]; reflexivity|]);
    (split; [reflexivity|]); (split; [repeat split; reflexivity|]);
    (split; [reflexivity|]); cbn [os_trace]; rewrite <- !app_assoc; reflexivity.
Qed.

(** An initialisation that is not the first one: only the counter moves. *)
Lemma wince_init_nested HTAB_SIZE fuel env g :
  concurrent_usage g <> -1 ->
  init_semaphore_created env = true -> init_semaphore_acquired env = true ->
  wince_init HTAB_SIZE fuel env g =
    Done (LIBUSB_SUCCESS,
          os (OsClose InitSemaphore)
            (os (OsReleaseSemaphore InitSemaphore)
               (set_concurrent_usage (concurrent_usage g + 1)
                  (os (OsWait InitSemaphore) (os (OsCreate InitSemaphore) g))))).
Proof.
  intros Hu Hc Ha. unfold wince_init. rewrite Hc, Ha. cbn [negb].
  cbn [concurrent_usage set_concurrent_usage os].
  destruct (concurrent_usage g + 1 =? 0) eqn:E; [apply Z.eqb_eq in E; lia|].
  cbn [obind]. cbn [concurrent_usage set_concurrent_usage os].
  rewrite E. reflexivity.
Qed.

(** A tear-down that is not the last one: only the counter moves. *)
Lemma wince_exit_nested env g :
  1 <= concurrent_usage g ->
  init_semaphore_created env = true -> init_semaphore_acquired env = true ->
  wince_exit env g =
    (false,
     os (OsClose InitSemaphore)
       (os (OsReleaseSemaphore InitSemaphore)
          (set_concurrent_usage (concurrent_usage g - 1)
             (os (OsWait InitSemaphore) (os (OsCreate InitSemaphore) g))))).
Proof.
  intros Hu Hc Ha. unfold wince_exit. rewrite Hc, Ha. cbn [negb].
  cbn [concurrent_usage set_concurrent_usage os].
  destruct (concurrent_usage g - 1 <? 0) eqn:E; [apply Z.ltb_lt in E; lia|].
  reflexivity.
Qed.

(** The last tear-down. *)
Lemma wince_exit_last env g :
  concurrent_usage g = 0 -> all_held g ->
  init_semaphore_created env = true -> init_semaphore_acquired env = true ->
  exists g',
    wince_exit env g = (true, g') /\
    concurrent_usage g' = -1 /\ nothing_held g' /\
    os_trace g' = os_trace g ++
      [OsCreate InitSemaphore; OsWait InitSemaphore;
       OsSetEvent (RequestEvent 1); OsWait TimerThread] ++
      (if timer_thread_joined env then [] else [OsTerminateThread TimerThread]) ++
      [OsClose TimerThread; OsClose (RequestEvent 0); OsClose (RequestEvent 1);
       OsClose ResponseSemaphore; OsClose TimerMutex] ++
      (match htab_table (htab g) with
       | Some _ => [OsMutexDestroy; OsTableFreed]
       | None => []
       end) ++
      [OsClose DriverHandle; OsReleaseSemaphore InitSemaphore; OsClose InitSemaphore].
Proof.
  intros Hu Hheld Hc Ha.
  destruct g as [hf ht cu th mu tp rc rq rs dh [tbl sz fl] tr0].
  destruct Hheld as (Hth & Hmu & Hrq & Hrs & Hdh).
  cbn [concurrent_usage timer_thread timer_mutex timer_request timer_response
       driver_handle htab htab_table] in *.
  subst cu th mu rq rs dh.
  destruct env as [sc sa dl dr ev rs mu th ta tj].
  cbn [init_semaphore_created init_semaphore_acquired timer_thread_joined] in *.
  subst sc sa.
  destruct tj, tbl; eexists; (split; [lazy -[app]; reflexivity|]);
    (split; [reflexivity|]); (split; [repeat split; reflexivity|]);
    cbn [os_trace]; rewrite <- !app_assoc; reflexivity.
Qed.

Lemma all_acquired_guard env :
  all_acquired env = true ->
  init_semaphore_created env = true /\ init_semaphore_acquired env = true.
Proof.
  unfold all_acquired. intros H.
  repeat (apply andb_true_iff in H; destruct H as [H ?]). split; assumption.
Qed.

Lemma run_lifecycle_inv HTAB_SIZE fuel env r h tr0 n : forall calls depth g tr,
  all_acquired env = true ->
  htab_create fuel (table_allocated env) HTAB_SIZE = Done (r, h) ->
  os_trace g = tr0 ++ tr ->
  lifecycle_inv (table_allocated env) depth g tr ->
  final_depth depth calls = Some n ->
  exists codes g' tr',
    run_lifecycle HTAB_SIZE fuel env calls g = Done (codes, g') /\
    Forall (fun c => c = LIBUSB_SUCCESS) codes /\
    os_trace g' = tr0 ++ tr' /\
    lifecycle_inv (table_allocated env) n g' tr'.
Proof.
  induction calls as [|c calls IH]; intros depth g tr Hall Hc Htr Hinv Hnest.
  - injection Hnest as ->.
    exists [], g, tr. split; [reflexivity|]. split; [constructor|]. split; assumption.
  - destruct (all_acquired_guard env Hall) as [Hsc Hsa].
    destruct c; cbn [run_lifecycle final_depth] in *.
    + (* wince_init *)
      destruct depth as [|d].
      * destruct Hinv as (Hu & Hheld & Hcnt & Htab & Hmx).
        destruct (wince_init_first HTAB_SIZE fuel env g r h Hu Hheld Hall Hc)
          as (g1 & Hrun & Hu1 & Hheld1 & Hh1 & Htr1).
        rewrite Hrun. cbn [obind].
        rewrite Htr, <- app_assoc in Htr1.
        destruct (IH 1%nat g1 _ Hall Hc Htr1) as (codes & g' & tr' & Hrest & Hok & Htr' & Hinv');
          [|assumption|].
        -- split; [assumption|]. split; [assumption|].
           destruct (htab_create_table _ _ _ _ _ Hc) as [Hsome Hnone].
           rewrite Hh1. split; [|split; [|split]].
           ++ destruct (table_allocated env); [apply Hsome | apply Hnone]; reflexivity.
           ++ intros k. rewrite count_call_app, (Hcnt k).
              rewrite (count_call_app (OsClose k)).
              destruct (table_allocated env);
                destruct k as [| |[|[|?]]| | |]; cbn; lia.
           ++ rewrite count_call_app, Htab.
              rewrite (count_call_app OsTableFreed).
              destruct (table_allocated env); cbn; lia.
           ++ unfold mutex_inv in *. rewrite !count_call_app.
              destruct (table_allocated env); cbn in *; lia.
        -- rewrite Hrest. cbn [obind]. exists (LIBUSB_SUCCESS :: codes), g', tr'.
           split; [reflexivity|]. split; [constructor; [reflexivity | assumption]|].
           split; assumption.
      * destruct Hinv as (Hu & Hheld & Htbl & Hcnt & Htab & Hmx).
        pose proof (wince_init_nested HTAB_SIZE fuel env g ltac:(lia) Hsc Hsa) as Hrun.
        match type of Hrun with _ = Done (_, ?x) => set (g1 := x) in * end.
        rewrite Hrun. cbn [obind].
        destruct (IH (S (S d)) g1 (tr ++ [OsCreate InitSemaphore; OsWait InitSemaphore;
                     OsReleaseSemaphore InitSemaphore; OsClose InitSemaphore]) Hall Hc)
          as (codes & g' & tr' & Hrest & Hok & Htr' & Hinv'); [| |exact Hnest|].
        -- subst g1. cbn [os_trace os set_concurrent_usage].
           rewrite Htr, <- !app_assoc. reflexivity.
        -- split; [cbn; lia|]. split; [exact Hheld|]. split; [exact Htbl|].
           split; [|split].
           ++ intros k. rewrite count_call_app, (Hcnt k), (count_call_app (OsClose k)).
              destruct k as [| |[|[|?]]| | |]; cbn; lia.
           ++ rewrite count_call_app, Htab, (count_call_app OsTableFreed). cbn. lia.
           ++ unfold mutex_inv in *. rewrite !count_call_app.
              destruct (table_allocated env); cbn in *; lia.
        -- rewrite Hrest. cbn [obind]. exists (LIBUSB_SUCCESS :: codes), g', tr'.
           split; [reflexivity|]. split; [constructor; [reflexivity | assumption]|].
           split; assumption.
    + (* wince_exit *)
      destruct depth as [|[|d]]; [discriminate| |].
      * destruct Hinv as (Hu & Hheld & Htbl & Hcnt & Htab & Hmx).
        destruct (wince_exit_last env g Hu Hheld Hsc Hsa) as (g1 & Hrun & Hu1 & Hheld1 & Htr1).
        rewrite Hrun. cbn [snd].
        rewrite Htr, <- app_assoc in Htr1.
        apply (IH 0%nat g1 _ Hall Hc Htr1); [|assumption].
        split; [assumption|]. split; [assumption|]. split; [|split].
        -- intros k. rewrite count_call_app, (Hcnt k), (count_call_app (OsClose k)).
           destruct (timer_thread_joined env), (table_allocated env);
             [destruct Htbl as [tbl ->] | rewrite Htbl | destruct Htbl as [tbl ->] | rewrite Htbl];
             destruct k as [| |[|[|?]]| | |]; cbn; lia.
        -- rewrite count_call_app, Htab, (count_call_app OsTableFreed).
           destruct (timer_thread_joined env), (table_allocated env);
             [destruct Htbl as [tbl ->] | rewrite Htbl | destruct Htbl as [tbl ->] | rewrite Htbl];
             cbn; lia.
        -- unfold mutex_inv in *. rewrite !count_call_app.
           destruct (timer_thread_joined env), (table_allocated env);
             [destruct Htbl as [tbl ->] | rewrite Htbl | destruct Htbl as [tbl ->] | rewrite Htbl];
             cbn in *; lia.
      * destruct Hinv as (Hu & Hheld & Htbl & Hcnt & Htab & Hmx).
        pose proof (wince_exit_nested env g ltac:(lia) Hsc Hsa) as Hrun.
        match type of Hrun with _ = (_, ?x) => set (g1 := x) in * end.
        rewrite Hrun. cbn [snd].
        apply (IH (S d) g1 (tr ++ [OsCreate InitSemaphore; OsWait InitSemaphore;
                     OsReleaseSemaphore InitSemaphore; OsClose InitSemaphore]) Hall Hc);
          [| |exact Hnest].
        -- subst g1. cbn [os_trace os set_concurrent_usage].
           rewrite Htr, <- !app_assoc. reflexivity.
        -- split; [cbn; lia|]. split; [exact Hheld|]. split; [exact Htbl|].
           split; [|split].
           ++ intros k. rewrite count_call_app, (Hcnt k), (count_call_app (OsClose k)).
              destruct k as [| |[|[|?]]| | |]; cbn; lia.
           ++ rewrite count_call_app, Htab, (count_call_app OsTableFreed). cbn. lia.
           ++ unfold mutex_inv in *. rewrite !count_call_app.
              destruct (table_allocated env); cbn in *; lia.
Qed.

(** X8: balanced calls.  From the initial state (counter at -1, nothing
    held), any sequence of calls of [wince_init] and [wince_exit] in which no
    exit comes without an initialisation to undo and every initialisation is
    undone, run in an environment in which every handle can be created, ends
    with the counter at -1 and no handle held; every call of [wince_init]
    has returned [LIBUSB_SUCCESS]; each handle has been closed exactly as
    often as it was created, and the table freed as often as it was
    allocated.  The write mutex of the table is initialised once per first
    initialisation; it is destroyed as often when the table can be
    allocated, and never when the allocation fails: [htab_destroy] returns
    before it for a null table. *)
Theorem lifecycle_balanced HTAB_SIZE fuel env calls g r h :
  all_acquired env = true ->
  htab_create fuel (table_allocated env) HTAB_SIZE = Done (r, h) ->
  concurrent_usage g = -1 -> nothing_held g ->
  final_depth 0 calls = Some 0%nat ->
  exists codes g' tr,
    run_lifecycle HTAB_SIZE fuel env calls g = Done (codes, g') /\
    Forall (fun c => c = LIBUSB_SUCCESS) codes /\
    concurrent_usage g' = -1 /\ nothing_held g' /\
    os_trace g' = os_trace g ++ tr /\
    (forall k, count_call (OsCreate k) tr = count_call (OsClose k) tr) /\
    count_call OsTableAllocated tr = count_call OsTableFreed tr /\
    count_call OsMutexInit tr = count_call OsInitPolling tr /\
    count_call OsMutexDestroy tr
    = (if table_allocated env then count_call OsMutexInit tr else 0%nat).
Proof.
  intros Hall Hc Hu Hheld Hnest.
  destruct (run_lifecycle_inv HTAB_SIZE fuel env r h (os_trace g) 0 calls 0 g [] Hall Hc)
    as (codes & g' & tr & Hrun & Hok & Htr & Hinv); try assumption.
  - rewrite app_nil_r. reflexivity.
  - split; [assumption|]. split; [assumption|]. split; [intros k; reflexivity|].
    split; [reflexivity|]. unfold mutex_inv.
    destruct (table_allocated env); split; reflexivity.
  - exists codes, g', tr. destruct Hinv as (Hu' & Hheld' & Hcnt & Htab & Hmi & Hmd).
    split; [exact Hrun|]. split; [exact Hok|]. split; [exact Hu'|].
    split; [exact Hheld'|]. split; [exact Htr|]. split; [exact Hcnt|].
    split; [exact Htab|]. split; [exact Hmi|].
    destruct (table_allocated env); lia.
Qed.

Lemma lifecycle_balanced_example :
  exists codes g' tr,
    run_lifecycle 1021 32 env_all_ok
      [CallInit; CallInit; CallExit; CallInit; CallExit; CallExit; CallInit; CallExit]
      initial_globals = Done (codes, g') /\
    Forall (fun c => c = LIBUSB_SUCCESS) codes /\
    concurrent_usage g' = -1 /\ nothing_held g' /\
    os_trace g' = os_trace initial_globals ++ tr /\
    (forall k, count_call (OsCreate k) tr = count_call (OsClose k) tr) /\
    count_call OsTableAllocated tr = count_call OsTableFreed tr /\
    count_call OsMutexInit tr = count_call OsInitPolling tr /\
    count_call OsMutexDestroy tr
    = (if table_allocated env_all_ok then count_call OsMutexInit tr else 0%nat).
Proof.
  apply (lifecycle_balanced 1021 32 env_all_ok _ initial_globals 1 (htab_empty 1021)).
  - reflexivity.
  - vm_compute. reflexivity.
  - reflexivity.
  - repeat split; reflexivity.
  - reflexivity.
Defined.

(** X9: between a first initialisation and the exit that undoes it the
    objects stay.  After calls that leave [n + 1] initialisations to undo, the
    counter is [n], the driver handle, both events, the semaphore, the mutex
    and the thread are held, and each of them has been created exactly once
    more than it has been closed. *)
Theorem lifecycle_epoch HTAB_SIZE fuel env calls g r h n :
  all_acquired env = true ->
  htab_create fuel (table_allocated env) HTAB_SIZE = Done (r, h) ->
  concurrent_usage g = -1 -> nothing_held g ->
  final_depth 0 calls = Some (S n) ->
  exists codes g' tr,
    run_lifecycle HTAB_SIZE fuel env calls g = Done (codes, g') /\
    Forall (fun c => c = LIBUSB_SUCCESS) codes /\
    concurrent_usage g' = Z.of_nat n /\ all_held g' /\
    os_trace g' = os_trace g ++ tr /\
    (forall k, count_call (OsCreate k) tr
               = (count_call (OsClose k) tr + held_after_init k)%nat).
Proof.
  intros Hall Hc Hu Hheld Hnest.
  destruct (run_lifecycle_inv HTAB_SIZE fuel env r h (os_trace g) (S n) calls 0 g []
              Hall Hc)
    as (codes & g' & tr & Hrun & Hok & Htr & Hinv); try assumption.
  - rewrite app_nil_r. reflexivity.
  - split; [assumption|]. split; [assumption|]. split; [intros k; reflexivity|].
    split; [reflexivity|]. unfold mutex_inv.
    destruct (table_allocated env); split; reflexivity.
  - exists codes, g', tr. destruct Hinv as (Hu' & Hheld' & _ & Hcnt & _).
    repeat split; try assumption; apply Hheld'.
Qed.

Lemma lifecycle_epoch_example :
  exists codes g' tr,
    run_lifecycle 1021 32 env_all_ok [CallInit; CallInit; CallExit; CallInit]
      initial_globals = Done (codes, g') /\
    Forall (fun c => c = LIBUSB_SUCCESS) codes /\
    concurrent_usage g' = Z.of_nat 1 /\ all_held g' /\
    os_trace g' = os_trace initial_globals ++ tr /\
    (forall k, count_call (OsCreate k) tr
               = (count_call (OsClose k) tr + held_after_init k)%nat).
Proof.
  apply (lifecycle_epoch 1021 32 env_all_ok _ initial_globals 1 (htab_empty 1021)).
  - reflexivity.
  - vm_compute. reflexivity.
  - reflexivity.
  - repeat split; reflexivity.
  - reflexivity.
Defined.

(** X10: an exit too many.  Called with the counter at -1 and nothing held,
    [wince_exit] enters its last-exit block all the same, closes nothing and
    leaves the counter at -2; the next [wince_init] then is not a first
    initialisation: it returns [LIBUSB_SUCCESS] with the counter back at -1
    and without opening the driver or creating any object. *)
Theorem exit_without_init HTAB_SIZE fuel env g :
  concurrent_usage g = -1 -> nothing_held g ->
  init_semaphore_created env = true -> init_semaphore_acquired env = true ->
  exists g1 g2,
    wince_exit env g = (true, g1) /\
    concurrent_usage g1 = -2 /\ nothing_held g1 /\
    wince_init HTAB_SIZE fuel env g1 = Done (LIBUSB_SUCCESS, g2) /\
    concurrent_usage g2 = -1 /\ nothing_held g2 /\
    os_trace g2 = os_trace g ++
      [OsCreate InitSemaphore; OsWait InitSemaphore;
       OsReleaseSemaphore InitSemaphore; OsClose InitSemaphore;
       OsCreate InitSemaphore; OsWait InitSemaphore;
       OsReleaseSemaphore InitSemaphore; OsClose InitSemaphore].
Proof.
  intros Hu Hheld Hsc Hsa.
  assert (Hexit : exists g1, wince_exit env g = (true, g1) /\
            concurrent_usage g1 = -2 /\ nothing_held g1 /\
            os_trace g1 = os_trace g ++
              [OsCreate InitSemaphore; OsWait InitSemaphore;
               OsReleaseSemaphore InitSemaphore; OsClose InitSemaphore]).
  { destruct g as [hf ht cu th mu tp rc rq rs dh [tbl sz fl] tr0].
    destruct Hheld as (Hth & Hmu & Hrq & Hrs & Hdh & Hhs).
    cbn [concurrent_usage timer_thread timer_mutex timer_request timer_response
         driver_handle htab htab_table] in *.
    subst cu th mu rq rs dh tbl.
    destruct env as [sc sa dl dr ev rs mu th ta tj].
    cbn [init_semaphore_created init_semaphore_acquired] in *. subst sc sa.
    eexists. split; [lazy -[app]; reflexivity|].
    split; [reflexivity|]. split; [repeat split; reflexivity|].
    cbn [os_trace]. rewrite <- !app_assoc. reflexivity. }
  destruct Hexit as (g1 & Hexit & Hu1 & Hheld1 & Htr1).
  exists g1. eexists. split; [exact Hexit|]. split; [assumption|]. split; [assumption|].
  split; [apply wince_init_nested; [lia | assumption | assumption]|].
  cbn [concurrent_usage os set_concurrent_usage os_trace].
  split; [lia|]. split; [exact Hheld1|].
  rewrite Htr1, <- !app_assoc. reflexivity.
Qed.

Lemma exit_without_init_example :
  exists g1 g2,
    wince_exit env_all_ok initial_globals = (true, g1) /\
    concurrent_usage g1 = -2 /\ nothing_held g1 /\
    wince_init 1021 32 env_all_ok g1 = Done (LIBUSB_SUCCESS, g2) /\
    concurrent_usage g2 = -1 /\ nothing_held g2 /\
    os_trace g2 = os_trace initial_globals ++
      [OsCreate InitSemaphore; OsWait InitSemaphore;
       OsReleaseSemaphore InitSemaphore; OsClose InitSemaphore;
       OsCreate InitSemaphore; OsWait InitSemaphore;
       OsReleaseSemaphore InitSemaphore; OsClose InitSemaphore].
Proof.
  apply (exit_without_init 1021 32 env_all_ok initial_globals).
  - reflexivity.
  - repeat split; reflexivity.
  - reflexivity.
  - reflexivity.
Defined.

(** The state a failed first initialisation leaves. *)
Lemma wince_init_failure_state HTAB_SIZE fuel env g :
  concurrent_usage g = -1 -> nothing_held g ->
  init_semaphore_created env = true -> init_semaphore_acquired env = true ->
  acquisition_fails env = true ->
  exists r g',
    wince_init HTAB_SIZE fuel env g = Done (r, g') /\
    r <> LIBUSB_SUCCESS /\ concurrent_usage g' = -1 /\ nothing_held g'.
Proof.
  intros Hu Hheld Hc Ha Hfail.
  destruct g as [hf ht cu th mu tp rc rq rs dh [tbl sz fl] tr0].
  destruct Hheld as (Hth & Hmu & Hrq & Hrs & Hdh & Hhs).
  cbn [concurrent_usage timer_thread timer_mutex timer_request timer_response
       driver_handle htab htab_table] in *.
  subst cu th mu rq rs dh tbl.
  destruct env as [sc sa dl dr ev rs mu th ta tj].
  unfold acquisition_fails in Hfail.
  cbn [init_semaphore_created init_semaphore_acquired dllimports_resolved
       driver_opened request_event_created response_semaphore_created
       timer_mutex_created timer_thread_created] in *.
  subst sc sa.
  unfold wince_init, acquire_all.
  cbn [init_semaphore_created init_semaphore_acquired dllimports_resolved
       driver_opened request_event_created response_semaphore_created
       timer_mutex_created timer_thread_created negb].
  destruct dl; [destruct dr; [destruct (ev 0%nat); [destruct (ev 1%nat);
    [destruct rs; [destruct mu; [destruct th; [discriminate Hfail|]|]|]|]|]|]|];
    eexists _, _;
    (split; [lazy -[app]; reflexivity|]);
    (split; [discriminate|]); (split; [reflexivity|]);
    repeat split; reflexivity.
Qed.

(** X11: a failed first initialisation can be tried again.  After a
    [wince_init] that failed at one of its acquisitions, the next call is a
    first initialisation again: when every object can now be created it
    returns [LIBUSB_SUCCESS], holds every handle, and leaves the counter
    at 0. *)
Theorem init_again_after_failure HTAB_SIZE fuel env1 env2 g r h :
  concurrent_usage g = -1 -> nothing_held g ->
  init_semaphore_created env1 = true -> init_semaphore_acquired env1 = true ->
  acquisition_fails env1 = true ->
  all_acquired env2 = true ->
  htab_create fuel (table_allocated env2) HTAB_SIZE = Done (r, h) ->
  exists r1 g1 g2,
    wince_init HTAB_SIZE fuel env1 g = Done (r1, g1) /\ r1 <> LIBUSB_SUCCESS /\
    wince_init HTAB_SIZE fuel env2 g1 = Done (LIBUSB_SUCCESS, g2) /\
    concurrent_usage g2 = 0 /\ all_held g2 /\ htab g2 = h.
Proof.
  intros Hu Hheld Hc Ha Hfail Hall Hh.
  destruct (wince_init_failure_state HTAB_SIZE fuel env1 g Hu Hheld Hc Ha Hfail)
    as (r1 & g1 & Hrun1 & Hr1 & Hu1 & Hheld1).
  destruct (wince_init_first HTAB_SIZE fuel env2 g1 r h Hu1 Hheld1 Hall Hh)
    as (g2 & Hrun2 & Hu2 & Hheld2 & Hh2 & _).
  exists r1, g1, g2. repeat split; try assumption; apply Hheld2.
Qed.

Lemma init_again_after_failure_example :
  exists r1 g1 g2,
    wince_init 1021 32 env_mutex_fails initial_globals = Done (r1, g1) /\
    r1 <> LIBUSB_SUCCESS /\
    wince_init 1021 32 env_all_ok g1 = Done (LIBUSB_SUCCESS, g2) /\
    concurrent_usage g2 = 0 /\ all_held g2 /\ htab g2 = htab_empty 1021.
Proof.
  apply (init_again_after_failure 1021 32 env_mutex_fails env_all_ok initial_globals 1).
  - reflexivity.
  - repeat split; reflexivity.
  - reflexivity.
  - reflexivity.
  - reflexivity.
  - reflexivity.
  - vm_compute. reflexivity.
Defined.

(** ** The clock *)

(** X12: a real-time query between 1970 and 2038 succeeds without touching
    the timer thread; its seconds and nanoseconds are in range, the
    nanoseconds are a multiple of 100, and the file time can be recovered
    from the two fields. *)
Theorem clock_realtime_reading MONO REAL fuel env tp g lo hi :
  REAL <> MONO ->
  system_filetime env = (lo, hi) ->
  0 <= lo < 2 ^ 32 -> 0 <= hi < 2 ^ 32 ->
  epoch_time <= lo + hi * 2 ^ 32 < epoch_time + 2 ^ 31 * 10000000 ->
  exists ts,
    wince_clock_gettime MONO REAL fuel env REAL tp g
      = Done (LIBUSB_SUCCESS, ts, os OsGetSystemTime g) /\
    0 <= tv_sec ts < 2 ^ 31 /\ 0 <= tv_nsec ts < 1000000000 /\
    tv_nsec ts mod 100 = 0 /\
    epoch_time + tv_sec ts * 10000000 + tv_nsec ts / 100 = lo + hi * 2 ^ 32.
Proof.
  intros Hne Hft Hlo Hhi Hr.
  exists (realtime_timespec (lo, hi)). split.
  - unfold wince_clock_gettime.
    destruct (REAL =? MONO) eqn:E; [apply Z.eqb_eq in E; contradiction|].
    rewrite Z.eqb_refl. unfold realtime_query. rewrite Hft. reflexivity.
  - rewrite (realtime_timespec_in_range lo hi Hlo Hhi Hr). cbn [tv_sec tv_nsec].
    unfold epoch_time in *.
    set (d := lo + hi * 2 ^ 32 - 116444736000000000).
    assert (Hd : 0 <= d < 2 ^ 31 * 10000000) by (unfold d; lia).
    assert (Hq : 0 <= d / 10000000 < 2 ^ 31).
    { split; [apply Z.div_pos; lia | apply Z.div_lt_upper_bound; lia]. }
    pose proof (Z.mod_pos_bound d 10000000 ltac:(lia)) as Hm.
    split; [exact Hq|]. split; [lia|]. split.
    + apply Z_mod_mult.
    + rewrite Z.div_mul by lia.
      pose proof (Z.div_mod d 10000000 ltac:(lia)) as Hdm. unfold d in *. lia.
Qed.

Lemma clock_realtime_reading_example :
  exists ts,
    wince_clock_gettime 0 1 0 env_system_time 1
      (mk_timespec 0 0) globals_with_counter
      = Done (LIBUSB_SUCCESS, ts, os OsGetSystemTime globals_with_counter) /\
    0 <= tv_sec ts < 2 ^ 31 /\ 0 <= tv_nsec ts < 1000000000 /\
    tv_nsec ts mod 100 = 0 /\
    epoch_time + tv_sec ts * 10000000 + tv_nsec ts / 100
      = 123456700 + 30000000 * 2 ^ 32.
Proof.
  apply (clock_realtime_reading 0 1 0 env_system_time
           (mk_timespec 0 0) globals_with_counter 123456700 30000000);
    [lia | reflexivity | lia | lia | unfold epoch_time; lia].
Defined.

Lemma to_long_small z : 0 <= z < 2 ^ 31 -> to_long z = z.
Proof.
  intros H. unfold to_long, ULONG_MODULUS.
  rewrite Z.mod_small by lia.
  destruct (z <? 2 ^ 31) eqn:E; [reflexivity | apply Z.ltb_ge in E; lia].
Qed.

Lemma monotonic_query_rounds env : forall n fuel k tp g,
  (n < fuel)%nat ->
  (forall j, (j < n)%nat -> response_wait env (k + j) = WAIT_TIMEOUT) ->
  response_wait env (k + n) = WAIT_OBJECT_0 ->
  0 <= fst (request_count g) ->
  fst (request_count g) + Z.of_nat n + 1 < 2 ^ 31 ->
  exists g',
    monotonic_query fuel env k tp g
      = Done (LIBUSB_SUCCESS, worker_sample env (k + n), g') /\
    request_count g'
      = (fst (request_count g) + Z.of_nat n + 1, snd (request_count g)) /\
    os_trace g' = os_trace g ++ request_rounds (S n)
                    ++ [OsWait TimerMutex; OsReleaseMutex TimerMutex].
Proof.
  induction n as [|n IH]; intros fuel k tp g Hn Hbefore Hat Hlo Hhi;
    (destruct fuel as [|fuel]; [lia|]); cbn [monotonic_query].
  - rewrite Nat.add_0_r in *. rewrite Hat.
    change (WAIT_OBJECT_0 =? WAIT_OBJECT_0) with true. cbv iota.
    eexists. split; [reflexivity|]. split.
    + cbn. rewrite to_long_small by lia. f_equal. lia.
    + cbn. rewrite <- !app_assoc. reflexivity.
  - pose proof (Hbefore 0%nat ltac:(lia)) as H0. rewrite Nat.add_0_r in H0.
    rewrite H0. change (WAIT_TIMEOUT =? WAIT_OBJECT_0) with false.
    change (WAIT_TIMEOUT =? WAIT_TIMEOUT) with true. cbv iota.
    match goal with |- context [monotonic_query fuel env (S k) tp ?x] =>
      set (g1 := x) end.
    assert (Hrc : request_count g1
                  = (fst (request_count g) + 1, snd (request_count g))).
    { subst g1. cbn. rewrite to_long_small by lia. reflexivity. }
    assert (Htr : os_trace g1 = os_trace g ++ request_rounds 1).
    { subst g1. cbn. rewrite <- !app_assoc. reflexivity. }
    destruct (IH fuel (S k) tp g1) as (g' & Hrun & Hrc' & Htr').
    + lia.
    + intros j Hj. replace (S k + j)%nat with (k + S j)%nat by lia.
      apply Hbefore. lia.
    + replace (S k + n)%nat with (k + S n)%nat by lia. exact Hat.
    + rewrite Hrc. cbn [fst]. lia.
    + rewrite Hrc. cbn [fst]. lia.
    + exists g'. replace (k + S n)%nat with (S k + n)%nat by lia.
      split; [exact Hrun|]. split.
      * rewrite Hrc', Hrc. cbn [fst snd]. f_equal. lia.
      * rewrite Htr', Htr. rewrite <- !app_assoc. reflexivity.
Qed.

(** X13: a monotonic query whose first [n] waits time out and whose next
    wait is answered returns success with the sample of that moment; it has
    counted one request and set the request event once per wait, [n + 1]
    times in all, and locks the timer mutex only for the final copy. *)
Theorem clock_monotonic_requests MONO REAL fuel env tp g n :
  hires_frequency g <> 0 ->
  (n < fuel)%nat ->
  times_out_before env n ->
  response_wait env n = WAIT_OBJECT_0 ->
  0 <= fst (request_count g) ->
  fst (request_count g) + Z.of_nat n + 1 < 2 ^ 31 ->
  exists g',
    wince_clock_gettime MONO REAL fuel env MONO tp g
      = Done (LIBUSB_SUCCESS, worker_sample env n, g') /\
    request_count g'
      = (fst (request_count g) + Z.of_nat n + 1, snd (request_count g)) /\
    os_trace g' = os_trace g ++ request_rounds (S n)
                    ++ [OsWait TimerMutex; OsReleaseMutex TimerMutex].
Proof.
  intros Hf Hn Hbefore Hat Hlo Hhi.
  unfold wince_clock_gettime. rewrite Z.eqb_refl.
  destruct (hires_frequency g =? 0) eqn:E; [apply Z.eqb_eq in E; contradiction|].
  cbn [negb].
  apply (monotonic_query_rounds env n fuel 0%nat tp g Hn); try assumption.
Qed.

Lemma clock_monotonic_requests_example :
  exists g',
    wince_clock_gettime 0 1 5 env_two_timeouts 0 (mk_timespec 0 0)
      globals_with_counter
      = Done (LIBUSB_SUCCESS, mk_timespec 12 500, g') /\
    request_count g' = (0 + 2 + 1, 1) /\
    os_trace g' = [] ++ request_rounds 3
                    ++ [OsWait TimerMutex; OsReleaseMutex TimerMutex].
Proof.
  apply (clock_monotonic_requests 0 1 5 env_two_timeouts (mk_timespec 0 0)
           globals_with_counter 2%nat).
  - cbn. lia.
  - lia.
  - intros j Hj. destruct j as [|[|j]]; [reflexivity | reflexivity | lia].
  - reflexivity.
  - cbn. lia.
  - cbn. lia.
Defined.

(** ** The timer thread *)

Lemma hires_timespec_fields f c :
  0 < f < 2 ^ 64 -> 0 <= c < 2 ^ 64 -> c / f < 2 ^ 31 ->
  hires_timespec f (uint64 (1000000000000 / f)) c
    = mk_timespec (c / f) ((c mod f) / 1000 * (1000000000000 / f)) /\
  0 <= (c mod f) / 1000 * (1000000000000 / f) < 1000000000 /\
  (c mod f) / 1000 * (1000000000000 / f) * f <= (c mod f) * 1000000000.
Proof.
  intros Hf Hc Hq.
  pose proof (Z.mod_pos_bound c f ltac:(lia)) as Hr.
  set (r := c mod f) in *.
  assert (Hm : 0 <= r / 1000 /\ r / 1000 * 1000 <= r).
  { split; [apply Z.div_pos; lia|].
    pose proof (Z.mul_div_le r 1000 ltac:(lia)). lia. }
  assert (Ht : 0 <= 1000000000000 / f /\ 1000000000000 / f * f <= 1000000000000).
  { split; [apply Z.div_pos; lia|].
    pose proof (Z.mul_div_le 1000000000000 f ltac:(lia)). lia. }
  set (m := r / 1000) in *. set (t := 1000000000000 / f) in *.
  assert (Hle : m * t * f <= r * 1000000000) by nia.
  assert (Hn : 0 <= m * t < 1000000000) by nia.
  assert (Hpos : 0 <= c / f) by (apply Z.div_pos; lia).
  assert (Ht64 : t < 2 ^ 64).
  { unfold t. apply Z.div_lt_upper_bound; lia. }
  split; [|split; assumption].
  unfold hires_timespec, uint64, UINT64_MODULUS.
  rewrite (Z.mod_small c) by lia. fold r. fold m.
  fold t. rewrite (Z.mod_small t) by lia.
  rewrite (Z.mod_small (m * t)) by lia.
  rewrite !to_long_small by lia. reflexivity.
Qed.

(** X14: with the conversion factor the thread computes at its start, a
    counter value is turned into a time stamp whose seconds are
    [counter / frequency] and whose nanoseconds lie in [0, 10^9) and are
    never ahead of the exact fraction of the second. *)
Theorem hires_timespec_valid f c :
  0 < f < 2 ^ 64 -> 0 <= c < 2 ^ 64 -> c / f < 2 ^ 31 ->
  tv_sec (hires_timespec f (uint64 (1000000000000 / f)) c) = c / f /\
  0 <= tv_nsec (hires_timespec f (uint64 (1000000000000 / f)) c) < 1000000000 /\
  tv_nsec (hires_timespec f (uint64 (1000000000000 / f)) c) * f
    <= (c mod f) * 1000000000.
Proof.
  intros Hf Hc Hq.
  destruct (hires_timespec_fields f c Hf Hc Hq) as (-> & Hn & Hle).
  cbn [tv_sec tv_nsec]. split; [reflexivity|]. split; assumption.
Qed.

Lemma hires_timespec_valid_example :
  tv_sec (hires_timespec 3000000000 (uint64 (1000000000000 / 3000000000))
            22999999999) = 22999999999 / 3000000000 /\
  0 <= tv_nsec (hires_timespec 3000000000 (uint64 (1000000000000 / 3000000000))
                  22999999999) < 1000000000 /\
  tv_nsec (hires_timespec 3000000000 (uint64 (1000000000000 / 3000000000))
             22999999999) * 3000000000
    <= (22999999999 mod 3000000000) * 1000000000.
Proof.
  apply (hires_timespec_valid 3000000000 22999999999); [lia | lia |].
  apply Z.div_lt_upper_bound; lia.
Defined.

(** X15: time stamps follow the counter: a later counter value never gives
    an earlier time stamp. *)
Theorem hires_timespec_monotone f c1 c2 :
  0 < f < 2 ^ 64 -> 0 <= c1 -> c1 <= c2 -> c2 < 2 ^ 64 -> c2 / f < 2 ^ 31 ->
  tv_sec (hires_timespec f (uint64 (1000000000000 / f)) c1)
    < tv_sec (hires_timespec f (uint64 (1000000000000 / f)) c2) \/
  (tv_sec (hires_timespec f (uint64 (1000000000000 / f)) c1)
     = tv_sec (hires_timespec f (uint64 (1000000000000 / f)) c2) /\
   tv_nsec (hires_timespec f (uint64 (1000000000000 / f)) c1)
     <= tv_nsec (hires_timespec f (uint64 (1000000000000 / f)) c2)).
Proof.
  intros Hf H1 H12 H2 Hq.
  assert (Hq12 : c1 / f <= c2 / f) by (apply Z.div_le_mono; lia).
  destruct (hires_timespec_fields f c1 Hf ltac:(lia) ltac:(lia)) as (-> & _ & _).
  destruct (hires_timespec_fields f c2 Hf ltac:(lia) Hq) as (-> & _ & _).
  cbn [tv_sec tv_nsec].
  destruct (Z.eq_dec (c1 / f) (c2 / f)) as [E|E]; [right | left; lia].
  split; [exact E|].
  assert (Hr : c1 mod f <= c2 mod f).
  { pose proof (Z.div_mod c1 f ltac:(lia)). pose proof (Z.div_mod c2 f ltac:(lia)).
    rewrite E in *. lia. }
  apply Z.mul_le_mono_nonneg_r; [apply Z.div_pos; lia|].
  apply Z.div_le_mono; lia.
Qed.

Lemma hires_timespec_monotone_example :
  tv_sec (hires_timespec 1000000 (uint64 (1000000000000 / 1000000)) 3499999)
    < tv_sec (hires_timespec 1000000 (uint64 (1000000000000 / 1000000)) 3500000) \/
  (tv_sec (hires_timespec 1000000 (uint64 (1000000000000 / 1000000)) 3499999)
     = tv_sec (hires_timespec 1000000 (uint64 (1000000000000 / 1000000)) 3500000) /\
   tv_nsec (hires_timespec 1000000 (uint64 (1000000000000 / 1000000)) 3499999)
     <= tv_nsec (hires_timespec 1000000 (uint64 (1000000000000 / 1000000)) 3500000)).
Proof.
  apply (hires_timespec_monotone 1000000 3499999 3500000); try lia.
  apply Z.div_lt_upper_bound; lia.
Defined.

Lemma requests_counted_app h1 h2 :
  requests_counted (h1 ++ h2) = requests_counted h1 + requests_counted h2.
Proof.
  induction h1 as [|e h1 IH]; [reflexivity|].
  destruct e; cbn [app requests_counted]; lia.
Qed.

Lemma permits_released_app h1 h2 :
  permits_released (h1 ++ h2) = permits_released h1 + permits_released h2.
Proof.
  induction h1 as [|e h1 IH]; [reflexivity|].
  destruct e; cbn [app permits_released]; lia.
Qed.

Lemma permits_lost_app h1 h2 :
  permits_lost (h1 ++ h2) = permits_lost h1 + permits_lost h2.
Proof.
  induction h1 as [|e h1 IH]; [reflexivity|].
  destruct e; cbn [app permits_lost]; lia.
Qed.

Lemma counter_reads_app h1 h2 :
  counter_reads (h1 ++ h2) = counter_reads h1 + counter_reads h2.
Proof.
  induction h1 as [|e h1 IH]; [reflexivity|].
  destruct e; cbn [app counter_reads]; lia.
Qed.

Lemma release_calls_app h1 h2 :
  release_calls (h1 ++ h2) = release_calls h1 + release_calls h2.
Proof.
  induction h1 as [|e h1 IH]; [reflexivity|].
  destruct e; cbn [app release_calls]; lia.
Qed.

Ltac history :=
  rewrite ?requests_counted_app, ?permits_released_app, ?permits_lost_app,
    ?counter_reads_app, ?release_calls_app;
  cbn [requests_counted permits_released permits_lost counter_reads
         release_calls].

Lemma timer_keeps_trans P a b s1 s2 s3 :
  timer_keeps P a s1 s2 -> timer_keeps P b s2 s3 -> timer_keeps P (a + b) s1 s3.
Proof.
  unfold timer_keeps.
  intros (A1 & A2 & A3 & A4 & A5 & A6 & A7) (B1 & B2 & B3 & B4 & B5 & B6 & B7).
  split; [lia|]. split; [lia|]. split; [lia|]. split; [lia|].
  split; [lia|]. split; [lia|].
  intros HP. rewrite (B7 HP). exact (A7 HP).
Qed.

Ltac long_small :=
  repeat match goal with
         | |- context [to_long ?z] => rewrite (to_long_small z) by lia
         end.

Ltac timer_fields :=
  cbn [obind fst snd request_count set_request_count set_timer_tp
         hires_frequency os].

Ltac timer_done :=
  eexists; split; [reflexivity|]; timer_fields; long_small; history;
  (split; [lia|]); (split; [lia|]); (split; [lia|]); (split; [lia|]);
  (split; [lia|]); (split; [lia|]); intros _; lia.

(** One pass of the loop: it goes through whenever the frequency is not 0,
    returns exactly when the quit event is the one signalled, and keeps the
    balance. *)
Lemma timer_pass_once_keeps env k s :
  requests_nonneg env ->
  hires_frequency (fst s) <> 0 ->
  snd (request_count (fst s)) <> 0 ->
  0 <= fst (request_count (fst s)) ->
  fst (request_count (fst s)) + requests_offered env k 1 < 2 ^ 31 ->
  exists s',
    timer_pass_once env k s
      = Done (if timer_wait env k =? 1 then PassReturn 0 s' else PassContinue s') /\
    timer_keeps (releases_succeed env) (requests_offered env k 1) s s'.
Proof.
  intros Hnn Hf Hq Hlo Hhi. destruct (Hnn k) as (Hb & Hr & Hd).
  cbn [requests_offered] in *.
  destruct s as [g h]. cbn [fst snd] in *.
  unfold timer_pass_once, timer_keeps.
  destruct (timer_wait env k =? 0) eqn:E0; destruct (timer_wait env k =? 1) eqn:E1;
    cbn [negb andb].
  - apply Z.eqb_eq in E0, E1. lia.
  - (* a request for the time *)
    unfold request_count_at. rewrite E0.
    unfold timer_serve, timer_does, add_requests. timer_fields. long_small.
    destruct (fst (request_count g) + requests_before env k =? 0) eqn:Ec1.
    + timer_fields. long_small.
      destruct (fst (request_count g) + requests_before env k
                + requests_during_reset env k =? 0) eqn:Ec2; [timer_done|].
      apply Z.eqb_neq in Ec2.
      destruct (performance_counter env k) as [counter|].
      * timer_fields. destruct (hires_frequency g =? 0) eqn:Ef;
          [apply Z.eqb_eq in Ef; contradiction|].
        timer_fields. long_small.
        destruct (fst (request_count g) + requests_before env k
                  + requests_during_reset env k + requests_during_read env k =? 0)
          eqn:En; [apply Z.eqb_eq in En; lia|].
        destruct (semaphore_released env k) eqn:Erel; [timer_done|].
        eexists; split; [reflexivity|]; timer_fields; long_small; history.
        (split; [lia|]); (split; [lia|]); (split; [lia|]); (split; [lia|]);
        (split; [lia|]); (split; [lia|]).
        intros Hall. rewrite (Hall k) in Erel. discriminate.
      * timer_fields. long_small.
        destruct (fst (request_count g) + requests_before env k
                  + requests_during_reset env k + requests_during_read env k =? 0)
          eqn:En; [apply Z.eqb_eq in En; lia|].
        destruct (semaphore_released env k) eqn:Erel; [timer_done|].
        eexists; split; [reflexivity|]; timer_fields; long_small; history.
        (split; [lia|]); (split; [lia|]); (split; [lia|]); (split; [lia|]);
        (split; [lia|]); (split; [lia|]).
        intros Hall. rewrite (Hall k) in Erel. discriminate.
    + apply Z.eqb_neq in Ec1.
      destruct (performance_counter env k) as [counter|].
      * timer_fields. destruct (hires_frequency g =? 0) eqn:Ef;
          [apply Z.eqb_eq in Ef; contradiction|].
        timer_fields. long_small.
        destruct (fst (request_count g) + requests_before env k
                  + requests_during_read env k =? 0)
          eqn:En; [apply Z.eqb_eq in En; lia|].
        destruct (semaphore_released env k) eqn:Erel; [timer_done|].
        eexists; split; [reflexivity|]; timer_fields; long_small; history.
        (split; [lia|]); (split; [lia|]); (split; [lia|]); (split; [lia|]);
        (split; [lia|]); (split; [lia|]).
        intros Hall. rewrite (Hall k) in Erel. discriminate.
      * timer_fields. long_small.
        destruct (fst (request_count g) + requests_before env k
                  + requests_during_read env k =? 0)
          eqn:En; [apply Z.eqb_eq in En; lia|].
        destruct (semaphore_released env k) eqn:Erel; [timer_done|].
        eexists; split; [reflexivity|]; timer_fields; long_small; history.
        (split; [lia|]); (split; [lia|]); (split; [lia|]); (split; [lia|]);
        (split; [lia|]); (split; [lia|]).
        intros Hall. rewrite (Hall k) in Erel. discriminate.
  - (* the request to quit *)
    unfold request_count_at. rewrite E0.
    unfold add_requests, timer_does. timer_fields.
    destruct (snd (request_count g) =? 0) eqn:Eq; [apply Z.eqb_eq in Eq; contradiction|].
    timer_done.
  - (* the wait failed *)
    unfold add_requests. timer_done.
Qed.

Lemma timer_keeps_weaken P a b s s' :
  a <= b -> timer_keeps P a s s' -> timer_keeps P b s s'.
Proof.
  unfold timer_keeps. intros Hab (A1 & A2 & A3 & A4 & A5 & A6 & A7).
  split; [lia|]. split; [lia|]. split; [lia|]. split; [lia|].
  split; [lia|]. split; [lia|]. exact A7.
Qed.

Lemma requests_offered_nonneg env : requests_nonneg env ->
  forall n k, 0 <= requests_offered env k n.
Proof.
  intros Hnn. induction n as [|n IH]; intros k; cbn [requests_offered]; [lia|].
  destruct (Hnn k) as (Hb & Hr & Hd). pose proof (IH (S k)). lia.
Qed.

Lemma requests_offered_S env k n :
  requests_offered env k (S n)
  = requests_offered env k 1 + requests_offered env (S k) n.
Proof. cbn [requests_offered]. lia. Qed.

(** The loop ends, with the code 0, at the first pass that is woken by the
    quit event. *)
Lemma timer_loop_quits env : requests_nonneg env ->
  forall n fuel k s,
  (n < fuel)%nat ->
  hires_frequency (fst s) <> 0 ->
  snd (request_count (fst s)) <> 0 ->
  0 <= fst (request_count (fst s)) ->
  fst (request_count (fst s)) + requests_offered env k (S n) < 2 ^ 31 ->
  (forall j, (j < n)%nat -> timer_wait env (k + j) <> 1) ->
  timer_wait env (k + n) = 1 ->
  exists s', timer_loop fuel env k s = Done (0, s') /\
             timer_keeps (releases_succeed env) (requests_offered env k (S n)) s s'.
Proof.
  intros Hnn. induction n as [|n IH]; intros fuel k s Hn Hf Hq Hlo Hhi Hbefore Hat;
    (destruct fuel as [|fuel]; [lia|]); cbn [timer_loop];
    rewrite requests_offered_S in Hhi;
    pose proof (requests_offered_nonneg env Hnn 1 k) as Hone.
  - change (requests_offered env (S k) 0) with 0 in Hhi.
    destruct (timer_pass_once_keeps env k s Hnn Hf Hq Hlo ltac:(lia))
      as (s' & Hpass & Hkeep).
    rewrite Nat.add_0_r in Hat. rewrite Hat in Hpass.
    rewrite Hpass. cbn [obind]. exists s'. split; [reflexivity|].
    exact Hkeep.
  - pose proof (requests_offered_nonneg env Hnn (S n) (S k)) as Hrest.
    destruct (timer_pass_once_keeps env k s Hnn Hf Hq Hlo ltac:(lia))
      as (s1 & Hpass & Hkeep).
    pose proof (Hbefore 0%nat ltac:(lia)) as H0. rewrite Nat.add_0_r in H0.
    destruct (timer_wait env k =? 1) eqn:E; [apply Z.eqb_eq in E; contradiction|].
    rewrite Hpass. cbn [obind].
    pose proof Hkeep as (K1 & K2 & K3 & _).
    destruct (IH fuel (S k) s1) as (s' & Hrun & Hkeep').
    + lia.
    + rewrite K1. exact Hf.
    + rewrite K2. exact Hq.
    + lia.
    + lia.
    + intros j Hj. replace (S k + j)%nat with (k + S j)%nat by lia.
      apply Hbefore. lia.
    + replace (S k + n)%nat with (k + S n)%nat by lia. exact Hat.
    + exists s'. split; [exact Hrun|].
      rewrite (requests_offered_S env k (S n)).
      exact (timer_keeps_trans _ _ _ _ _ _ Hkeep Hkeep').
Qed.

(** Whenever the loop ends, the balance has been kept. *)
Lemma timer_loop_keeps env : requests_nonneg env ->
  forall fuel k s code s',
  hires_frequency (fst s) <> 0 ->
  snd (request_count (fst s)) <> 0 ->
  0 <= fst (request_count (fst s)) ->
  fst (request_count (fst s)) + requests_offered env k fuel < 2 ^ 31 ->
  timer_loop fuel env k s = Done (code, s') ->
  timer_keeps (releases_succeed env) (requests_offered env k fuel) s s'.
Proof.
  intros Hnn. induction fuel as [|fuel IH]; intros k s code s' Hf Hq Hlo Hhi Hrun;
    [discriminate|].
  cbn [timer_loop] in Hrun. rewrite requests_offered_S in Hhi |- *.
  pose proof (requests_offered_nonneg env Hnn fuel (S k)) as Hrest.
  pose proof (requests_offered_nonneg env Hnn 1 k) as Hone.
  destruct (timer_pass_once_keeps env k s Hnn Hf Hq Hlo ltac:(lia))
    as (s1 & Hpass & Hkeep).
  rewrite Hpass in Hrun. cbn [obind] in Hrun.
  destruct (timer_wait env k =? 1).
  - injection Hrun as _ <-.
    apply (timer_keeps_weaken _ (requests_offered env k 1)); [lia | exact Hkeep].
  - pose proof Hkeep as (K1 & K2 & K3 & _).
    apply (timer_keeps_trans _ _ _ _ s1 _ Hkeep).
    apply (IH (S k) s1 code s'); [rewrite K1; exact Hf | rewrite K2; exact Hq
                                 | lia | lia | exact Hrun].
Qed.

Lemma timer_pass_once_return env k s code s' :
  timer_pass_once env k s = Done (PassReturn code s') ->
  code = 0 /\ timer_wait env k = 1 /\
  snd (request_count (fst s)) <> 0 /\
  fst s' = fst (add_requests (requests_before env k) s).
Proof.
  unfold timer_pass_once.
  set (s1 := add_requests (requests_before env k) s).
  assert (Hs1 : snd (request_count (fst s1)) = snd (request_count (fst s)))
    by reflexivity.
  clearbody s1.
  assert (Hserve : forall s2, timer_serve env k s2 <> Done (PassReturn code s')).
  { intros s2. unfold timer_serve.
    destruct (performance_counter env k);
      [destruct (hires_frequency _ =? 0)|]; cbn [obind]; discriminate. }
  destruct (timer_wait env k =? 0) eqn:E0; destruct (timer_wait env k =? 1) eqn:E1;
    cbn [negb andb]; try discriminate.
  - intros H. exfalso.
    destruct (request_count_at (timer_wait env k) (fst s1) =? 0);
      [destruct (request_count_at (timer_wait env k)
                   (fst (add_requests (requests_during_reset env k)
                           (timer_does (TimerResetEvent (timer_wait env k)) s1))) =? 0)|];
      try discriminate; exact (Hserve _ H).
  - intros H. exfalso.
    destruct (request_count_at (timer_wait env k) (fst s1) =? 0);
      [destruct (request_count_at (timer_wait env k)
                   (fst (add_requests (requests_during_reset env k)
                           (timer_does (TimerResetEvent (timer_wait env k)) s1))) =? 0)|];
      try discriminate; exact (Hserve _ H).
  - unfold request_count_at. rewrite E0. intros H.
    apply Z.eqb_eq in E1.
    destruct (snd (request_count (fst s1)) =? 0) eqn:Eq.
    + unfold timer_does in H. cbn [fst snd] in H. rewrite Eq in H. discriminate.
    + apply Z.eqb_neq in Eq. injection H as <- <-.
      rewrite <- Hs1. repeat split; assumption.
Qed.

Lemma timer_thread_start_some f g :
  0 < f < 2 ^ 64 ->
  timer_thread_start (Some f) g
    = Done (set_hires f (uint64 (1000000000000 / f)) g).
Proof.
  intros Hf.
  assert (E64 : uint64 f = f)
    by (unfold uint64, UINT64_MODULUS; apply Z.mod_small; lia).
  unfold timer_thread_start. cbv zeta. rewrite !E64.
  destruct (f =? 0) eqn:E; [apply Z.eqb_eq in E; lia | reflexivity].
Qed.

Lemma requests_nonneg_example : requests_nonneg env_timer_example.
Proof.
  intros k. cbn.
  destruct k as [|k]; repeat split; lia.
Qed.

(** X16: the timer thread ends at the first pass that is woken by the quit
    event, with the exit code 0, however many requests for the time and
    failed waits came before; the frequency it has stored is the one it
    found at its start. *)
Theorem timer_thread_quits fuel f env g n :
  0 < f < 2 ^ 64 ->
  requests_nonneg env ->
  (n < fuel)%nat ->
  snd (request_count g) <> 0 ->
  0 <= fst (request_count g) ->
  fst (request_count g) + requests_offered env 0 (S n) < 2 ^ 31 ->
  (forall j, (j < n)%nat -> timer_wait env j <> 1) ->
  timer_wait env n = 1 ->
  exists g' h,
    wince_clock_gettime_threaded fuel (Some f) env g = Done (0, (g', h)) /\
    hires_frequency g' = f.
Proof.
  intros Hf Hnn Hn Hq Hlo Hhi Hbefore Hat.
  unfold wince_clock_gettime_threaded.
  rewrite (timer_thread_start_some f g Hf). cbn [obind].
  destruct (timer_loop_quits env Hnn n fuel 0%nat
              (set_hires f (uint64 (1000000000000 / f)) g, []))
    as ([g' h] & Hrun & Hkeep); try assumption.
  - cbn. lia.
  - exists g', h. split; [exact Hrun|].
    destruct Hkeep as (K1 & _). exact K1.
Qed.

Lemma timer_thread_quits_example :
  exists g' h,
    wince_clock_gettime_threaded 10 (Some 1000000) env_timer_example
      initial_globals = Done (0, (g', h)) /\
    hires_frequency g' = 1000000.
Proof.
  apply (timer_thread_quits 10 1000000 env_timer_example initial_globals 2%nat).
  - lia.
  - exact requests_nonneg_example.
  - lia.
  - cbn. lia.
  - cbn. lia.
  - cbn. lia.
  - intros j Hj. destruct j as [|[|j]]; cbn; lia.
  - reflexivity.
Defined.

(** X17: the requests are accounted for when the timer thread has ended:
    the permits it has released, the permits of the calls of
    [ReleaseSemaphore] that failed (the counter is reset before the call, so
    these requests are lost) and the requests still counted add up to the
    requests counted at its start and since.  It has read the counter once
    per call of [ReleaseSemaphore], each call asking for at least one
    permit; and when no call of [ReleaseSemaphore] fails no request is
    lost. *)
Theorem timer_thread_accounting fuel f env g code g' h :
  0 < f < 2 ^ 64 ->
  requests_nonneg env ->
  snd (request_count g) <> 0 ->
  0 <= fst (request_count g) ->
  fst (request_count g) + requests_offered env 0 fuel < 2 ^ 31 ->
  wince_clock_gettime_threaded fuel (Some f) env g = Done (code, (g', h)) ->
  fst (request_count g') + permits_released h + permits_lost h
    = fst (request_count g) + requests_counted h /\
  counter_reads h = release_calls h /\
  release_calls h <= permits_released h + permits_lost h /\
  (releases_succeed env -> permits_lost h = 0).
Proof.
  intros Hf Hnn Hq Hlo Hhi Hrun.
  unfold wince_clock_gettime_threaded in Hrun.
  rewrite (timer_thread_start_some f g Hf) in Hrun. cbn [obind] in Hrun.
  assert (Hf0 : f <> 0) by lia.
  pose proof (timer_loop_keeps env Hnn fuel 0%nat
                (set_hires f (uint64 (1000000000000 / f)) g, []) code (g', h)
                Hf0 Hq Hlo Hhi Hrun) as (_ & _ & _ & K4 & K5 & K6 & K7).
  cbn [fst snd hires_frequency set_hires request_count
         permits_released permits_lost requests_counted counter_reads
         release_calls] in *.
  split; [lia|]. split; [lia|]. split; [lia|]. exact K7.
Qed.

Lemma timer_thread_accounting_example :
  fst (request_count timer_example_globals)
    + permits_released timer_release_fails_history
    + permits_lost timer_release_fails_history
    = fst (request_count initial_globals)
      + requests_counted timer_release_fails_history /\
  counter_reads timer_release_fails_history
    = release_calls timer_release_fails_history /\
  release_calls timer_release_fails_history
    <= permits_released timer_release_fails_history
       + permits_lost timer_release_fails_history /\
  (releases_succeed env_timer_release_fails ->
   permits_lost timer_release_fails_history = 0).
Proof.
  apply (timer_thread_accounting 10 1000000 env_timer_release_fails
           initial_globals 0).
  - lia.
  - exact requests_nonneg_example.
  - cbn. lia.
  - cbn. lia.
  - cbn. lia.
  - vm_compute. reflexivity.
Defined.

Lemma timer_loop_return env : forall fuel k s code s',
  timer_loop fuel env k s = Done (code, s') ->
  code = 0 /\
  (exists n, (n < fuel)%nat /\ timer_wait env (k + n) = 1) /\
  snd (request_count (fst s')) <> 0.
Proof.
  induction fuel as [|fuel IH]; intros k s code s' Hrun; [discriminate|].
  cbn [timer_loop] in Hrun.
  destruct (timer_pass_once env k s) as [[s1|c s1]| |] eqn:Hpass;
    cbn [obind] in Hrun; try discriminate.
  - destruct (IH (S k) s1 code s' Hrun) as (Hc & (n & Hn & Hat) & Hq).
    split; [exact Hc|]. split; [|exact Hq].
    exists (S n). split; [lia|].
    replace (k + S n)%nat with (S k + n)%nat by lia. exact Hat.
  - injection Hrun as <- <-.
    destruct (timer_pass_once_return env k s c s1 Hpass) as (Hc & Hat & Hq & Hg).
    split; [exact Hc|]. split.
    + exists 0%nat. split; [lia|]. rewrite Nat.add_0_r. exact Hat.
    + rewrite Hg. exact Hq.
Qed.

(** X18: the timer thread returns only when it is asked to: whenever it
    ends, its exit code is 0, one of its waits was woken by the quit event,
    and the quit counter is not 0. *)
Theorem timer_thread_returns_on_quit fuel frequency env g code g' h :
  wince_clock_gettime_threaded fuel frequency env g = Done (code, (g', h)) ->
  code = 0 /\
  (exists n, (n < fuel)%nat /\ timer_wait env n = 1) /\
  snd (request_count g') <> 0.
Proof.
  unfold wince_clock_gettime_threaded. intros Hrun.
  destruct (timer_thread_start frequency g) as [g1| |]; cbn [obind] in Hrun;
    try discriminate.
  exact (timer_loop_return env fuel 0%nat (g1, []) code (g', h) Hrun).
Qed.

Lemma timer_thread_returns_on_quit_example :
  0 = 0 /\
  (exists n, (n < 10)%nat /\ timer_wait env_timer_example n = 1) /\
  snd (request_count timer_example_globals) <> 0.
Proof.
  apply (timer_thread_returns_on_quit 10 (Some 1000000) env_timer_example
           initial_globals 0 timer_example_globals timer_example_history).
  vm_compute. reflexivity.
Defined.

(** ** Enumeration *)

Lemma enum_pass_ok error_code env old d s :
  handle_ok env d = true -> need_unref s = false ->
  exists dev r cs,
    enum_pass error_code env (Some old) d s
      = inl (mk_enum_state (devs_append env (new_devices s) dev) (Some dev)
               false r (enum_calls s ++ cs)) /\
    enumerated env d dev /\
    (r = enum_r s \/ 0 <= r) /\
    Forall (fun c => cleanup_call c = false) cs.
Proof.
  intros Hok Hnu. unfold handle_ok in Hok. unfold enum_pass, enumerated.
  destruct (ukw_device_address env d) as [[[bus adr] sid]|] eqn:Ea;
    [|discriminate].
  destruct (device_by_session_id env sid) as [dev|] eqn:Es.
  - cbn. exists dev, (enum_r s). eexists. rewrite <- !app_assoc.
    split; [reflexivity|]. split.
    + exists bus, adr, sid. split; [reflexivity|]. left. exact Es.
    + split; [left; reflexivity|]. repeat constructor.
  - destruct (alloc_device env sid) as [dev0|] eqn:El; [|discriminate].
    unfold init_device in *. apply andb_true_iff in Hok. destruct Hok as [Hr Hs].
    apply Z.leb_le in Hr, Hs.
    destruct (ukw_device_descriptor env d <? 0) eqn:E1;
      [apply Z.ltb_lt in E1; lia|].
    destruct (sanitize_device env (mk_device (session_data dev0) bus adr (Some d)) <? 0)
      eqn:E2; [apply Z.ltb_lt in E2; lia|].
    cbn. rewrite ?E1. cbn. rewrite ?E2. cbn.
    eexists. eexists. eexists. rewrite <- !app_assoc.
    split; [reflexivity|]. split.
    + exists bus, adr, sid. split; [reflexivity|]. right.
      repeat split; try reflexivity. exact Es.
    + split; [right; exact Hs|]. repeat constructor.
Qed.

Lemma enum_pass_fail error_code env old d s :
  handle_ok env d = false -> need_unref s = false ->
  exists s' cs,
    enum_pass error_code env (Some old) d s = inr s' /\
    new_devices s' = new_devices s /\
    enum_calls s' = enum_calls s ++ cs /\
    Forall (fun c => cleanup_call c = false) cs /\
    match ukw_device_address env d with
    | None =>
        need_unref s' = false /\ enum_r s' = error_code LIBUSB_ERROR_OTHER
    | Some (bus_addr, dev_addr, session_id) =>
        match alloc_device env session_id with
        | None =>
            need_unref s' = false /\ enum_r s' = error_code LIBUSB_ERROR_NO_MEM
        | Some dev =>
            need_unref s' = true /\
            enum_dev s'
              = Some (mk_device (session_data dev) bus_addr dev_addr (Some d)) /\
            enum_r s' < 0 /\
            enum_r s'
              = (if ukw_device_descriptor env d <? 0
                 then ukw_device_descriptor env d
                 else sanitize_device env
                        (mk_device (session_data dev) bus_addr dev_addr (Some d)))
        end
    end.
Proof.
  intros Hok Hnu. unfold handle_ok in Hok. unfold enum_pass.
  destruct (ukw_device_address env d) as [[[bus adr] sid]|] eqn:Ea.
  - destruct (device_by_session_id env sid) as [dev|] eqn:Es; [discriminate|].
    destruct (alloc_device env sid) as [dev0|] eqn:El.
    + unfold init_device in *.
      destruct (ukw_device_descriptor env d <? 0) eqn:E1.
      * pose proof E1 as E1b. apply Z.ltb_lt in E1b. cbn. rewrite ?E1.
        eexists. eexists. split; [reflexivity|]. cbn. rewrite <- !app_assoc.
        split; [reflexivity|]. split; [reflexivity|].
        split; [repeat constructor|].
        split; [reflexivity|]. split; [reflexivity|]. split; [exact E1b | reflexivity].
      * destruct (sanitize_device env (mk_device (session_data dev0) bus adr (Some d)) <? 0)
          eqn:E2.
        -- pose proof E2 as E2b. apply Z.ltb_lt in E2b.
           cbn. rewrite ?E1. cbn. rewrite ?E2.
           eexists. eexists. split; [reflexivity|]. cbn. rewrite <- !app_assoc.
           split; [reflexivity|]. split; [reflexivity|].
           split; [repeat constructor|].
           split; [reflexivity|]. split; [reflexivity|].
           split; [exact E2b | reflexivity].
        -- apply Z.ltb_ge in E1, E2. apply andb_false_iff in Hok.
           destruct Hok as [H|H]; apply Z.leb_gt in H; lia.
    + cbn. eexists. eexists. split; [reflexivity|]. cbn. rewrite <- !app_assoc.
      split; [reflexivity|]. split; [reflexivity|].
      split; [repeat constructor|]. split; [exact Hnu | reflexivity].
  - cbn. eexists. eexists. split; [reflexivity|]. cbn.
    split; [reflexivity|]. split; [reflexivity|].
    split; [repeat constructor|]. split; [exact Hnu | reflexivity].
Qed.

Lemma enum_loop_ok error_code env old : forall devs s,
  forallb (handle_ok env) devs = true -> need_unref s = false ->
  exists s' appended cs,
    enum_loop error_code env (Some old) devs s = inl s' /\
    new_devices s' = fold_left (devs_append env) appended (new_devices s) /\
    Forall2 (enumerated env) devs appended /\
    need_unref s' = false /\
    enum_calls s' = enum_calls s ++ cs /\
    Forall (fun c => cleanup_call c = false) cs /\
    (enum_r s' = enum_r s \/ 0 <= enum_r s').
Proof.
  induction devs as [|d devs IH]; intros s Hok Hnu.
  - exists s, [], []. cbn. rewrite app_nil_r.
    split; [reflexivity|]. split; [reflexivity|]. split; [constructor|].
    split; [exact Hnu|]. split; [reflexivity|]. split; [constructor|].
    left. reflexivity.
  - cbn [forallb] in Hok. apply andb_true_iff in Hok. destruct Hok as [Hd Hrest].
    destruct (enum_pass_ok error_code env old d s Hd Hnu)
      as (dev & r & cs & Hpass & Henum & Hr & Hq).
    cbn [enum_loop]. rewrite Hpass.
    match goal with
    | |- context [enum_loop _ _ _ devs ?x] =>
        destruct (IH x Hrest eq_refl)
          as (s' & appended & cs' & Hloop & Hnew & Hall & Hnu' & Hcalls & Hq' & Hr')
    end.
    exists s', (dev :: appended), (cs ++ cs'). cbn in *.
    split; [exact Hloop|]. split; [exact Hnew|].
    split; [constructor; assumption|]. split; [exact Hnu'|].
    split; [rewrite Hcalls, app_assoc; reflexivity|].
    split; [apply Forall_app; split; assumption|].
    destruct Hr' as [Hr'|Hr']; [|right; exact Hr'].
    rewrite Hr'. exact Hr.
Qed.

Lemma enum_loop_app error_code env discdevs : forall pre rest s,
  enum_loop error_code env discdevs (pre ++ rest) s
  = match enum_loop error_code env discdevs pre s with
    | inl s' => enum_loop error_code env discdevs rest s'
    | inr s' => inr s'
    end.
Proof.
  induction pre as [|d pre IH]; intros rest s; [reflexivity|].
  cbn [app enum_loop].
  destruct (enum_pass error_code env discdevs d s); [apply IH | reflexivity].
Qed.

(** X21: when every call made for the handles of the driver succeeds,
    [wince_get_device_list] hands one device per handle, in the order of the
    driver, to [discovered_devs_append] and stores what the last call
    returned, whatever that is: a device the library knows is taken as it
    is, a new one carries the handle and the addresses; no error is
    returned, and neither is the list of the driver released nor a device
    unreferenced. *)
Theorem wince_get_device_list_extends error_code env old devs :
  ukw_device_list env = Some devs ->
  forallb (handle_ok env) devs = true ->
  exists r appended calls,
    wince_get_device_list error_code env (Some old)
      = Done (r, fold_left (devs_append env) appended old, calls) /\
    Forall2 (enumerated env) devs appended /\
    (r = error_code LIBUSB_SUCCESS \/ 0 <= r) /\
    Forall (fun c => cleanup_call c = false) calls.
Proof.
  intros Hlist Hok. unfold wince_get_device_list. rewrite Hlist.
  destruct (enum_loop_ok error_code env old devs
              (mk_enum_state old None false (error_code LIBUSB_SUCCESS)
                 [CallGetDeviceList]) Hok eq_refl)
    as (s' & appended & cs & Hloop & Hnew & Hall & _ & Hcalls & Hq & Hr).
  cbn [new_devices enum_calls enum_r] in *.
  rewrite Hloop, Hnew, Hcalls.
  exists (enum_r s'), appended. eexists. split; [reflexivity|].
  split; [exact Hall|]. split; [exact Hr|].
  constructor; [reflexivity | exact Hq].
Qed.

Lemma wince_get_device_list_extends_example :
  exists r appended calls,
    wince_get_device_list example_error_code (env_enum_example 0) (Some (Some []))
      = Done (r, fold_left (devs_append (env_enum_example 0)) appended (Some []),
              calls) /\
    Forall2 (enumerated (env_enum_example 0)) [0; 1; 2]%nat appended /\
    (r = example_error_code LIBUSB_SUCCESS \/ 0 <= r) /\
    Forall (fun c => cleanup_call c = false) calls.
Proof.
  apply (wince_get_device_list_extends example_error_code (env_enum_example 0)
           (Some []) [0; 1; 2]%nat); reflexivity.
Defined.

(** X22: when a call made for one of the handles fails,
    [wince_get_device_list] leaves in the list the devices of the handles
    before that one and releases the list of the driver as its last call.
    When the address of the handle cannot be read it returns
    [LIBUSB_ERROR_OTHER], and when no device can be allocated
    [LIBUSB_ERROR_NO_MEM], in both cases without unreferencing anything;
    when the device is allocated and its descriptor cannot be read, or the
    device is not accepted by [usbi_sanitize_device], it returns the
    negative result of that call and unreferences the new device, once,
    just before the release. *)
Theorem wince_get_device_list_cleans_up error_code env old pre d post :
  ukw_device_list env = Some (pre ++ d :: post) ->
  forallb (handle_ok env) pre = true ->
  handle_ok env d = false ->
  exists r appended calls cleanup,
    wince_get_device_list error_code env (Some old)
      = Done (r, fold_left (devs_append env) appended old,
              calls ++ cleanup
                ++ [CallReleaseDeviceList (length (pre ++ d :: post))]) /\
    Forall2 (enumerated env) pre appended /\
    Forall (fun c => cleanup_call c = false) calls /\
    match ukw_device_address env d with
    | None => cleanup = [] /\ r = error_code LIBUSB_ERROR_OTHER
    | Some (bus_addr, dev_addr, session_id) =>
        match alloc_device env session_id with
        | None => cleanup = [] /\ r = error_code LIBUSB_ERROR_NO_MEM
        | Some dev =>
            cleanup
              = [CallUnrefDevice
                   (mk_device (session_data dev) bus_addr dev_addr (Some d))] /\
            r < 0 /\
            r = (if ukw_device_descriptor env d <? 0
                 then ukw_device_descriptor env d
                 else sanitize_device env
                        (mk_device (session_data dev) bus_addr dev_addr (Some d)))
        end
    end.
Proof.
  intros Hlist Hok Hfail. unfold wince_get_device_list. rewrite Hlist.
  rewrite enum_loop_app.
  destruct (enum_loop_ok error_code env old pre
              (mk_enum_state old None false (error_code LIBUSB_SUCCESS)
                 [CallGetDeviceList]) Hok eq_refl)
    as (s1 & appended & cs & Hloop & Hnew & Hall & Hnu & Hcalls & Hq & _).
  cbn [new_devices enum_calls enum_r] in *. rewrite Hloop.
  destruct (enum_pass_fail error_code env old d s1 Hfail Hnu)
    as (s2 & cs2 & Hpass & Hnew2 & Hcalls2 & Hq2 & Hcase).
  cbn [enum_loop]. rewrite Hpass.
  exists (enum_r s2), appended, ([CallGetDeviceList] ++ cs ++ cs2).
  assert (Hquiet : Forall (fun c => cleanup_call c = false)
                     ([CallGetDeviceList] ++ cs ++ cs2)).
  { constructor; [reflexivity | apply Forall_app; split; assumption]. }
  destruct (ukw_device_address env d) as [[[bus adr] sid]|];
    [destruct (alloc_device env sid) as [dev0|]|].
  - destruct Hcase as (Hnu2 & Hdev & Hneg & Hr).
    exists [CallUnrefDevice (mk_device (session_data dev0) bus adr (Some d))].
    rewrite Hnu2, Hdev.
    cbn [enum_did new_devices enum_calls enum_r app].
    rewrite Hnew2, Hnew, Hcalls2, Hcalls. rewrite <- !app_assoc.
    split; [reflexivity|]. split; [exact Hall|]. split; [exact Hquiet|].
    split; [reflexivity|]. split; [exact Hneg | exact Hr].
  - destruct Hcase as (Hnu2 & Hr).
    exists []. rewrite Hnu2. cbn [enum_did new_devices enum_calls enum_r app].
    rewrite Hnew2, Hnew, Hcalls2, Hcalls. rewrite <- !app_assoc.
    split; [reflexivity|]. split; [exact Hall|]. split; [exact Hquiet|].
    split; [reflexivity | exact Hr].
  - destruct Hcase as (Hnu2 & Hr).
    exists []. rewrite Hnu2. cbn [enum_did new_devices enum_calls enum_r app].
    rewrite Hnew2, Hnew, Hcalls2, Hcalls. rewrite <- !app_assoc.
    split; [reflexivity|]. split; [exact Hall|]. split; [exact Hquiet|].
    split; [reflexivity | exact Hr].
Qed.

Lemma wince_get_device_list_cleans_up_example :
  exists r appended calls cleanup,
    wince_get_device_list example_error_code (env_enum_example (-1))
      (Some (Some []))
      = Done (r, fold_left (devs_append (env_enum_example (-1))) appended (Some []),
              calls ++ cleanup
                ++ [CallReleaseDeviceList (length ([0; 1] ++ 2 :: [])%nat)]) /\
    Forall2 (enumerated (env_enum_example (-1))) [0; 1]%nat appended /\
    Forall (fun c => cleanup_call c = false) calls /\
    cleanup = [CallUnrefDevice (mk_device 102 1 3 (Some 2%nat))] /\
    r < 0 /\ r = -1.
Proof.
  apply (wince_get_device_list_cleans_up example_error_code
           (env_enum_example (-1)) (Some []) [0; 1]%nat 2%nat []); reflexivity.
Defined.
